(** * DocAgent: the resilient inference-and-pipeline core

    A shallow embedding of the Python sources

      - [backend/services/mermaid_utils.py]  (clean / validate / repair),
      - [backend/agents/base.py]             (BytezAgent: cloud, local, mock),
      - [backend/agents/reader.py], [backend/agents/diagram.py],
      - [backend/routes/repo_docs.py]        (repo-wide job processing),

    together with the properties the specification states about them.

    Python [str] values are sequences of Unicode code points; they are
    modelled as lists of code points ([N]).  Library functions of Python
    ([str.strip], [str.split], [str.replace], [re.sub] with the patterns
    the code uses, ...) are given executable models in module [Py]. *)

From Stdlib Require Import Ascii String DecimalString.
From Stdlib Require Import NArith ZArith Bool Lia List Permutation.
Import ListNotations.

Set Implicit Arguments.
Set Warnings "-register-all".

(* ------------------------------------------------------------------ *)
(** ** Python strings *)

Module Py.

Definition char := N.
Definition str := list char.

(** A Rocq string literal read as a Python string (one code point per
    character; the literals of the sources are ASCII). *)
Definition u (s : string) : str :=
  List.map N_of_ascii (list_ascii_of_string s).

Definition nl : char := 10%N.         (* "\n" *)
Definition cr : char := 13%N.         (* "\r" *)
Definition dquote : char := 34%N.     (* the double quote *)
Definition backslash : char := 92%N.
Definition backtick : char := 96%N.
Definition bom : char := 65279%N.     (* U+FEFF, the byte-order mark *)

Definition str_eqb (a b : str) : bool :=
  if list_eq_dec N.eq_dec a b then true else false.

(** [str.isspace] on one code point; also the class [\s] of [re] on [str]
    patterns. *)
Definition isspace (c : char) : bool :=
  ((9 <=? c) && (c <=? 13) || (28 <=? c) && (c <=? 32)
   || (c =? 133) || (c =? 160) || (c =? 5760)
   || (8192 <=? c) && (c <=? 8202)
   || (c =? 8232) || (c =? 8233) || (c =? 8239) || (c =? 8287)
   || (c =? 12288))%N.

Fixpoint drop_while (p : char -> bool) (s : str) : str :=
  match s with
  | [] => []
  | c :: s' => if p c then drop_while p s' else s
  end.

(** [s.lstrip()], [s.rstrip()], [s.strip()] *)
Definition lstrip (s : str) : str := drop_while isspace s.
Definition rstrip (s : str) : str := rev (drop_while isspace (rev s)).
Definition strip (s : str) : str := rstrip (lstrip s).

(** [s.lstrip(chars)] *)
Definition lstrip_chars (chars : str) (s : str) : str :=
  drop_while (fun c => existsb (N.eqb c) chars) s.

(** [s.startswith(p)] *)
Fixpoint startswith (p s : str) : bool :=
  match p, s with
  | [], _ => true
  | _ :: _, [] => false
  | a :: p', b :: s' => (a =? b)%N && startswith p' s'
  end.

(** [s.endswith(p)] *)
Definition endswith (p s : str) : bool := startswith (rev p) (rev s).

(** [sub in s] *)
Fixpoint contains (sub s : str) : bool :=
  startswith sub s ||
  match s with
  | [] => false
  | _ :: s' => contains sub s'
  end.

(** The scanning functions below walk the text from left to right; after a
    match of the (non-empty) pattern they skip the rest of the matched
    characters, as the non-overlapping searches of Python do. *)

(** [s.replace(pat, rep)], [pat] non-empty *)
Fixpoint replace_go (pat rep : str) (skip : nat) (s : str) : str :=
  match s with
  | [] => []
  | c :: s' =>
      match skip with
      | S k => replace_go pat rep k s'
      | O => if startswith pat s
             then rep ++ replace_go pat rep (length pat - 1) s'
             else c :: replace_go pat rep 0 s'
      end
  end.
Definition replace (pat rep s : str) : str := replace_go pat rep 0 s.

(** [s.count(sub)], [sub] non-empty *)
Fixpoint count_go (sub : str) (skip : nat) (s : str) : nat :=
  match s with
  | [] => 0
  | _ :: s' =>
      match skip with
      | S k => count_go sub k s'
      | O => if startswith sub s
             then S (count_go sub (length sub - 1) s')
             else count_go sub 0 s'
      end
  end.
Definition count (sub s : str) : nat := count_go sub 0 s.

Definition cons_head (c : char) (fields : list str) : list str :=
  match fields with
  | [] => [[c]]
  | f :: fs => (c :: f) :: fs
  end.

(** [s.split(sep)], [sep] non-empty: never returns the empty list *)
Fixpoint split_go (sep : str) (skip : nat) (s : str) : list str :=
  match s with
  | [] => [[]]
  | c :: s' =>
      match skip with
      | S k => split_go sep k s'
      | O => if startswith sep s
             then [] :: split_go sep (length sep - 1) s'
             else cons_head c (split_go sep 0 s')
      end
  end.
Definition split (sep s : str) : list str := split_go sep 0 s.

(** [sep.join(parts)] *)
Fixpoint join (sep : str) (parts : list str) : str :=
  match parts with
  | [] => []
  | [p] => p
  | p :: ps => p ++ sep ++ join sep ps
  end.

(** [s.split()]: the maximal runs of non-whitespace characters *)
Fixpoint words_go (cur : str) (s : str) : list str :=
  match s with
  | [] => match cur with [] => [] | _ => [rev cur] end
  | c :: s' =>
      if isspace c
      then match cur with
           | [] => words_go [] s'
           | _ => rev cur :: words_go [] s'
           end
      else words_go (c :: cur) s'
  end.
Definition words (s : str) : list str := words_go [] s.

(** [s.lower()], for the places where the code tests lowered text against
    ASCII keywords, extensions and file names; where the lowered text is
    itself returned (the [diagram_type] of a raw diagram) the function
    is a parameter.  ASCII capitals are lowered; the two non-ASCII characters
    whose lower-case form contains an ASCII letter (U+0130 and the Kelvin
    sign U+212A) are mapped as Unicode does; any other character is kept:
    its lower-case form is one non-ASCII code point, so every test
    against an ASCII keyword has the same outcome. *)
Definition lower_char (c : char) : str :=
  (if (65 <=? c) && (c <=? 90) then [c + 32]
   else if c =? 304 then [105; 775]
   else if c =? 8490 then [107]
   else [c])%N.
Definition lower (s : str) : str := flat_map lower_char s.

(** [str(n)] for a non-negative integer *)
Definition str_of_nat (n : nat) : str :=
  u (NilEmpty.string_of_uint (Nat.to_uint n)).

(** [s[:n]] and [s[n:]] for [n >= 0] *)
Definition take (n : nat) (s : str) : str := firstn n s.
Definition drop (n : nat) (s : str) : str := skipn n s.

End Py.

Import Py.

(* ------------------------------------------------------------------ *)
(** ** services/mermaid_utils.py *)

Module Mermaid.

Definition MERMAID_KEYWORDS : list str :=
  [ u "graph"; u "flowchart"; u "sequencediagram"; u "classdiagram";
    u "statediagram"; u "statediagram-v2"; u "erdiagram"; u "gantt";
    u "pie"; u "gitgraph"; u "mindmap"; u "timeline"; u "journey" ].

(** [any(first_line.startswith(kw) for kw in MERMAID_KEYWORDS)] *)
Definition keyword_found (first_line : str) : bool :=
  existsb (fun kw => startswith kw first_line) MERMAID_KEYWORDS.

(** *** clean_mermaid_code *)

Definition fence : str := [backtick; backtick; backtick].

(** [re.sub(r"^```(?:mermaid)?\s*\n?", "", code)]: the pattern is
    anchored at the start of the text; the greedy [\s*] takes all the
    white space after the fence, newlines included. *)
Definition strip_open_fence (code : str) : str :=
  if startswith fence code then
    let r := drop 3 code in
    let r := if startswith (u "mermaid") r then drop 7 r else r in
    lstrip r
  else code.

(** [re.sub(r"\n?```\s*$", "", code)]: a fence followed by white space
    only, up to the end of the text, is removed together with the newline
    just before it. *)
Definition strip_close_fence (code : str) : str :=
  let body := rstrip code in
  if endswith fence body then
    let before := take (length body - 3) body in
    if endswith [nl] before then take (length before - 1) before
    else before
  else code.

Definition hex_val (c : char) : option N :=
  (if (48 <=? c) && (c <=? 57) then Some (c - 48)
   else if (97 <=? c) && (c <=? 102) then Some (c - 87)
   else if (65 <=? c) && (c <=? 70) then Some (c - 55)
   else None)%N.

(** The code point of a [\uXXXX] escape at the head of [s], if any. *)
Definition unicode_escape (s : str) : option char :=
  match s with
  | b :: l :: h1 :: h2 :: h3 :: h4 :: _ =>
      if ((b =? backslash) && (l =? 117))%N then
        match hex_val h1, hex_val h2, hex_val h3, hex_val h4 with
        | Some a, Some b', Some c, Some d =>
            Some (((a * 16 + b') * 16 + c) * 16 + d)%N
        | _, _, _, _ => None
        end
      else None
  | _ => None
  end.

(** [re.sub(r"\\u([0-9a-fA-F]{4})", lambda m: chr(int(m.group(1), 16)), code)] *)
Fixpoint decode_unicode_go (skip : nat) (s : str) : str :=
  match s with
  | [] => []
  | c :: s' =>
      match skip with
      | S k => decode_unicode_go k s'
      | O => match unicode_escape s with
             | Some cp => cp :: decode_unicode_go 5 s'
             | None => c :: decode_unicode_go 0 s'
             end
      end
  end.
Definition decode_unicode (s : str) : str := decode_unicode_go 0 s.

(** Step 6: line endings, trailing white space of every line, outer strip *)
Definition normalise_lines (code : str) : str :=
  let code := replace [cr] [nl] (replace [cr; nl] [nl] code) in
  let code := join [nl] (List.map rstrip (split [nl] code)) in
  strip code.

Definition clean_mermaid_code (raw_code : str) : str :=
  match raw_code with
  | [] => []
  | _ =>
      (* Step 1: markdown code fences *)
      let code := strip_open_fence raw_code in
      let code := strip_close_fence code in
      (* Step 2: double-escaped sequences *)
      let code := replace [backslash; backslash; 110%N] [nl] code in
      let code := replace [backslash; backslash; 116%N] (u "  ") code in
      let code := replace [backslash; backslash; dquote] [dquote] code in
      (* Step 3: single-escaped sequences *)
      let code := replace [backslash; 110%N] [nl] code in
      let code := replace [backslash; 116%N] (u "  ") code in
      let code := replace [backslash; dquote] [dquote] code in
      (* Step 4: unicode escapes *)
      let code := decode_unicode code in
      (* Step 5: byte-order mark *)
      let code := lstrip_chars [bom] code in
      (* Step 6 *)
      normalise_lines code
  end.

(** *** validate_mermaid_syntax *)

Definition bracket_pairs : list (str * str * str) :=
  [ (u "(", u ")", u "parentheses");
    (u "[", u "]", u "square brackets");
    (u "{", u "}", u "braces") ].

(** The loop over the three bracket kinds: the first unbalanced kind gives
    the failure message. *)
Fixpoint check_brackets (code : str) (pairs : list (str * str * str))
  : bool * str :=
  match pairs with
  | [] => (true, [])
  | (open_b, close_b, name) :: rest =>
      if negb (count open_b code =? count close_b code)
      then (false,
            u "Unbalanced " ++ name ++ u ": "
              ++ str_of_nat (count open_b code) ++ u " '" ++ open_b
              ++ u "' vs " ++ str_of_nat (count close_b code)
              ++ u " '" ++ close_b ++ u "'")
      else check_brackets code rest
  end.

Definition validate_mermaid_syntax (code : str) : bool * str :=
  match code, strip code with
  | [], _ | _, [] => (false, u "Empty diagram code")
  | _, _ =>
      let lines := split [nl] (strip code) in
      let line0 := hd [] lines in
      let first_line := lower (strip line0) in
      if negb (keyword_found first_line)
      then (false,
            u "Unrecognized diagram type in first line: '"
              ++ strip line0 ++ u "'")
      else check_brackets code bracket_pairs
  end.

(** *** attempt_mermaid_repair *)

(** [lines.pop()] while the counts differ and more than one line is left;
    the lines are held last-first. *)
Fixpoint trim_unbalanced_rev (open_b close_b : str) (rlines : list str)
  : list str :=
  match rlines with
  | _ :: (_ :: _) as rest =>
      let repaired := join [nl] (rev rlines) in
      if negb (count open_b repaired =? count close_b repaired)
      then trim_unbalanced_rev open_b close_b rest
      else rlines
  | _ => rlines
  end.

Definition trim_unbalanced (open_b close_b : str) (lines : list str)
  : list str :=
  rev (trim_unbalanced_rev open_b close_b (rev lines)).

(** [re.search(pat + r"\s*$", s)] for a pattern [pat] of non-space
    characters: the text ends with [pat] once its trailing white space is
    dropped. *)
Definition search_at_end (pat s : str) : bool := endswith pat (rstrip s).

Definition repair_pairs : list (str * str) :=
  [ (u "(", u ")"); (u "[", u "]"); (u "{", u "}") ].

(** Repair 3 keeps the lines that do not end in an arrow with no target. *)
Definition dangling_arrow (line : str) : bool :=
  let stripped := rstrip line in
  search_at_end (u "-->") stripped
  || (search_at_end (u "->") stripped || search_at_end (u "->>") stripped).

Definition attempt_mermaid_repair (code : str) (error_msg : str) : str :=
  match code with
  | [] => code
  | _ =>
      let lines := split [nl] (strip code) in
      (* Repair 1: missing diagram type on the first line *)
      let first_line := lower (strip (hd [] lines)) in
      let lines :=
        if negb (keyword_found first_line)
        then u "flowchart TD" :: lines else lines in
      (* Repair 2: trim trailing lines while brackets are unbalanced *)
      let lines :=
        fold_left (fun ls '(open_b, close_b) =>
                     trim_unbalanced open_b close_b ls)
                  repair_pairs lines in
      let repaired := join [nl] lines in
      (* Repair 3: arrow lines with empty targets *)
      let cleaned_lines :=
        filter (fun line => negb (dangling_arrow line))
               (split [nl] repaired) in
      strip (join [nl] cleaned_lines)
  end.

End Mermaid.

Import Mermaid.

(* ------------------------------------------------------------------ *)
(** ** JSON values, as [json.loads] builds them and [json.dumps] writes
       them *)

Module Json.

(** A float is identified by its [repr], the token [json.dumps] writes
    for it; a dict keeps its items in insertion order. *)
Inductive json : Type :=
| JNull
| JBool (b : bool)
| JInt (z : Z)
| JFloat (repr : str)
| JStr (s : str)
| JArr (items : list json)
| JObj (items : list (str * json)).

(** Truth value of a Python object ([if x:]) *)
Definition truthy (v : json) : bool :=
  match v with
  | JNull => false
  | JBool b => b
  | JInt z => negb (z =? 0)%Z
  | JFloat r => negb (str_eqb r (u "0.0") || str_eqb r (u "-0.0"))
  | JStr s => match s with [] => false | _ => true end
  | JArr l => match l with [] => false | _ => true end
  | JObj l => match l with [] => false | _ => true end
  end.

(** [d.get(key)] on the items of a dict *)
Fixpoint get (key : str) (items : list (str * json)) : option json :=
  match items with
  | [] => None
  | (k, v) :: rest => if str_eqb k key then Some v else get key rest
  end.

(** [d[key] = v] on the items of a dict *)
Fixpoint set (key : str) (v : json) (items : list (str * json))
  : list (str * json) :=
  match items with
  | [] => [(key, v)]
  | (k, w) :: rest =>
      if str_eqb k key then (k, v) :: rest else (k, w) :: set key v rest
  end.

Definition hex_digit (n : N) : char :=
  (if n <? 10 then 48 + n else 87 + n)%N.

(** ["\\uXXXX"] *)
Definition escape_u (c : N) : str :=
  [backslash; 117%N;
   hex_digit (c / 4096 mod 16); hex_digit (c / 256 mod 16);
   hex_digit (c / 16 mod 16); hex_digit (c mod 16)]%N.

(** One character inside a JSON string, [ensure_ascii=True] *)
Definition escape_char (c : char) : str :=
  (if c =? dquote then [backslash; dquote]
   else if c =? backslash then [backslash; backslash]
   else if c =? 10 then [backslash; 110]
   else if c =? 13 then [backslash; 114]
   else if c =? 9 then [backslash; 116]
   else if c =? 8 then [backslash; 98]
   else if c =? 12 then [backslash; 102]
   else if (32 <=? c) && (c <=? 126) then [c]
   else if c <? 65536 then escape_u c
   else escape_u (55296 + (c - 65536) / 1024)
          ++ escape_u (56320 + (c - 65536) mod 1024))%N.

Definition dumps_str (s : str) : str :=
  [dquote] ++ flat_map escape_char s ++ [dquote].

Definition dumps_int (z : Z) : str :=
  u (NilEmpty.string_of_int (Z.to_int z)).

(** [json.dumps(v)] with the default separators *)
Fixpoint dumps (v : json) : str :=
  match v with
  | JNull => u "null"
  | JBool true => u "true"
  | JBool false => u "false"
  | JInt z => dumps_int z
  | JFloat r => r
  | JStr s => dumps_str s
  | JArr items =>
      u "[" ++ join (u ", ") (List.map dumps items) ++ u "]"
  | JObj items =>
      u "{"
        ++ join (u ", ")
             (List.map (fun kv => dumps_str (fst kv) ++ u ": "
                                    ++ dumps (snd kv)) items)
        ++ u "}"
  end.

(** [v.get(key)] when [v] is a dict *)
Definition field (key : str) (v : json) : option json :=
  match v with
  | JObj items => get key items
  | _ => None
  end.

(** What a Python call gives: a value, or an exception that propagates *)
Inductive exn : Type :=
| AttributeError
| TypeError
| IndexError
| ValueError
| OtherError (msg : str).

Inductive result (A : Type) : Type :=
| Ok (a : A)
| Raise (e : exn).
Arguments Ok {A} a.
Arguments Raise {A} e.

(** What [json.loads] does with a text: it returns the value read, or
    raises [JSONDecodeError] (a [ValueError]) on a text that is not JSON,
    or raises something else, such as the [RecursionError] of a text
    nested too deep. *)
Inductive loaded : Type :=
| Loaded (v : json)
| JSONDecodeError
| LoadRaised (e : exn).

End Json.

Import Json.

(* ------------------------------------------------------------------ *)
(** ** agents/base.py *)

Module Inference.

(** A role-tagged message, a [Dict[str, str]]: the code reads both keys
    with [msg.get], so either may be absent. *)
Record message : Type := Message {
  role : option str;
  content : option str
}.

Definition user_msg (text : str) : message :=
  Message (Some (u "user")) (Some text).
Definition system_msg (text : str) : message :=
  Message (Some (u "system")) (Some text).

Definition _CHAT_MODEL_KEYWORDS : list str :=
  [ u "instruct"; u "chat"; u "llama"; u "qwen"; u "mistral"; u "gemma";
    u "phi"; u "deepseek" ].

Definition _is_chat_model (model_id : str) : bool :=
  let lower_id := lower model_id in
  existsb (fun kw => contains kw lower_id) _CHAT_MODEL_KEYWORDS.

(** What one HTTP call gives: the two exceptions the code tells apart, or
    a response with its status code and its decoded body. *)
Inductive http_result (B : Type) : Type :=
| TimeoutException
| TransportException
| Response (status_code : Z) (body : B).
Arguments TimeoutException {B}.
Arguments TransportException {B}.
Arguments Response {B} status_code body.

(** The [output] entry of a cloud reply: a dict with its [content] entry
    if it has one (any JSON value), a bare text, or anything else. *)
Inductive bytez_output : Type :=
| OutputDict (content : option json)
| OutputStr (text : str)
| OutputOther.

(** [if content: logger.info(f"...{content[:100]}..."); return content]:
    the content is handed back as it is when it is truthy and can be
    sliced, that is when it is a non-empty text or a non-empty list.  A
    falsy content is passed over; on any other value the slice raises, and
    the handler around treats the reply as a failed one. *)
Definition is_content (c : json) : bool :=
  match c with
  | JStr (_ :: _) | JArr (_ :: _) => true
  | _ => false
  end.
Definition returned_content (c : json) : option json :=
  if is_content c then Some c else None.

(** [response.json()] of the cloud host, as far as the code reads it *)
Record bytez_data : Type := BytezData {
  error_is_none : bool;              (* data.get("error") is None *)
  output : option bytez_output       (* data.get("output", {}) *)
}.

Section Client.

(** Sampling temperature (a float, only passed on) *)
Variable float : Type.

Inductive bytez_body : Type :=
| ChatBody (messages : list message) (max_new_tokens : Z) (temperature : float)
| TextBody (text : str) (max_new_tokens : Z) (temperature : float).

Record ollama_request : Type := OllamaRequest {
  model : str;
  ollama_messages : list message;
  num_predict : Z;
  ollama_temperature : float
}.

(** The agent's configuration and the outside world. *)
Variable model_id : str.
Variable api_key : str.
(** The cloud host's answer to the POST of the given attempt; a body of
    [None] is a reply that [response.json()] or the dict accesses reject. *)
Variable bytez_post : nat -> bytez_body -> http_result (option bytez_data).
(** The local host: [GET /api/tags] (the installed model names, [None] if
    the reply cannot be read) and [POST /api/chat] (the message content,
    [None] if the reply cannot be read, [Some None] if it has none). *)
Variable ollama_tags : http_result (option (list str)).
Variable ollama_chat : ollama_request -> http_result (option (option json)).

(** What the client does towards the cloud host, in order *)
Inductive event : Type :=
| Post (attempt : nat)
| Sleep (seconds : nat).

(** The prompt of a text-to-text model *)
Definition prompt_part (msg : message) : str :=
  let r := match role msg with Some r => r | None => u "user" end in
  let c := match content msg with Some c => c | None => [] end in
  if str_eqb r (u "system") then u "Instructions: " ++ c else c.

Definition request_body (messages : list message) (temperature : float)
    (max_tokens : Z) : bytez_body :=
  if _is_chat_model model_id
  then ChatBody messages max_tokens temperature
  else TextBody (join [nl; nl] (List.map prompt_part messages))
                max_tokens temperature.

(** The value a 200 reply makes the call return, if it does *)
Definition reply_content (body : option bytez_data) : option json :=
  match body with
  | None => None
  | Some data =>
      if error_is_none data then
        match output data with
        | None | Some (OutputDict None) => None
        | Some (OutputDict (Some c)) => returned_content c
        | Some (OutputStr o) =>
            match strip o with [] => None | _ => Some (JStr o) end
        | Some OutputOther => None
        end
      else None
  end.

Definition max_retries : nat := 2.

(** The body of [for attempt in range(max_retries + 1)], over the
    attempts still to run: the events and the value returned. *)
Fixpoint bytez_loop (body : bytez_body) (attempts : list nat)
  : list event * option json :=
  match attempts with
  | [] => ([], None)
  | attempt :: rest =>
      let continue_ :=
        let '(evs, r) := bytez_loop body rest in (Post attempt :: evs, r) in
      (* the code after the try block: break on the first attempt only *)
      let not_rate_limited :=
        if (attempt =? 0)%nat then ([Post attempt], None) else continue_ in
      match bytez_post attempt body with
      | Response status reply =>
          if (status =? 429)%Z then
            let wait := 5 * (attempt + 1) in
            if (attempt <? max_retries)%nat then
              let '(evs, r) := bytez_loop body rest in
              (Post attempt :: Sleep wait :: evs, r)
            else ([Post attempt], None)
          else if (status =? 200)%Z then
            match reply_content reply with
            | Some c => ([Post attempt], Some c)
            | None => not_rate_limited
            end
          else not_rate_limited
      | TimeoutException => not_rate_limited
      | TransportException => not_rate_limited
      end
  end.

Definition _call_bytez (messages : list message) (temperature : float)
    (max_tokens : Z) : list event * option json :=
  bytez_loop (request_body messages temperature max_tokens)
             (seq 0 (max_retries + 1)).

(** The keyword table of [_resolve_ollama_model], in the order the dict
    is iterated *)
Definition ollama_mappings : list (str * str) :=
  [ (u "qwen", u "qwen2.5-coder:7b");
    (u "llama", u "llama3.2:3b");
    (u "starcoder", u "qwen2.5-coder:7b");
    (u "codellama", u "codellama:7b");
    (u "deepseek", u "deepseek-coder:6.7b");
    (u "mistral", u "mistral:7b");
    (u "phi", u "phi3:mini");
    (u "gemma", u "gemma2:2b") ].

Definition _resolve_ollama_model : str :=
  let mid := lower model_id in
  match find (fun kv => contains (fst kv) mid) ollama_mappings with
  | Some kv => snd kv
  | None => u "llama3.2:3b"
  end.

Definition _call_ollama (messages : list message) (temperature : float)
    (max_tokens : Z) : option json :=
  let ollama_model := _resolve_ollama_model in
  match ollama_model with
  | [] => None
  | _ =>
      match ollama_tags with
      | Response status (Some installed) =>
          if negb (status =? 200)%Z then None
          else
            let model_available :=
              existsb (str_eqb ollama_model) installed
              || existsb (contains ollama_model) installed in
            if negb model_available then None
            else
              match ollama_chat
                      (OllamaRequest ollama_model messages max_tokens
                                     temperature) with
              | Response status' (Some (Some c)) =>
                  if (status' =? 200)%Z then returned_content c else None
              | _ => None
              end
      | Response status None =>
          (* the status is tested before the reply is decoded *)
          None
      | _ => None
      end
  end.

(** The five fixed records of [_mock_response] *)
Definition strs (l : list string) : json := JArr (List.map (fun s => JStr (u s)) l).

Definition mock_analysis : json :=
  JObj [ (u "complexity",
          JObj [(u "cyclomatic", JInt 5); (u "cognitive", JInt 3)]);
         (u "dependencies",
          JObj [(u "internal", JArr []);
                (u "external", strs ["json"; "typing"]%string)]);
         (u "architecture_type", JStr (u "function"));
         (u "documentation_needs",
          strs ["docstring"; "parameters"; "return_value"; "examples"]%string) ].

Definition mock_context : json :=
  JObj [ (u "patterns", strs ["factory pattern"; "dependency injection"]%string);
         (u "best_practices",
          strs ["Use type hints"; "Add comprehensive docstrings";
                "Include examples"]%string);
         (u "concepts", strs ["encapsulation"; "modularity"]%string);
         (u "examples", strs ["# Example usage included"]%string) ].

Definition mock_documentation : json :=
  JObj [ (u "docstring",
          JStr ([dquote; dquote; dquote]
                ++ u "\nAuto-generated documentation for code component.\n\nThis function/class provides functionality as defined in the source code.\n\nArgs:\n    param1: First parameter description\n    param2: Second parameter description\n\nReturns:\n    Result of the operation\n\nExample:\n    >>> result = function_name(arg1, arg2)\n"
                ++ [dquote; dquote; dquote]));
         (u "markdown",
          JStr (u "# Component Documentation\n\n## Overview\n\nThis component is part of the codebase and provides specific functionality.\n\n## Parameters\n\n| Name | Type | Description |\n|------|------|-------------|\n| param1 | Any | First parameter |\n| param2 | Any | Second parameter |\n\n## Returns\n\nReturns the result of the operation.\n\n## Example\n\n```python\nresult = function_name(arg1, arg2)\nprint(result)\n```"));
         (u "examples",
          strs ["result = function_name(arg1, arg2)";
                "output = process_data(input)"]%string) ].

Definition mock_verification : json :=
  JObj [ (u "approved", JBool true);
         (u "quality_score", JFloat (u "87.5"));
         (u "evaluation",
          JObj [(u "accuracy", JInt 90); (u "completeness", JInt 85);
                (u "clarity", JInt 88); (u "examples", JInt 87)]);
         (u "feedback",
          strs ["Documentation is comprehensive";
                "Consider adding more edge cases in examples"]%string) ].

Definition mock_diagram : json :=
  JObj [ (u "diagram_type", JStr (u "flowchart"));
         (u "mermaid_code",
          JStr (u "flowchart TD\n    A[Start] --> B{Validate Input}\n    B -->|Valid| C[Process Data]\n    B -->|Invalid| D[Return Error]\n    C --> E[Transform Result]\n    E --> F[Return Output]\n    D --> F\n    F --> G[End]"));
         (u "description",
          JStr (u "Flowchart showing the main execution flow")) ].

(** The keyword sniffing on the chosen text, first group first *)
Definition sniff (user_content : str) : str :=
  let lc := lower user_content in
  if contains (u "analyze") lc || contains (u "code") lc
  then dumps mock_analysis
  else if contains (u "context") lc || contains (u "patterns") lc
  then dumps mock_context
  else if contains (u "documentation") lc || contains (u "write") lc
  then dumps mock_documentation
  else if contains (u "verify") lc || contains (u "quality") lc
  then dumps mock_verification
  else if contains (u "diagram") lc || contains (u "mermaid") lc
  then dumps mock_diagram
  else u "Generated content".

(** The loop of [_mock_response]: it stops at the first message whose
    role is ["user"]. *)
Fixpoint user_content_of (messages : list message) : str :=
  match messages with
  | [] => []
  | msg :: rest =>
      match role msg with
      | Some r =>
          if str_eqb r (u "user")
          then match content msg with Some c => c | None => [] end
          else user_content_of rest
      | None => user_content_of rest
      end
  end.

Definition _mock_response (messages : list message) : str :=
  sniff (user_content_of messages).

Definition generate (messages : list message) (temperature : float)
    (max_tokens : Z) : json :=
  let cloud :=
    match api_key with
    | [] => None
    | _ => snd (_call_bytez messages temperature max_tokens)
    end in
  match cloud with
  | Some result => result
  | None =>
      match _call_ollama messages temperature max_tokens with
      | Some result => result
      | None => JStr (_mock_response messages)
      end
  end.

End Client.

End Inference.

Import Inference.

(* ------------------------------------------------------------------ *)
(** ** agents/reader.py and agents/diagram.py: from model text to record

    Both agents build their prompt, await [generate] and then recover a
    record from the text it returned.  The embedding starts at that text
    ([response]).  [json.loads] is the library's parser: [None] stands for
    [JSONDecodeError]. *)

Module Agents.

(** [s.partition(sep)]: the text before and after the first occurrence of
    [sep], if there is one *)
Fixpoint partition (sep s : str) : option (str * str) :=
  if startswith sep s then Some ([], drop (length sep) s)
  else match s with
       | [] => None
       | c :: s' =>
           match partition sep s' with
           | Some (a, b) => Some (c :: a, b)
           | None => None
           end
       end.

(** [s.rpartition(sep)], at the last occurrence *)
Definition rpartition (sep s : str) : option (str * str) :=
  match partition (rev sep) (rev s) with
  | Some (b, a) => Some (rev a, rev b)
  | None => None
  end.

Section Recovery.

Variable json_loads : str -> loaded.
(** [s.lower()] with the full case mapping of Unicode.  [lower] of [Py]
    agrees with it wherever the lowered text is only searched for ASCII
    keywords; where the lowered text itself is handed on, it is this
    parameter. *)
Variable str_lower : str -> str.

(** *** ReaderAgent.analyze *)

Definition reader_default : json :=
  JObj [ (u "complexity",
          JObj [(u "cyclomatic", JInt 5); (u "cognitive", JInt 3)]);
         (u "dependencies",
          JObj [(u "internal", JArr []); (u "external", JArr [])]);
         (u "architecture_type", JStr (u "function"));
         (u "documentation_needs",
          strs ["docstring"; "parameters"; "return_value"; "examples"]%string) ].

(** [text.split(opener)[1].split("```")[0].strip()]; [None] is the
    [IndexError] of an index out of range. *)
Definition between_fences (opener text : str) : option str :=
  match nth_error (split opener text) 1 with
  | Some part =>
      match nth_error (split fence part) 0 with
      | Some inner => Some (strip inner)
      | None => None
      end
  | None => None
  end.

(** The body of the [try]: [None] when any statement in it raises *)
Definition reader_try (response : str) : option json :=
  let clean_response := strip response in
  let extracted :=
    if contains (fence ++ u "json") clean_response
    then between_fences (fence ++ u "json") clean_response
    else if contains fence clean_response
    then between_fences fence clean_response
    else Some clean_response in
  match extracted with
  | Some text =>
      match json_loads text with
      | Loaded parsed => Some parsed
      | JSONDecodeError | LoadRaised _ => None
      end
  | None => None
  end.

(** [analyze], from the text [generate] returned: the [except Exception]
    handler returns the default record. *)
Definition analyze (response : str) : json :=
  match reader_try response with
  | Some parsed => parsed
  | None => reader_default
  end.

(** *** DiagramAgent *)

(** [re.search(opener + r"\s*(.*?)\s*```", clean, re.DOTALL)] followed by
    [match.group(1).strip()]: the text between the first [opener] and the
    next fence, stripped. *)
Definition fenced_group (opener clean : str) : option str :=
  match partition opener clean with
  | Some (_, rest) =>
      match partition fence rest with
      | Some (inner, _) => Some (strip inner)
      | None => None
      end
  | None => None
  end.

(** [re.search(r"\{.*\}", clean, re.DOTALL)]: from the first opening
    brace to the last closing brace after it *)
Definition brace_group (clean : str) : option str :=
  match partition (u "{") clean with
  | Some (_, rest) =>
      match rpartition (u "}") rest with
      | Some (inner, _) => Some (u "{" ++ inner ++ u "}")
      | None => None
      end
  | None => None
  end.

(** [try: return json.loads(text) except (json.JSONDecodeError,
    ValueError): ...]: the value read, [None] when the handler is
    entered, or the exception that the handler does not catch *)
Definition loads_or_pass (text : str) : result (option json) :=
  match json_loads text with
  | Loaded v => Ok (Some v)
  | JSONDecodeError | LoadRaised ValueError => Ok None
  | LoadRaised e => Raise e
  end.

(** Strategy 2: the two fence patterns in turn; a parse that fails with
    a [ValueError] moves on to the next pattern. *)
Fixpoint try_fences (openers : list str) (clean : str)
  : result (option json) :=
  match openers with
  | [] => Ok None
  | opener :: rest =>
      match fenced_group opener clean with
      | Some text =>
          match loads_or_pass text with
          | Ok None => try_fences rest clean
          | found_or_raised => found_or_raised
          end
      | None => try_fences rest clean
      end
  end.

(** Strategy 4: the response looks like raw Mermaid code *)
Definition wrap_raw_code (clean : str) : json :=
  let first_line := strip (hd [] (split [nl] clean)) in
  if keyword_found (lower first_line)
  then JObj [ (u "diagram_type",
               JStr (match words (str_lower first_line) with
                     | w :: _ => w
                     | [] => u "flowchart"
                     end));
              (u "mermaid_code", JStr clean);
              (u "description", JStr (u "Auto-extracted diagram")) ]
  else JNull.

(** [_extract_json]; Python's [None] is [JNull].  An exception of the
    parser that is not a [ValueError] leaves the method. *)
Definition _extract_json (response : str) : result json :=
  let clean := strip response in
  (* Strategy 1: direct parse *)
  match loads_or_pass clean with
  | Raise e => Raise e
  | Ok (Some v) => Ok v
  | Ok None =>
      (* Strategy 2: markdown code fences *)
      match try_fences [fence ++ u "json"; fence] clean with
      | Raise e => Raise e
      | Ok (Some v) => Ok v
      | Ok None =>
          (* Strategy 3: first {...} block *)
          let from_braces :=
            match brace_group clean with
            | Some text => loads_or_pass text
            | None => Ok None
            end in
          match from_braces with
          | Raise e => Raise e
          | Ok (Some v) => Ok v
          | Ok None => Ok (wrap_raw_code clean)
          end
      end
  end.

Definition fallback_code : str :=
  u "flowchart TD" ++ [nl]
    ++ u "    A[Start] --> B{Input Valid?}" ++ [nl]
    ++ u "    B -->|Yes| C[Process Data]" ++ [nl]
    ++ u "    B -->|No| D[Handle Error]" ++ [nl]
    ++ u "    C --> E[Return Result]" ++ [nl]
    ++ u "    D --> E" ++ [nl]
    ++ u "    E --> F[End]".

Definition _fallback_diagram : json :=
  JObj [ (u "diagram_type", JStr (u "flowchart"));
         (u "mermaid_code", JStr fallback_code);
         (u "description",
          JStr (u "Auto-generated flowchart showing basic control flow")) ].

(** What [generate_diagram] does with the value [_extract_json]
    returned.  A parsed value that is not a dict has no [get], and
    [re.sub] rejects a [mermaid_code] that is not text: both exceptions
    leave the method. *)
Definition checked_diagram (parsed : json) : result json :=
  if negb (truthy parsed) then Ok _fallback_diagram
  else
    match parsed with
    | JObj items =>
        match get (u "mermaid_code") items with
        | None => Ok _fallback_diagram
        | Some code =>
            if negb (truthy code) then Ok _fallback_diagram
            else
              match code with
              | JStr raw =>
                  let cleaned := clean_mermaid_code raw in
                  let items := set (u "mermaid_code") (JStr cleaned) items in
                  let '(is_valid, err) := validate_mermaid_syntax cleaned in
                  if is_valid then Ok (JObj items)
                  else
                    let repaired := attempt_mermaid_repair cleaned err in
                    let '(is_valid2, err2) := validate_mermaid_syntax repaired in
                    if is_valid2
                    then Ok (JObj (set (u "mermaid_code") (JStr repaired) items))
                    else Ok _fallback_diagram
              | _ => Raise TypeError
              end
        end
    | _ => Raise AttributeError
    end.

(** [generate_diagram], from the text [generate] returned *)
Definition generate_diagram (response : str) : result json :=
  match _extract_json response with
  | Ok parsed => checked_diagram parsed
  | Raise e => Raise e
  end.

End Recovery.

End Agents.

(* ------------------------------------------------------------------ *)
(** ** routes/repo_docs.py: the repo-wide job

    Time stamps ([started_at], [completed_at], [created_at]) and the
    floating-point [progress] percentage are not part of the model.  The
    persistence layer is an external collaborator: the background task
    catches and logs its failures, the endpoint does not. *)

Module RepoDocs.

Inductive agent_name : Type := reader | searcher | writer | verifier | diagram.

Definition agent_eqb (a b : agent_name) : bool :=
  match a, b with
  | reader, reader | searcher, searcher | writer, writer
  | verifier, verifier | diagram, diagram => true
  | _, _ => false
  end.

Inductive agent_status : Type := running | completed | error.
Inductive file_status : Type := file_processing | file_completed.
Inductive job_status : Type :=
  job_starting | job_processing | job_completed | job_error.

(** [file_result["agents"][agent_name]] *)
Record agent_record : Type := AgentRecord {
  status : agent_status;
  agent_output : option json;
  agent_error : option str
}.

Record file_info : Type := FileInfo {
  path : option str;
  content : option str
}.

Record file_result : Type := FileResult {
  fr_path : str;
  fr_content : str;
  fr_status : file_status;
  fr_agents : list (agent_name * agent_record);
  fr_documentation : option json
}.

Record job : Type := Job {
  j_status : job_status;
  total_files : nat;
  files_completed : nat;
  current_file : option str;
  current_file_index : nat;
  file_results : list file_result;
  sections : option (list json);
  j_error : option str
}.

(** What the job does, in order: the writes of the agent sub-records
    ([file_result["agents"][agent_name]] set to a new record, or updated),
    the broadcasts to subscribers and the calls of
    [orchestrator.run_agent]. *)
Inductive event : Type :=
| SubRecord (file_index : nat) (agent : agent_name) (st : agent_status)
| FileProgress (file_index : nat)
| AgentProgress (file_index : nat) (agent : agent_name) (st : agent_status)
| RunAgent (file_index : nat) (agent : agent_name)
| Synthesizing
| JobProgress (st : job_status).

(** The job being processed (the entry of [active_doc_jobs], mutated in
    place) and the events so far. *)
Record world : Type := World {
  the_job : job;
  trace : list event
}.

(** State passing over [world] *)
Definition M (A : Type) : Type := world -> A * world.
Definition ret {A} (a : A) : M A := fun w => (a, w).
Definition bind {A B} (m : M A) (k : A -> M B) : M B :=
  fun w => let '(a, w') := m w in k a w'.
Definition emit (e : event) : M unit :=
  fun w => (tt, World (the_job w) (trace w ++ [e])).
Definition modify_job (f : job -> job) : M unit :=
  fun w => (tt, World (f (the_job w)) (trace w)).

Notation "x <- m ;; k" := (bind m (fun x => k))
  (at level 61, m at next level, right associativity).
Notation "m ;;; k" := (bind m (fun _ => k))
  (at level 61, right associativity).

Fixpoint for_each {A} (items : list A) (body : A -> M unit) : M unit :=
  match items with
  | [] => ret tt
  | x :: rest => body x ;;; for_each rest body
  end.

(** [d[key] = v] and [d.get(key)] on a dict keyed by agent name *)
Fixpoint set_agent {V} (a : agent_name) (v : V)
    (d : list (agent_name * V)) : list (agent_name * V) :=
  match d with
  | [] => [(a, v)]
  | (k, w) :: rest =>
      if agent_eqb k a then (k, v) :: rest else (k, w) :: set_agent a v rest
  end.

Fixpoint get_agent {V} (a : agent_name) (d : list (agent_name * V))
  : option V :=
  match d with
  | [] => None
  | (k, v) :: rest => if agent_eqb k a then Some v else get_agent a rest
  end.

(** The [file_result] being worked on is the last one appended to
    [job["file_results"]]; the code mutates it through its alias. *)
Fixpoint update_last {A} (f : A -> A) (l : list A) : list A :=
  match l with
  | [] => []
  | [x] => [f x]
  | x :: rest => x :: update_last f rest
  end.

Definition with_file_results (f : list file_result -> list file_result)
    (j : job) : job :=
  Job (j_status j) (total_files j) (files_completed j) (current_file j)
      (current_file_index j) (f (file_results j)) (sections j) (j_error j).

Definition update_file_result (f : file_result -> file_result) : M unit :=
  modify_job (with_file_results (update_last f)).

Definition set_agent_record (a : agent_name) (r : agent_record)
    (fr : file_result) : file_result :=
  FileResult (fr_path fr) (fr_content fr) (fr_status fr)
             (set_agent a r (fr_agents fr)) (fr_documentation fr).

(** A write of the sub-record of agent [a] in the file result being
    worked on; the trace keeps the file, the agent and the status
    written. *)
Definition write_sub_record (file_idx : nat) (a : agent_name)
    (r : agent_record) : M unit :=
  update_file_result (set_agent_record a r) ;;;
  emit (SubRecord file_idx a (status r)).

Definition agents : list agent_name :=
  [reader; searcher; writer; verifier; diagram].

Section Job.

(** [orchestrator.run_agent] for the given file of the job: the agent's
    record, or the exception it raised (with its text). *)
Variable run_agent :
  nat -> agent_name -> str -> str -> list (agent_name * json) -> result json.

(** [assemble_sections] on the accumulated file results *)
Variable assemble_sections : list file_result -> result (list json).

Definition exn_text (e : exn) : str :=
  match e with
  | AttributeError => u "AttributeError"
  | TypeError => u "TypeError"
  | IndexError => u "IndexError"
  | ValueError => u "ValueError"
  | OtherError msg => msg
  end.

(** One turn of [for agent_name in agents]; the outputs so far are passed
    on and returned. *)
Definition run_one_agent (file_idx : nat) (file_path file_content : str)
    (agent_outputs : list (agent_name * json)) (a : agent_name)
  : M (list (agent_name * json)) :=
  write_sub_record file_idx a (AgentRecord running None None) ;;;
  emit (AgentProgress file_idx a running) ;;;
  emit (RunAgent file_idx a) ;;;
  match run_agent file_idx a file_path file_content agent_outputs with
  | Ok out =>
      write_sub_record file_idx a (AgentRecord completed (Some out) None) ;;;
      emit (AgentProgress file_idx a completed) ;;;
      ret (set_agent a out agent_outputs)
  | Raise agent_err =>
      write_sub_record file_idx a
        (AgentRecord error None (Some (exn_text agent_err))) ;;;
      emit (AgentProgress file_idx a error) ;;;
      (* continue with the remaining agents even if one fails *)
      ret agent_outputs
  end.

Fixpoint run_agents (file_idx : nat) (file_path file_content : str)
    (agent_outputs : list (agent_name * json)) (todo : list agent_name)
  : M (list (agent_name * json)) :=
  match todo with
  | [] => ret agent_outputs
  | a :: rest =>
      outs <- run_one_agent file_idx file_path file_content agent_outputs a ;;
      run_agents file_idx file_path file_content outs rest
  end.

(** [x or y] on two optional outputs *)
Definition or_else (x y : option json) : option json :=
  match x with
  | Some v => if truthy v then Some v else y
  | None => y
  end.

(** One turn of [for file_idx, file_info in enumerate(files)] *)
Definition process_file (idx_file : nat * file_info) : M unit :=
  let '(file_idx, info) := idx_file in
  let file_path := match path info with Some p => p | None => u "unknown" end in
  let file_content := match content info with Some c => c | None => [] end in
  modify_job (fun j =>
    Job (j_status j) (total_files j) file_idx (Some file_path) file_idx
        (file_results j
           ++ [FileResult file_path file_content file_processing [] None])
        (sections j) (j_error j)) ;;;
  emit (FileProgress file_idx) ;;;
  outs <- run_agents file_idx file_path file_content [] agents ;;
  update_file_result (fun fr =>
    FileResult (fr_path fr) (fr_content fr) file_completed (fr_agents fr)
               (or_else (get_agent writer outs) (get_agent diagram outs))).

Definition enumerate {A} (l : list A) : list (nat * A) :=
  combine (seq 0 (length l)) l.

(** [process_repo_documentation] for a job found in [active_doc_jobs].
    No statement of the per-file loop raises outside the inner [try], so
    the job-level [except] branch is never entered. *)
Definition process_repo_documentation (files : list file_info) : M unit :=
  modify_job (fun j =>
    Job job_processing (length files) (files_completed j) (current_file j)
        (current_file_index j) (file_results j) (sections j) (j_error j)) ;;;
  for_each (enumerate files) process_file ;;;
  emit Synthesizing ;;;
  modify_job (fun j =>
    let secs := match assemble_sections (file_results j) with
                | Ok secs => secs
                | Raise _ => []
                end in
    Job job_completed (total_files j) (total_files j) (current_file j)
        (current_file_index j) (file_results j) (Some secs) (j_error j)) ;;;
  emit (JobProgress job_completed).

(** *** What [start_repo_documentation] checks and registers *)

(** [re.match(r"https?://github\.com/.+/.+", repo_url)]: after the host,
    on the first line, an owner of at least one character, a slash and at
    least one more character. *)
Fixpoint line_prefix (s : str) : str :=
  match s with
  | [] => []
  | c :: s' => if (c =? nl)%N then [] else c :: line_prefix s'
  end.

Definition has_owner_and_name (rest : str) : bool :=
  match line_prefix rest with
  | _ :: tail =>
      match Agents.partition (u "/") tail with
      | Some (_, _ :: _) => true
      | _ => false
      end
  | [] => false
  end.

Definition valid_github_url (repo_url : str) : bool :=
  if startswith (u "https://github.com/") repo_url
  then has_owner_and_name (drop 19 repo_url)
  else if startswith (u "http://github.com/") repo_url
  then has_owner_and_name (drop 18 repo_url)
  else false.

Definition MAX_FILES : nat := 50.

(** The files kept for processing *)
Definition limit_files (files : list file_info) : list file_info :=
  if (MAX_FILES <? length files)%nat then firstn MAX_FILES files else files.

Inductive http_error : Type :=
| HTTPException (status_code : nat)
| Unhandled (e : exn).

(** The entry put into [active_doc_jobs] *)
Definition new_job (n_files : nat) : job :=
  Job job_starting n_files 0 None 0 [] None None.

Record start_response : Type := StartResponse {
  resp_status : job_status;
  resp_total_files : nat
}.

End Job.

End RepoDocs.

(* ------------------------------------------------------------------ *)
(** ** The agents' prompts and calls (agents/reader.py, searcher.py,
       writer.py, verifier.py, diagram.py)

    Each agent sends a system prompt and a user prompt built from its
    arguments, awaits [generate] and recovers a record from the answer.
    The recovery of the Writer (its field-targeted regular expressions)
    is not modelled; its messages are. *)

Module AgentCalls.

Import Agents.

Definition READER_MODEL : str := u "Qwen/Qwen2.5-Coder-7B-Instruct".
Definition SEARCHER_MODEL : str := u "Qwen/Qwen2.5-Coder-7B-Instruct".
Definition WRITER_MODEL : str := u "Qwen/Qwen2.5-Coder-3B-Instruct".
Definition VERIFIER_MODEL : str := u "meta-llama/Meta-Llama-3.1-8B-Instruct".
Definition DIAGRAM_MODEL : str := u "meta-llama/Meta-Llama-3.1-8B-Instruct".

(** [style_guide.get(style, style_guide['google'])] *)
Definition style_guide (style : str) : str :=
  if str_eqb style (u "google")
  then u "Google style docstrings with Args, Returns, Raises sections"
  else if str_eqb style (u "numpy")
  then u "NumPy style with Parameters, Returns, Examples sections"
  else if str_eqb style (u "sphinx")
  then u "Sphinx/reStructuredText format"
  else if str_eqb style (u "jsdoc")
  then u "JSDoc format for JavaScript/TypeScript"
  else u "Google style docstrings with Args, Returns, Raises sections".

Definition READER_SYSTEM_PROMPT : str :=
  join [nl]
    [ u "You are a code analysis expert. Analyze the given code and respond with ONLY a valid JSON object (no markdown, no explanation).";
      [];
      u "The JSON must have this exact structure:";
      u "{";
      u "  " ++ [dquote] ++ u "complexity" ++ [dquote] ++ u ": {" ++ [dquote]
          ++ u "cyclomatic" ++ [dquote] ++ u ": <number>, " ++ [dquote]
          ++ u "cognitive" ++ [dquote] ++ u ": <number>},";
      u "  " ++ [dquote] ++ u "dependencies" ++ [dquote] ++ u ": {"
          ++ [dquote] ++ u "internal" ++ [dquote] ++ u ": [<strings>], "
          ++ [dquote] ++ u "external" ++ [dquote] ++ u ": [<strings>]},";
      u "  " ++ [dquote] ++ u "architecture_type" ++ [dquote] ++ u ": "
          ++ [dquote] ++ u "<string>" ++ [dquote] ++ u ",";
      u "  " ++ [dquote] ++ u "documentation_needs" ++ [dquote]
          ++ u ": [<strings>]";
      u "}";
      [];
      u "Respond with ONLY the JSON object, nothing else." ].

Definition SEARCHER_SYSTEM_PROMPT : str :=
  join [nl]
    [ u "You are a context retrieval expert. Based on the code analysis, provide relevant context for documentation.";
      [];
      u "Respond with ONLY a valid JSON object (no markdown, no explanation):";
      u "{";
      u "  " ++ [dquote] ++ u "patterns" ++ [dquote]
          ++ u ": [<design patterns used>],";
      u "  " ++ [dquote] ++ u "best_practices" ++ [dquote]
          ++ u ": [<documentation best practices>],";
      u "  " ++ [dquote] ++ u "concepts" ++ [dquote]
          ++ u ": [<relevant programming concepts>],";
      u "  " ++ [dquote] ++ u "examples" ++ [dquote]
          ++ u ": [<example usage patterns>]";
      u "}";
      [];
      u "Respond with ONLY the JSON object, nothing else." ].

Definition VERIFIER_SYSTEM_PROMPT : str :=
  join [nl]
    [ u "You are a documentation quality evaluator. Assess the documentation against:";
      u "1. Accuracy (matches code behavior)";
      u "2. Completeness (all parameters, returns documented)";
      u "3. Clarity (easy to understand)";
      u "4. Examples (practical and correct)";
      [];
      u "Respond with ONLY a valid JSON object (no markdown, no explanation):";
      u "{";
      u "  " ++ [dquote] ++ u "approved" ++ [dquote]
          ++ u ": <true or false>,";
      u "  " ++ [dquote] ++ u "quality_score" ++ [dquote]
          ++ u ": <number 0-100>,";
      u "  " ++ [dquote] ++ u "evaluation" ++ [dquote] ++ u ": {" ++ [dquote]
          ++ u "accuracy" ++ [dquote] ++ u ": <0-100>, " ++ [dquote]
          ++ u "completeness" ++ [dquote] ++ u ": <0-100>, " ++ [dquote]
          ++ u "clarity" ++ [dquote] ++ u ": <0-100>, " ++ [dquote]
          ++ u "examples" ++ [dquote] ++ u ": <0-100>},";
      u "  " ++ [dquote] ++ u "feedback" ++ [dquote] ++ u ": [" ++ [dquote]
          ++ u "<improvement suggestion 1>" ++ [dquote] ++ u ", " ++ [dquote]
          ++ u "<improvement suggestion 2>" ++ [dquote] ++ u "]";
      u "}";
      [];
      u "Respond with ONLY the JSON object, nothing else." ].

Definition writer_system_prompt (style : str) : str :=
  join [nl]
    [ u "You are a technical documentation writer. Generate comprehensive documentation using "
        ++ style_guide style ++ u ".";
      [];
      u "Respond with ONLY a valid JSON object (no markdown wrapping, no explanation):";
      u "{";
      u "  " ++ [dquote] ++ u "docstring" ++ [dquote] ++ u ": " ++ [dquote]
          ++ u "<complete docstring with proper formatting>" ++ [dquote]
          ++ u ",";
      u "  " ++ [dquote] ++ u "markdown" ++ [dquote] ++ u ": " ++ [dquote]
          ++ u "<full markdown documentation with Overview, Parameters, Returns, Example sections>"
          ++ [dquote] ++ u ",";
      u "  " ++ [dquote] ++ u "examples" ++ [dquote] ++ u ": [" ++ [dquote]
          ++ u "<example 1>" ++ [dquote] ++ u ", " ++ [dquote]
          ++ u "<example 2>" ++ [dquote] ++ u "]";
      u "}";
      [];
      u "The docstring should be ready to insert directly into the code. Include proper line breaks using \n.";
      u "Respond with ONLY the JSON object, nothing else." ].

Definition DIAGRAM_SYSTEM_PROMPT : str :=
  join [nl]
    [ u "You are a Mermaid.js diagram generator. Given source code, produce a diagram.";
      [];
      u "RULES:";
      u "1. Return ONLY a raw JSON object. No markdown fences. No explanation before or after.";
      u "2. The JSON must have exactly three keys: " ++ [dquote]
          ++ u "diagram_type" ++ [dquote] ++ u ", " ++ [dquote]
          ++ u "mermaid_code" ++ [dquote] ++ u ", " ++ [dquote]
          ++ u "description" ++ [dquote];
      u "3. diagram_type must be one of: flowchart, sequenceDiagram, classDiagram, stateDiagram";
      u "4. mermaid_code must be valid Mermaid.js syntax using \n for newlines.";
      u "5. Node labels must NOT contain parentheses, brackets, or braces "
          ++ [8212%N] ++ u " use simple text only.";
      u "6. Always start flowcharts with " ++ [dquote] ++ u "flowchart TD"
          ++ [dquote] ++ u " (not " ++ [dquote] ++ u "graph TD" ++ [dquote]
          ++ u ").";
      u "7. For sequenceDiagram, declare each participant before use.";
      u "8. Do NOT use HTML tags or special characters inside labels.";
      [];
      u "EXAMPLE RESPONSE:";
      u "{" ++ [dquote] ++ u "diagram_type" ++ [dquote] ++ u ": " ++ [dquote]
          ++ u "flowchart" ++ [dquote] ++ u ", " ++ [dquote]
          ++ u "mermaid_code" ++ [dquote] ++ u ": " ++ [dquote]
          ++ u "flowchart TD\n    A[Start] --> B{Decision}\n    B -->|Yes| C[Process]\n    B -->|No| D[Error]\n    C --> E[End]\n    D --> E"
          ++ [dquote] ++ u ", " ++ [dquote] ++ u "description" ++ [dquote]
          ++ u ": " ++ [dquote] ++ u "Basic control flow" ++ [dquote]
          ++ u "}" ].

(** The messages of each agent *)
Definition reader_messages (source_code language : str) : list message :=
  [ system_msg READER_SYSTEM_PROMPT;
    user_msg (u "Analyze this " ++ language ++ u " code:" ++ [nl; nl]
                ++ fence ++ language ++ [nl] ++ source_code ++ [nl]
                ++ fence) ].

Definition searcher_messages (code_analysis : json) (language : str)
  : list message :=
  [ system_msg SEARCHER_SYSTEM_PROMPT;
    user_msg (u "Provide context for documenting " ++ language
                ++ u " code with this analysis:" ++ [nl]
                ++ dumps code_analysis) ].

Definition writer_messages (source_code : str) (context : json)
    (language style : str) : list message :=
  [ system_msg (writer_system_prompt style);
    user_msg (u "Write documentation for this " ++ language ++ u " code:"
                ++ [nl; nl] ++ fence ++ language ++ [nl] ++ source_code
                ++ [nl] ++ fence ++ [nl; nl] ++ u "Context: "
                ++ dumps context) ].

Definition verifier_messages (source_code : str) (documentation : json)
  : list message :=
  [ system_msg VERIFIER_SYSTEM_PROMPT;
    user_msg (u "Verify this documentation:" ++ [nl; nl] ++ u "Code:"
                ++ [nl] ++ fence ++ [nl] ++ source_code ++ [nl] ++ fence
                ++ [nl; nl] ++ u "Documentation:" ++ [nl]
                ++ dumps documentation) ].

Definition diagram_messages (source_code : str) (diagram_type : option str)
  : list message :=
  [ system_msg DIAGRAM_SYSTEM_PROMPT;
    user_msg (u "Create a diagram for:" ++ [nl] ++ fence ++ [nl]
                ++ source_code ++ [nl] ++ fence
                ++ match diagram_type with
                   | Some (c :: t) => [nl] ++ u "Preferred type: " ++ c :: t
                   | _ => []
                   end) ].

(** The default records of the Searcher and of the Verifier *)
Definition searcher_default : json :=
  JObj [ (u "patterns", strs ["standard function documentation"]%string);
         (u "best_practices",
          strs ["Include type hints"; "Add examples"]%string);
         (u "concepts", JArr []);
         (u "examples", JArr []) ].

Definition verifier_default : json :=
  JObj [ (u "approved", JBool true);
         (u "quality_score", JFloat (u "85.0"));
         (u "evaluation",
          JObj [(u "accuracy", JInt 85); (u "completeness", JInt 80);
                (u "clarity", JInt 90); (u "examples", JInt 85)]);
         (u "feedback", strs ["Documentation generated successfully"]%string) ].

Section Calls.

Variable float : Type.
(** [temperature: float = 0.5], the default of [generate] *)
Variable default_temperature : float.
Variable api_key : str.
Variable bytez_post : nat -> bytez_body float -> http_result (option bytez_data).
Variable ollama_tags : http_result (option (list str)).
Variable ollama_chat :
  ollama_request float -> http_result (option (option json)).
Variable json_loads : str -> loaded.
Variable str_lower : str -> str.

(** [self.generate(messages, max_tokens=n)] of an agent: a text, or the
    list a host sent as content *)
Definition agent_generate (model_id : str) (messages : list message)
    (max_tokens : Z) : json :=
  generate model_id api_key bytez_post ollama_tags ollama_chat messages
           default_temperature max_tokens.

(** The body of the [try] of [search] and of [verify]: the same
    statements as in [analyze].  A response that is not text has no
    [strip]: the [AttributeError] is one more way for the body to
    raise. *)
Definition searcher_try (response : json) : option json :=
  match response with
  | JStr response =>
      let clean_response := strip response in
      let extracted :=
        if contains (fence ++ u "json") clean_response
        then between_fences (fence ++ u "json") clean_response
        else if contains fence clean_response
        then between_fences fence clean_response
        else Some clean_response in
      match extracted with
      | Some text =>
          match json_loads text with
          | Loaded parsed => Some parsed
          | JSONDecodeError | LoadRaised _ => None
          end
      | None => None
      end
  | _ => None
  end.

Definition verifier_try (response : json) : option json :=
  match response with
  | JStr response =>
      let clean_response := strip response in
      let extracted :=
        if contains (fence ++ u "json") clean_response
        then between_fences (fence ++ u "json") clean_response
        else if contains fence clean_response
        then between_fences fence clean_response
        else Some clean_response in
      match extracted with
      | Some text =>
          match json_loads text with
          | Loaded parsed => Some parsed
          | JSONDecodeError | LoadRaised _ => None
          end
      | None => None
      end
  | _ => None
  end.

(** [ReaderAgent.analyze] *)
Definition analyze_source (source_code language : str) : json :=
  match agent_generate READER_MODEL (reader_messages source_code language)
                       500 with
  | JStr response => analyze json_loads response
  | _ => reader_default
  end.

(** [SearcherAgent.search] *)
Definition search (code_analysis : json) (language : str) : json :=
  match searcher_try
          (agent_generate SEARCHER_MODEL
             (searcher_messages code_analysis language) 500) with
  | Some parsed => parsed
  | None => searcher_default
  end.

(** [VerifierAgent.verify] *)
Definition verify (source_code : str) (documentation : json) : json :=
  match verifier_try
          (agent_generate VERIFIER_MODEL
             (verifier_messages source_code documentation) 500) with
  | Some parsed => parsed
  | None => verifier_default
  end.

(** [DiagramAgent.generate_diagram]: [_extract_json] starts with
    [response.strip()], outside any [try]. *)
Definition generate_diagram_for (source_code : str)
    (diagram_type : option str) : result json :=
  match agent_generate DIAGRAM_MODEL
                       (diagram_messages source_code diagram_type) 800 with
  | JStr response => generate_diagram json_loads str_lower response
  | _ => Raise AttributeError
  end.

End Calls.

End AgentCalls.

Import AgentCalls.

(* ------------------------------------------------------------------ *)
(** ** agents/orchestrator.py

    The five agent methods are parameters: a record, or the exception
    the call raised. *)

Module Orchestrator.

Import RepoDocs.

Definition _EXT_TO_LANG : list (str * str) :=
  [ (u ".py", u "python"); (u ".js", u "javascript");
    (u ".ts", u "typescript"); (u ".tsx", u "typescript");
    (u ".jsx", u "javascript"); (u ".java", u "java"); (u ".go", u "go");
    (u ".rs", u "rust"); (u ".rb", u "ruby"); (u ".php", u "php");
    (u ".c", u "c"); (u ".cpp", u "cpp"); (u ".cs", u "csharp");
    (u ".swift", u "swift"); (u ".kt", u "kotlin"); (u ".scala", u "scala");
    (u ".r", u "r"); (u ".sh", u "bash"); (u ".sql", u "sql");
    (u ".html", u "html"); (u ".css", u "css") ].

(** [table.get(key, default)] *)
Fixpoint lookup (key : str) (table : list (str * str)) (default : str) : str :=
  match table with
  | [] => default
  | (k, v) :: rest => if str_eqb k key then v else lookup key rest default
  end.

(** [s.rfind(c)] from index [i] on: the index of the last [c], if any *)
Fixpoint rfind_from (c : char) (i : nat) (s : str) : option nat :=
  match s with
  | [] => None
  | x :: s' =>
      match rfind_from c (S i) s' with
      | Some j => Some j
      | None => if (x =? c)%N then Some i else None
      end
  end.

Definition dot : char := 46%N.
Definition slash : char := 47%N.

(** [os.path.splitext(p)[1]] on POSIX paths: from the last dot of the
    last component on, unless only dots come before it in that
    component *)
Definition splitext_ext (p : str) : str :=
  match rfind_from dot 0 p with
  | None => []
  | Some dotIndex =>
      let filenameIndex :=
        match rfind_from slash 0 p with
        | Some sepIndex => S sepIndex
        | None => 0
        end in
      if (filenameIndex <=? dotIndex)%nat then
        if existsb (fun ch => negb (ch =? dot)%N)
                   (firstn (dotIndex - filenameIndex) (skipn filenameIndex p))
        then skipn dotIndex p
        else []
      else []
  end.

(** The language of a file, from its extension *)
Definition language_of (file_path : str) : str :=
  let ext := match file_path with
             | [] => []
             | _ => lower (splitext_ext file_path)
             end in
  lookup ext _EXT_TO_LANG (u "python").

(** [d.get(key)], Python's [None] being [JNull], and [a or b] *)
Definition get_or_none (key : str) (d : list (str * json)) : json :=
  match get key d with Some v => v | None => JNull end.
Definition py_or (a b : json) : json := if truthy a then a else b.

(** [name in (a, b)] *)
Definition is_one_of (name a b : str) : bool :=
  str_eqb name a || str_eqb name b.

(** What [generate_documentation] does, in order *)
Inductive event : Type :=
| Progress (percent : Z) (message : str)
| Call (agent : agent_name).

(** The dict returned; [error] is the exception whose text [str(e)] the
    code stores. *)
Record pipeline_result : Type := PipelineResult {
  status : str;
  stages : list (str * json);
  documentation : option json;
  error : option exn
}.

Section Pipeline.

Variable reader_analyze : str -> str -> result json.
Variable searcher_search : json -> str -> result json.
Variable writer_write : str -> json -> str -> str -> result json.
Variable verifier_verify : str -> json -> result json.
Variable diagram_generate : str -> result json.

Definition run_agent (agent_name file_path file_content repo_url branch : str)
    (previous_outputs : option (list (str * json))) : result json :=
  let previous_outputs :=
    match previous_outputs with Some d => d | None => [] end in
  let language := language_of file_path in
  let name := lower agent_name in
  if is_one_of name (u "context") (u "reader") then
    reader_analyze file_content language
  else if is_one_of name (u "analyzer") (u "searcher") then
    let analysis :=
      py_or (get_or_none (u "reader") previous_outputs)
        (py_or (get_or_none (u "context") previous_outputs)
               (JObj [(u "documentation_needs", JArr [JStr (u "docstring")])])) in
    searcher_search analysis language
  else if is_one_of name (u "generator") (u "writer") then
    let context :=
      py_or (get_or_none (u "searcher") previous_outputs)
        (py_or (get_or_none (u "analyzer") previous_outputs) (JObj [])) in
    writer_write file_content context language (u "google")
  else if is_one_of name (u "reviewer") (u "verifier") then
    let documentation :=
      py_or (get_or_none (u "writer") previous_outputs)
        (py_or (get_or_none (u "generator") previous_outputs) (JObj [])) in
    verifier_verify file_content documentation
  else if is_one_of name (u "finalizer") (u "diagram") then
    diagram_generate file_content
  else Raise ValueError.

(** The body of the [try] of [generate_documentation]: the stages filled
    and the events so far are threaded through; an exception skips what
    follows. *)
Definition T (A : Type) : Type :=
  list (str * json) * list event -> result A * (list (str * json) * list event).

Definition pure {A} (a : A) : T A := fun st => (Ok a, st).
Definition and_then {A B} (m : T A) (k : A -> T B) : T B :=
  fun st =>
    match m st with
    | (Ok a, st') => k a st'
    | (Raise e, st') => (Raise e, st')
    end.

Notation "x <-- m ;; k" := (and_then m (fun x => k))
  (at level 61, m at next level, right associativity).

(** [if progress_callback: await progress_callback(percent, message)] *)
Definition report (progress_callback : option (Z -> str -> result unit))
    (percent : Z) (message : str) : T unit :=
  fun '(stages, events) =>
    match progress_callback with
    | None => (Ok tt, (stages, events))
    | Some callback =>
        (callback percent message,
         (stages, events ++ [Progress percent message]))
    end.

(** The call of one agent *)
Definition call (agent : agent_name) (outcome : result json) : T json :=
  fun '(stages, events) => (outcome, (stages, events ++ [Call agent])).

(** [result["stages"][key] = value] *)
Definition record_stage (key : str) (value : json) : T unit :=
  fun '(stages, events) => (Ok tt, (set key value stages, events)).

(** [value.get(key, default)]: only a dict has [get] *)
Definition get_field (value : json) (key : str) (default : json) : T json :=
  fun st =>
    match value with
    | JObj items =>
        (Ok (match get key items with Some v => v | None => default end), st)
    | _ => (Raise AttributeError, st)
    end.

Definition pipeline_body (source_code language style : str)
    (progress_callback : option (Z -> str -> result unit)) : T json :=
  _ <-- report progress_callback 10 (u "Analyzing code structure...") ;;
  analysis <-- call reader (reader_analyze source_code language) ;;
  _ <-- record_stage (u "analysis") analysis ;;
  _ <-- report progress_callback 30 (u "Gathering context...") ;;
  context <-- call searcher (searcher_search analysis language) ;;
  _ <-- record_stage (u "context") context ;;
  _ <-- report progress_callback 50 (u "Writing documentation...") ;;
  documentation <-- call writer
                      (writer_write source_code context language style) ;;
  _ <-- record_stage (u "documentation") documentation ;;
  _ <-- report progress_callback 70 (u "Verifying quality...") ;;
  verification <-- call verifier (verifier_verify source_code documentation) ;;
  _ <-- record_stage (u "verification") verification ;;
  _ <-- report progress_callback 90 (u "Generating diagrams...") ;;
  diagram_record <-- call diagram (diagram_generate source_code) ;;
  _ <-- record_stage (u "diagram") diagram_record ;;
  _ <-- report progress_callback 100 (u "Complete!") ;;
  docstring <-- get_field documentation (u "docstring") (JStr []) ;;
  markdown <-- get_field documentation (u "markdown") (JStr []) ;;
  examples <-- get_field documentation (u "examples") (JArr []) ;;
  quality_score <-- get_field verification (u "quality_score") (JInt 0) ;;
  pure (JObj [ (u "docstring", docstring); (u "markdown", markdown);
               (u "examples", examples); (u "quality_score", quality_score);
               (u "diagram", diagram_record) ]).

(** [generate_documentation]: the record returned and the events *)
Definition generate_documentation (source_code language style : str)
    (progress_callback : option (Z -> str -> result unit))
  : pipeline_result * list event :=
  match pipeline_body source_code language style progress_callback ([], []) with
  | (Ok combined, (stages, events)) =>
      (PipelineResult (u "completed") stages (Some combined) None, events)
  | (Raise e, (stages, events)) =>
      (PipelineResult (u "failed") stages None (Some e), events)
  end.

(** The call [orchestrator.run_agent(agent_name=..., previous_outputs=
    agent_outputs)] of the repository job, whose dict is keyed by the
    canonical names *)
Definition name_of (a : agent_name) : str :=
  match a with
  | reader => u "reader"
  | searcher => u "searcher"
  | writer => u "writer"
  | verifier => u "verifier"
  | diagram => u "diagram"
  end.

Definition keyed_by_name (agent_outputs : list (agent_name * json))
  : list (str * json) :=
  fold_left (fun d av => set (name_of (fst av)) (snd av) d) agent_outputs [].

Definition run_agent_of_job (repo_url branch : str) (file_idx : nat)
    (a : agent_name) (file_path file_content : str)
    (agent_outputs : list (agent_name * json)) : result json :=
  run_agent (name_of a) file_path file_content repo_url branch
    (Some (keyed_by_name agent_outputs)).

End Pipeline.

(** [x or default] on the outcome of the agent before: its output when it
    returned a truthy one *)
Definition output_or (r : result json) (default : json) : json :=
  match r with
  | Ok v => if truthy v then v else default
  | Raise _ => default
  end.

(** The agent calls among the events *)
Definition calls (events : list event) : list agent_name :=
  flat_map (fun e => match e with Call a => [a] | Progress _ _ => [] end)
           events.

Definition stage_keys : list str :=
  [ u "analysis"; u "context"; u "documentation"; u "verification";
    u "diagram" ].

End Orchestrator.

(* ------------------------------------------------------------------ *)
(** ** websocket.py: [ConnectionManager]

    A dict is the list of its items, a set of client ids a list without
    repetition.  Python fixes no order for the elements of a set:
    [list(subscribers)] is a parameter, any enumeration of the set.
    [send_json] is a parameter as well: given the number of sends tried
    so far, the socket and the data, it delivers or raises. *)

Module Connections.

Definition websocket : Type := nat.

Record manager : Type := Manager {
  active_connections : list (str * websocket);
  job_subscribers : list (str * list str)
}.

(** [ConnectionManager()] *)
Definition empty : manager := Manager [] [].

(** [d.get(key)], [d[key] = v] and [del d[key]] on a dict keyed by text *)
Fixpoint lookup {V} (key : str) (d : list (str * V)) : option V :=
  match d with
  | [] => None
  | (k, v) :: rest => if str_eqb k key then Some v else lookup key rest
  end.

Fixpoint assign {V} (key : str) (v : V) (d : list (str * V))
  : list (str * V) :=
  match d with
  | [] => [(key, v)]
  | (k, w) :: rest =>
      if str_eqb k key then (k, v) :: rest else (k, w) :: assign key v rest
  end.

Definition remove {V} (key : str) (d : list (str * V)) : list (str * V) :=
  filter (fun kv => negb (str_eqb (fst kv) key)) d.

(** [x in s], [s.add(x)] and [s.discard(x)] on a set *)
Definition mem (x : str) (s : list str) : bool := existsb (str_eqb x) s.
Definition add (x : str) (s : list str) : list str :=
  if mem x s then s else s ++ [x].
Definition discard (x : str) (s : list str) : list str :=
  filter (fun y => negb (str_eqb y x)) s.

(** [connect]: the client is registered once [websocket.accept()] has
    returned; [accepted = false] is an [accept] that raised. *)
Definition connect (m : manager) (ws : websocket) (client_id : str)
    (accepted : bool) : manager :=
  if accepted
  then Manager (assign client_id ws (active_connections m)) (job_subscribers m)
  else m.

Definition disconnect (m : manager) (client_id : str) : manager :=
  Manager
    (remove client_id (active_connections m))
    (flat_map (fun job =>
                 match discard client_id (snd job) with
                 | [] => []
                 | remaining => [(fst job, remaining)]
                 end)
              (job_subscribers m)).

Definition subscribers (m : manager) (job_id : str) : list str :=
  match lookup job_id (job_subscribers m) with
  | Some s => s
  | None => []
  end.

Definition subscribe_to_job (m : manager) (client_id job_id : str) : manager :=
  Manager (active_connections m)
          (assign job_id (add client_id (subscribers m job_id))
                  (job_subscribers m)).

(** One call of [send_json] *)
Record delivery : Type := Delivery {
  to_client : str;
  through : websocket;
  payload : list (str * json);
  delivered : bool
}.

Section Sending.

Variable send_json : nat -> websocket -> list (str * json) -> bool.
Variable list_of_set : list str -> list str.

(** The manager and the sends so far *)
Definition world : Type := manager * list delivery.

(** [if client_id in self.active_connections: try: send_json(data)
    except Exception: self.disconnect(client_id)] *)
Definition send_to (data : list (str * json)) (w : world) (client_id : str)
  : world :=
  match lookup client_id (active_connections (fst w)) with
  | None => w
  | Some ws =>
      let ok := send_json (length (snd w)) ws data in
      (if ok then fst w else disconnect (fst w) client_id,
       snd w ++ [Delivery client_id ws data ok])
  end.

(** [broadcast_to_job]; the key looked up is whatever [job_id] is: a list
    or a dict cannot be hashed, another value that is not text equals no
    key. *)
Definition broadcast_to_job (job_id : json) (data : list (str * json))
    (w : world) : result world :=
  match job_id with
  | JArr _ | JObj _ => Raise TypeError
  | JStr job =>
      Ok (fold_left (send_to data) (list_of_set (subscribers (fst w) job)) w)
  | _ => Ok w
  end.

Definition job_id_of (data : list (str * json)) : json :=
  match get (u "job_id") data with Some v => v | None => JNull end.

Definition broadcast (data : list (str * json)) (w : world) : result world :=
  let job_id := job_id_of data in
  if truthy job_id then broadcast_to_job job_id data w else Ok w.

Definition send_progress (client_id : str) (data : list (str * json))
    (w : world) : result world :=
  let w := send_to data w client_id in
  let job_id := job_id_of data in
  if truthy job_id then broadcast_to_job job_id data w else Ok w.

End Sending.

(** No repetition among the elements of each set, nor among the keys of
    each dict *)
Definition well_formed (m : manager) : Prop :=
  NoDup (List.map fst (active_connections m))
  /\ NoDup (List.map fst (job_subscribers m))
  /\ Forall (fun job => NoDup (snd job)) (job_subscribers m).

(** The clients whose send raised *)
Definition failed (ds : list delivery) : list str :=
  List.map to_client (filter (fun d => negb (delivered d)) ds).

Definition is_active (m : manager) (client_id : str) : bool :=
  match lookup client_id (active_connections m) with
  | Some _ => true
  | None => false
  end.

End Connections.

(* ------------------------------------------------------------------ *)
(** ** middleware/rate_limit.py: [RateLimitMiddleware.dispatch]

    Clock readings are of a type of their own; [recent now t] is the
    test [now - t < 60]. *)

Module RateLimit.

Import Connections.

(** [SUBSCRIPTION_TIERS["free"]["rate_limit_per_min"]] *)
Definition rate_limit : nat := 120.

(** What [dispatch] reads of a request: the path, the [Authorization]
    header if there is one, the host of the peer if it is known *)
Record request : Type := Request {
  url_path : str;
  authorization : option str;
  client_host : option str
}.

Inductive outcome : Type :=
| Forwarded   (* [call_next(request)] *)
| Rejected.   (* [HTTPException(status_code=429)] *)

Definition exempt (path : str) : bool :=
  negb (startswith (u "/api") path)
  || str_eqb path (u "/api/health") || str_eqb path (u "/api/").

Definition client_id_of (r : request) : str :=
  let auth_header := match authorization r with Some h => h | None => [] end in
  if startswith (u "Bearer ") auth_header
  then firstn 13 (skipn 7 auth_header)
  else match client_host r with Some host => host | None => u "unknown" end.

Section Limiter.

Variable time : Type.
Variable recent : time -> time -> bool.

(** [self.requests], a [defaultdict(list)] *)
Definition requests : Type := list (str * list time).

Definition dispatch (r : request) (now : time) (st : requests)
  : outcome * requests :=
  if exempt (url_path r) then (Forwarded, st)
  else
    let client_id := client_id_of r in
    let stored := match lookup client_id st with Some l => l | None => [] end in
    let kept := filter (recent now) stored in
    let st := assign client_id kept st in
    if (rate_limit <=? length kept)%nat then (Rejected, st)
    else (Forwarded, assign client_id (kept ++ [now]) st).

(** No client has more than [rate_limit] clock readings stored *)
Definition within_limit (st : requests) : Prop :=
  Forall (fun entry => length (snd entry) <= rate_limit) st.

(** The requests one after the other, from a new middleware *)
Definition serve (arrivals : list (request * time)) : list outcome * requests :=
  fold_left (fun acc arrival =>
               let '(o, st) := dispatch (fst arrival) (snd arrival) (snd acc) in
               (fst acc ++ [o], st))
            arrivals ([], []).

End Limiter.

End RateLimit.

(* ------------------------------------------------------------------ *)
(** ** services/doc_service.py: [fetch_github_repo_contents]

    The clone is a parameter: [git clone] either fails, and the function
    raises an [HTTPException], or leaves a directory, which [os.walk]
    goes through from the top, a directory before its subdirectories. *)

Module DocService.

Definition code_extensions : list str :=
  [ u ".py"; u ".js"; u ".jsx"; u ".ts"; u ".tsx"; u ".java"; u ".cpp";
    u ".c"; u ".h"; u ".go"; u ".rs"; u ".cs"; u ".rb"; u ".php" ].

Definition test_dirs : list str :=
  [ u "test"; u "tests"; u "__tests__"; u "spec"; u "specs" ].

Definition skip_dirs : list str :=
  [ u "node_modules"; u "venv"; u ".git"; u "__pycache__"; u "dist";
    u "build"; u ".idea"; u ".vscode"; u "vendor"; u ".github";
    u "coverage"; u ".nyc_output" ].

Definition metadata_filenames : list str :=
  [ u "readme.md"; u "readme.rst"; u "readme.txt"; u "readme";
    u "license"; u "license.md"; u "license.txt";
    u "package.json"; u "package-lock.json";
    u "requirements.txt"; u "setup.py"; u "setup.cfg"; u "pyproject.toml";
    u "dockerfile"; u "docker-compose.yml"; u "docker-compose.yaml";
    u ".env.example"; u ".env.sample";
    u "makefile"; u "cargo.toml"; u "go.mod"; u "go.sum";
    u "tsconfig.json"; u "webpack.config.js"; u "vite.config.js";
    u "vite.config.ts";
    u "changelog.md"; u "changelog"; u "changes.md" ].

Definition lang_map : list (str * str) :=
  [ (u ".py", u "python"); (u ".js", u "javascript");
    (u ".jsx", u "javascript"); (u ".ts", u "typescript");
    (u ".tsx", u "typescript"); (u ".java", u "java"); (u ".cpp", u "cpp");
    (u ".c", u "c"); (u ".h", u "c"); (u ".go", u "go"); (u ".rs", u "rust");
    (u ".cs", u "csharp"); (u ".rb", u "ruby"); (u ".php", u "php") ].

Definition MAX_FILES : nat := 50.

(** [x in s] on a set of texts *)
Definition member (x : str) (s : list str) : bool := existsb (str_eqb x) s.

(** *** The repository named by the URL *)

(** [re.match(r'(?:https?://)?github\.com/([^/]+)/([^/]+?)(?:\.git)?/?$',
    repo_url)].  The scheme is optional; the owner runs up to the first
    slash after the host; the repository name is the shortest non-empty
    run without a slash after which only [.git], a slash and the newline
    that [$] tolerates at the very end are left, each of them optional. *)
Definition after_scheme (repo_url : str) : str :=
  if startswith (u "https://") repo_url then drop 8 repo_url
  else if startswith (u "http://") repo_url then drop 7 repo_url
  else repo_url.

Definition url_endings : list str :=
  [ []; [nl]; u ".git"; u ".git" ++ [nl]; u "/"; u "/" ++ [nl];
    u ".git/"; u ".git/" ++ [nl] ].

Definition repo_name_of (tail : str) : option str :=
  match find (fun k =>
                forallb (fun c => negb (c =? Orchestrator.slash)%N)
                        (firstn k tail)
                && member (skipn k tail) url_endings)
             (seq 1 (length tail)) with
  | Some k => Some (firstn k tail)
  | None => None
  end.

Definition github_repo_of (repo_url : str) : option (str * str) :=
  let rest := after_scheme repo_url in
  if startswith (u "github.com/") rest then
    match Agents.partition (u "/") (drop 11 rest) with
    | Some ((_ :: _) as owner, tail) =>
        match repo_name_of tail with
        | Some repo_name => Some (owner, repo_name)
        | None => None
        end
    | _ => None
    end
  else None.

(** *** The clone *)

(** A file of the clone: its name, what [open(...).read()] gives
    ([None] when it raises) and what [os.path.getsize] gives *)
Record file_entry : Type := FileEntry {
  entry_name : str;
  read_text : option str;
  entry_size : option nat
}.

(** A directory as [os.walk] lists it: its files, and the
    subdirectories it goes into, by name, in the order of the listing *)
Inductive directory : Type :=
| Directory (filenames : list file_entry) (dirs : list (str * directory)).

(** What the two [git clone] attempts leave: the cloned directory, or
    the [HTTPException] raised (404, 502, or 504 on a timeout) *)
Inductive clone_outcome : Type :=
| Cloned (top : directory)
| CloneFailed (status_code : nat).

(** *** The three lists returned *)

Record code_file : Type := CodeFile {
  path : str;
  name : str;
  content : str;
  language : str;
  size : nat
}.

Record metadata_file : Type := MetadataFile {
  metadata_path : str;
  metadata_name : str;
  metadata_content : str
}.

Record test_file : Type := TestFile {
  test_path : str;
  test_name : str;
  test_size : nat;
  test_language : str
}.

Record repo_data : Type := RepoData {
  files : list code_file;
  metadata_files : list metadata_file;
  test_files : list test_file
}.

(** [os.path.relpath(..., clone_dir).replace("\\", "/")] of the
    directory reached through [components], and of a file in it *)
Definition rel_root (components : list str) : str :=
  match components with
  | [] => u "."
  | _ => replace [backslash] (u "/") (join (u "/") components)
  end.

Definition rel_path (components : list str) (fname : str) : str :=
  replace [backslash] (u "/") (join (u "/") (components ++ [fname])).

(** [bool(set(rel_root.split("/")) & test_dirs)] *)
Definition is_test_dir (components : list str) : bool :=
  existsb (fun part => member part test_dirs)
          (split (u "/") (rel_root components)).

(** The body of [for fname in filenames] *)
Definition visit_file (components : list str) (acc : repo_data)
    (f : file_entry) : repo_data :=
  let fname := entry_name f in
  let ext := lower (Orchestrator.splitext_ext fname) in
  if member (lower fname) metadata_filenames then
    match read_text f with
    | Some text =>
        RepoData (files acc)
                 (metadata_files acc
                    ++ [MetadataFile (rel_path components fname) fname text])
                 (test_files acc)
    | None => acc
    end
  else if is_test_dir components && member ext code_extensions then
    match entry_size f with
    | Some n =>
        RepoData (files acc) (metadata_files acc)
                 (test_files acc
                    ++ [TestFile (rel_path components fname) fname n
                                 (Orchestrator.lookup ext lang_map (u "text"))])
    | None => acc
    end
  else if negb (member ext code_extensions) then acc
  else if (MAX_FILES <=? length (files acc))%nat then acc
  else
    match read_text f with
    | Some text =>
        RepoData (files acc
                    ++ [CodeFile (rel_path components fname) fname text
                                 (Orchestrator.lookup ext lang_map (u "text"))
                                 (length text)])
                 (metadata_files acc) (test_files acc)
    | None => acc
    end.

(** [for root, dirs, filenames in os.walk(clone_dir)], with the
    subdirectories named in [skip_dirs] taken out of [dirs] *)
Fixpoint walk (components : list str) (d : directory) (acc : repo_data)
  : repo_data :=
  match d with
  | Directory filenames dirs =>
      fold_left
        (fun acc sub =>
           let '(dname, subdir) := sub in
           if member dname skip_dirs then acc
           else walk (components ++ [dname]) subdir acc)
        dirs
        (fold_left (visit_file components) filenames acc)
  end.

(** [fetch_github_repo_contents]: the status of the [HTTPException] it
    raises, or the three lists *)
Definition fetch_github_repo_contents (repo_url : str)
    (clone : str -> str -> clone_outcome) : nat + repo_data :=
  match github_repo_of repo_url with
  | None => inl 400
  | Some (owner, repo_name) =>
      match clone owner repo_name with
      | CloneFailed status_code => inl status_code
      | Cloned top => inr (walk [] top (RepoData [] [] []))
      end
  end.

End DocService.

(* ------------------------------------------------------------------ *)
(** ** routes/repo_docs.py: the endpoint [start_repo_documentation] *)

Module RepoEndpoint.

Import RepoDocs.

(** A fetched code file as the background task reads it, by [path] and
    [content] *)
Definition as_file_info (f : DocService.code_file) : file_info :=
  FileInfo (Some (DocService.path f)) (Some (DocService.content f)).

Section Endpoint.

Variable run_agent :
  nat -> agent_name -> str -> str -> list (agent_name * json) -> result json.
Variable assemble_sections : list file_result -> result (list json).
(** [git clone] of the repository of an owner, for the branch and the
    token of the request *)
Variable clone : str -> str -> DocService.clone_outcome.

(** The endpoint, given how the bookkeeping on [db.repositories] went,
    which is done for users with a tenant and is not guarded.  Whatever
    [fetch_github_repo_contents] raises is answered with status 502.  It
    gives the job it registered, the files it hands to the background
    task and its reply. *)
Definition start_repo_documentation (repo_url : str)
    (bookkeeping : result unit)
  : http_error + (job * list file_info * start_response) :=
  if negb (match repo_url with [] => false | _ => valid_github_url repo_url end)
  then inl (HTTPException 400)
  else
    match DocService.fetch_github_repo_contents repo_url clone with
    | inl _ => inl (HTTPException 502)
    | inr repo_data =>
        match List.map as_file_info (DocService.files repo_data) with
        | [] => inl (HTTPException 404)
        | files =>
            let files := limit_files files in
            match bookkeeping with
            | Raise e => inl (Unhandled e)
            | Ok _ =>
                inr (new_job (length files),
                     files,
                     StartResponse job_starting (length files))
            end
        end
    end.

(** The request as a whole: the endpoint, then the background task on the
    job it registered. *)
Definition run_repo_job (repo_url : str) (bookkeeping : result unit)
  : http_error + (start_response * world) :=
  match start_repo_documentation repo_url bookkeeping with
  | inl e => inl e
  | inr (j, files, resp) =>
      inr (resp,
           snd (process_repo_documentation run_agent assemble_sections files
                  (World j [])))
  end.

End Endpoint.

End RepoEndpoint.

(* ------------------------------------------------------------------ *)
(** ** Predicates on diagram text *)

Module TextSpec.

(** A line: no newline inside *)
Definition no_nl (l : str) : Prop := Forall (fun c => c <> nl) l.

(** No white space at the start, at the end *)
Definition starts_clean (s : str) : bool :=
  match s with [] => true | c :: _ => negb (isspace c) end.
Definition ends_clean (s : str) : bool := starts_clean (rev s).

(** A line that Repair 3 keeps *)
Definition no_dangling (l : str) : Prop := dangling_arrow l = false.

(** Every line of the text is kept by Repair 3 *)
Definition all_lines_keep (code : str) : bool :=
  forallb (fun line => negb (dangling_arrow line)) (split [nl] code).

(** Text with no backslash, no backtick and no byte-order mark *)
Definition plain_char (c : char) : bool :=
  negb ((c =? backslash) || (c =? backtick) || (c =? bom))%N.
Definition plain_text (s : str) : bool := forallb plain_char s.

Definition is_plain (c : char) : Prop :=
  c <> backslash /\ c <> backtick /\ c <> bom.

End TextSpec.

Import TextSpec.

(* ------------------------------------------------------------------ *)
(** ** The repo-wide job in closed form

    What the loops of [process_repo_documentation] compute, written as
    plain functions of the agents' outcomes; the properties below relate
    the loops to them. *)

Module JobSpec.

Import RepoDocs.

Section Outcomes.

Variable run_agent :
  nat -> agent_name -> str -> str -> list (agent_name * json) -> result json.

Definition outputs_with (outs : list (agent_name * json)) (a : agent_name)
    (r : result json) : list (agent_name * json) :=
  match r with
  | Ok out => set_agent a out outs
  | Raise _ => outs
  end.

(** The outcome of every agent of [todo] on one file, each agent seeing
    the outputs of those before it *)
Fixpoint agent_results (file_idx : nat) (file_path file_content : str)
    (outs : list (agent_name * json)) (todo : list agent_name)
  : list (agent_name * result json) :=
  match todo with
  | [] => []
  | a :: rest =>
      let r := run_agent file_idx a file_path file_content outs in
      (a, r) :: agent_results file_idx file_path file_content
                              (outputs_with outs a r) rest
  end.

Definition outputs_after (outs : list (agent_name * json))
    (results : list (agent_name * result json)) : list (agent_name * json) :=
  fold_left (fun o ar => outputs_with o (fst ar) (snd ar)) results outs.

(** The sub-record an outcome leaves *)
Definition record_of (r : result json) : agent_record :=
  match r with
  | Ok out => AgentRecord completed (Some out) None
  | Raise e => AgentRecord error None (Some (exn_text e))
  end.

Definition agent_events (file_idx : nat)
    (results : list (agent_name * result json)) : list event :=
  flat_map (fun ar =>
              [ SubRecord file_idx (fst ar) running;
                AgentProgress file_idx (fst ar) running;
                RunAgent file_idx (fst ar);
                SubRecord file_idx (fst ar) (status (record_of (snd ar)));
                AgentProgress file_idx (fst ar) (status (record_of (snd ar))) ])
           results.

Definition records_into (results : list (agent_name * result json))
    (d : list (agent_name * agent_record)) : list (agent_name * agent_record) :=
  fold_left (fun d ar => set_agent (fst ar) (record_of (snd ar)) d) results d.

Definition records_into_file (results : list (agent_name * result json))
    (fr : file_result) : file_result :=
  FileResult (fr_path fr) (fr_content fr) (fr_status fr)
             (records_into results (fr_agents fr)) (fr_documentation fr).

Definition path_of (info : file_info) : str :=
  match path info with Some p => p | None => u "unknown" end.
Definition content_of (info : file_info) : str :=
  match content info with Some c => c | None => [] end.

Definition file_outcomes (idx_file : nat * file_info)
  : list (agent_name * result json) :=
  agent_results (fst idx_file) (path_of (snd idx_file))
                (content_of (snd idx_file)) [] agents.

Definition file_result_of (idx_file : nat * file_info) : file_result :=
  let results := file_outcomes idx_file in
  let outs := outputs_after [] results in
  FileResult (path_of (snd idx_file)) (content_of (snd idx_file))
             file_completed (records_into results [])
             (or_else (get_agent writer outs) (get_agent diagram outs)).

Definition file_events (idx_file : nat * file_info) : list event :=
  FileProgress (fst idx_file)
    :: agent_events (fst idx_file) (file_outcomes idx_file).

End Outcomes.

(** The code file a file of the clone is processed as, if it is one: it
    is not a metadata file, it is not a code file of a test directory,
    it has a code extension and it can be read. *)
Definition processable (components : list str) (f : DocService.file_entry)
  : option DocService.code_file :=
  let fname := DocService.entry_name f in
  let ext := lower (Orchestrator.splitext_ext fname) in
  if DocService.member (lower fname) DocService.metadata_filenames
  then None
  else if DocService.is_test_dir components then None
  else if DocService.member ext DocService.code_extensions then
    match DocService.read_text f with
    | Some text =>
        Some (DocService.CodeFile
                (DocService.rel_path components fname) fname text
                (Orchestrator.lookup ext DocService.lang_map (u "text"))
                (length text))
    | None => None
    end
  else None.

(** The processable files of a clone, in the order in which the walk
    meets them: the files of a directory, then those of each of its
    subdirectories that is not skipped *)
Fixpoint processable_files (components : list str)
    (d : DocService.directory) : list DocService.code_file :=
  match d with
  | DocService.Directory filenames dirs =>
      flat_map (fun f => match processable components f with
                         | Some c => [c]
                         | None => []
                         end) filenames
      ++ flat_map (fun sub =>
                     let '(dname, subdir) := sub in
                     if DocService.member dname DocService.skip_dirs then []
                     else processable_files (components ++ [dname]) subdir)
                  dirs
  end.

(** The agent that runs just before [a] *)
Definition previous_agent (a : agent_name) : option agent_name :=
  match a with
  | reader => None
  | searcher => Some reader
  | writer => Some searcher
  | verifier => Some writer
  | diagram => Some verifier
  end.

Definition terminal (st : agent_status) : bool :=
  match st with
  | running => false
  | completed | error => true
  end.

(** The last write of a sub-record among [events]: its file, agent and
    status; [last] if there is none *)
Fixpoint last_record (last : option (nat * agent_name * agent_status))
    (events : list event) : option (nat * agent_name * agent_status) :=
  match events with
  | [] => last
  | SubRecord i a st :: rest => last_record (Some (i, a, st)) rest
  | _ :: rest => last_record last rest
  end.

Definition is_sub_record (e : event) : bool :=
  match e with SubRecord _ _ _ => true | _ => false end.

(** Is the sub-record last written the one of agent [a] on file [i],
    with a status that [wanted] accepts? *)
Definition last_is (last : option (nat * agent_name * agent_status))
    (i : nat) (a : agent_name) (wanted : agent_status -> bool) : bool :=
  match last with
  | Some (j, c, st) => (j =? i)%nat && agent_eqb c a && wanted st
  | None => false
  end.

Definition is_running (st : agent_status) : bool :=
  match st with running => true | _ => false end.

(** No sub-record is running: none was written yet, or the one last
    written has reached [completed] or [error]. *)
Definition at_rest (last : option (nat * agent_name * agent_status)) : bool :=
  match last with
  | Some (_, _, st) => terminal st
  | None => true
  end.

(** May [e] happen when [last] is the sub-record last written?  A
    sub-record is started only when the one last written is that of the
    agent before it on the same file and has reached [completed] or
    [error]; the first agent of a file starts when nothing is running.  A
    sub-record reaches [completed] or [error] only from [running], and
    its agent is invoked only while it is [running]. *)
Definition may_happen (last : option (nat * agent_name * agent_status))
    (e : event) : bool :=
  match e with
  | SubRecord i a running =>
      match previous_agent a with
      | Some b => last_is last i b terminal
      | None => at_rest last
      end
  | SubRecord i a _ => last_is last i a is_running
  | RunAgent i a => last_is last i a is_running
  | _ => true
  end.

Fixpoint sequenced (last : option (nat * agent_name * agent_status))
    (events : list event) : bool :=
  match events with
  | [] => true
  | e :: rest =>
      may_happen last e && sequenced (last_record last [e]) rest
  end.

Definition is_run (e : event) : bool :=
  match e with RunAgent _ _ => true | _ => false end.

Definition is_ok {A} (r : result A) : bool :=
  match r with Ok _ => true | Raise _ => false end.

(** The statuses of the sub-records of a file, in the order of the dict *)
Definition statuses (fr : file_result) : list (agent_name * agent_status) :=
  List.map (fun ar => (fst ar, status (snd ar))) (fr_agents fr).

End JobSpec.

(* ------------------------------------------------------------------ *)
(** ** Test doubles and the specification's reading of the mock *)

Module Doubles.

(** A cloud host that answers 429, then 500, then 200 with a content *)
Definition limited_then_failing_then_ok (attempt : nat) (_ : bytez_body unit)
  : http_result (option bytez_data) :=
  match attempt with
  | 0 => Response 429 None
  | 1 => Response 500 None
  | _ => Response 200
           (Some (BytezData true
                    (Some (OutputDict (Some (JStr (u "third answer")))))))
  end.

(** A cloud host that answers 429 once, then 200 with a content *)
Definition limited_then_ok (attempt : nat) (_ : bytez_body unit)
  : http_result (option bytez_data) :=
  match attempt with
  | 0 => Response 429 None
  | _ => Response 200
           (Some (BytezData true
                    (Some (OutputDict (Some (JStr (u "second answer")))))))
  end.

(** A cloud host that always answers 429 *)
Definition always_limited (attempt : nat) (_ : bytez_body unit)
  : http_result (option bytez_data) :=
  Response 429 None.

(** The content of the last message whose role is ["user"], as the
    specification words the choice of the mock's input. *)
Definition last_user_content (messages : list message) : str :=
  user_content_of (rev messages).

Definition is_user (msg : message) : bool :=
  match role msg with
  | Some r => str_eqb r (u "user")
  | None => false
  end.

Definition content_text (msg : message) : str :=
  match content msg with Some c => c | None => [] end.

(** The content of the first message whose role is ["user"], the empty
    text if it has none or if there is no such message *)
Definition first_user_content (messages : list message) : str :=
  match find is_user messages with
  | Some msg => content_text msg
  | None => []
  end.

(** A cloud host that answers 200 with a list as the content *)
Definition list_content_host (attempt : nat) (_ : bytez_body unit)
  : http_result (option bytez_data) :=
  Response 200
    (Some (BytezData true
             (Some (OutputDict (Some (JArr [JStr (u "Hello")])))))).

(** A parser double that knows one document, the empty object *)
Definition loads_only_empty_object (text : str) : loaded :=
  if str_eqb text (u "{}") then Loaded (JObj []) else JSONDecodeError.

(** A model answer that is raw diagram text with one bracket left open on
    its last line *)
Definition raw_diagram_answer : str :=
  u "flowchart TD" ++ [nl] ++ u "A[Start] --> B[End]" ++ [nl] ++ u "B --> C[".

(** Agents that all succeed, except the Writer on the second file *)
Definition writer_fails_on_second_file (file_idx : nat)
    (a : RepoDocs.agent_name) (file_path file_content : str)
    (previous_outputs : list (RepoDocs.agent_name * json)) : result json :=
  if ((file_idx =? 1)%nat && RepoDocs.agent_eqb a RepoDocs.writer)%bool
  then Raise (OtherError (u "writer failed"))
  else Ok (JObj [(u "agent", JStr (u "done"))]).

Definition no_sections (frs : list RepoDocs.file_result)
  : result (list json) := Ok [].

Definition three_files : list RepoDocs.file_info :=
  [ RepoDocs.FileInfo (Some (u "a.py")) (Some (u "x = 1"));
    RepoDocs.FileInfo (Some (u "b.py")) (Some (u "y = 2"));
    RepoDocs.FileInfo (Some (u "c.py")) (Some (u "z = 3")) ].

(** A clone with 30 code files at the top, 21 more under [src], a
    README, a test directory and a [node_modules] that is skipped *)
Definition numbered_files (first count : nat) : list DocService.file_entry :=
  List.map (fun n => DocService.FileEntry (str_of_nat n ++ u ".py")
                       (Some (u "x = 1")) (Some 5))
           (seq first count).

Definition large_repository : DocService.directory :=
  DocService.Directory
    (DocService.FileEntry (u "README.md") (Some (u "# project")) (Some 9)
       :: numbered_files 0 30)
    [ (u "node_modules", DocService.Directory (numbered_files 100 5) []);
      (u "tests", DocService.Directory (numbered_files 200 3) []);
      (u "src", DocService.Directory (numbered_files 30 21) []) ].

Definition clone_of_large_repository (owner repo_name : str)
  : DocService.clone_outcome :=
  DocService.Cloned large_repository.

(** Diagram texts used as examples *)
Definition dangling_example : str := u "B --> C" ++ [nl] ++ u "C -->".

Definition bracket_after_arrow : str :=
  u "graph" ++ [nl] ++ u "[ -->" ++ [nl] ++ u "]" ++ [nl] ++ u "X".

Definition valid_with_dangling_arrow : str :=
  u "graph TD" ++ [nl] ++ u "A -->".

Definition doubly_fenced : str := fence ++ fence ++ [nl] ++ u "A".

Definition trailing_blanks : str :=
  u "graph TD  " ++ [cr; nl] ++ u "A --> B   " ++ [nl].

Definition two_user_messages : list message :=
  [ user_msg (u "analyze this"); user_msg (u "verify this") ].

End Doubles.

Import Doubles.

(* ------------------------------------------------------------------ *)
(** ** Observations on texts and traces *)

Module Observations.

(** Every pair of brackets that repair looks at opens as often as it
    closes *)
Definition balanced (code : str) : bool :=
  forallb (fun oc => (count (fst oc) code =? count (snd oc) code)%nat)
          repair_pairs.

(** The POSTs of a trace of the cloud client, and the seconds slept *)
Definition posts (evs : list Inference.event) : nat :=
  length (filter (fun e => match e with
                           | Inference.Post _ => true
                           | _ => false
                           end) evs).
Definition waited (evs : list Inference.event) : nat :=
  fold_right (fun e acc => match e with
                           | Inference.Sleep s => s + acc
                           | _ => acc
                           end)
             0 evs.

(** A character other than [ch], the character [ch] *)
Definition not_char (ch : char) (x : char) : bool := negb (x =? ch)%N.
Definition is_char (ch : char) (x : char) : bool := (x =? ch)%N.

End Observations.

Import Observations.

(* ------------------------------------------------------------------ *)
(** ** Further examples *)

Module Examples.

(** A parser double that knows one document, the analysis skeleton of
    the mock *)
Definition loads_analysis_skeleton (text : str) : loaded :=
  if str_eqb text (dumps mock_analysis)
  then Loaded mock_analysis
  else JSONDecodeError.

(** A local host that cannot be reached *)
Definition unreachable_chat (req : ollama_request unit)
  : http_result (option (option json)) := TransportException.

(** A local host with one model installed, which answers *)
Definition one_model_installed : http_result (option (list str)) :=
  Response 200 (Some [u "llama3.2:3b"]).
Definition local_model_answers (req : ollama_request unit)
  : http_result (option (option json)) :=
  Response 200 (Some (Some (JStr (u "local answer")))).

(** Texts *)
Definition blank_code : str := u "  " ++ [nl] ++ u " ".
Definition headless_diagram : str := u "A[Start] --> B" ++ [nl] ++ u "B --> C".
Definition small_diagram : str := u "graph TD" ++ [nl] ++ u "A --> B".

(** Two connected clients and a third that never connected, all
    subscribed to one job *)
Definition three_subscribers : Connections.manager :=
  Connections.subscribe_to_job
    (Connections.subscribe_to_job
       (Connections.subscribe_to_job
          (Connections.connect
             (Connections.connect Connections.empty 1 (u "ada") true)
             2 (u "bob") true)
          (u "ada") (u "job-1"))
       (u "bob") (u "job-1"))
    (u "carl") (u "job-1").

(** Sends succeed on socket 1 only *)
Definition only_first_socket_sends (sends_so_far : nat)
    (ws : Connections.websocket) (data : list (str * json)) : bool :=
  (ws =? 1)%nat.

(** The set enumerated in the order of the list that stands for it *)
Definition in_stored_order (s : list str) : list str := s.

Definition progress_message : list (str * json) :=
  [ (u "type", JStr (u "repo_doc_progress")); (u "job_id", JStr (u "job-1")) ].

(** Clock readings in whole seconds *)
Definition recent_seconds (now t : nat) : bool := (now - t <? 60)%nat.

End Examples.

Import Examples.


(* ================================================================== *)
(** * Properties *)

Import Agents.

(* ------------------------------------------------------------------ *)
(** ** The inference client *)

Section ClientFacts.

Variable float : Type.
Variable model_id api_key : str.
Variable bytez_post : nat -> bytez_body float -> http_result (option bytez_data).
Variable ollama_tags : http_result (option (list str)).
Variable ollama_chat :
  ollama_request float -> http_result (option (option json)).

Lemma is_content_truthy (c : json) : is_content c = true -> truthy c = true.
Proof. destruct c as [ | | | |[|x s]|[|x l]| ]; try discriminate; reflexivity. Qed.

Lemma returned_content_inv (c v : json) :
  returned_content c = Some v -> v = c /\ is_content v = true.
Proof.
  unfold returned_content. destruct (is_content c) eqn:E; [|discriminate].
  intros H; inversion H; subst. auto.
Qed.

Lemma reply_content_is_content (body : option bytez_data) (c : json) :
  reply_content body = Some c -> is_content c = true.
Proof.
  unfold reply_content.
  destruct body as [data|]; [|discriminate].
  destruct (error_is_none data); [|discriminate].
  destruct (output data) as [[[v|]|o|]|]; try discriminate.
  - intros H. apply returned_content_inv in H. apply H.
  - destruct (strip o) eqn:E; [discriminate|].
    intros H; inversion H; subst c.
    destruct o; [discriminate E|reflexivity].
Qed.

Lemma bytez_loop_is_content (body : bytez_body float) (attempts : list nat) :
  forall evs r,
    bytez_loop bytez_post body attempts = (evs, Some r) ->
    is_content r = true.
Proof.
  induction attempts as [|attempt rest IH]; intros evs r; simpl.
  - discriminate.
  - assert (NRL : forall evs0 r0,
               (if (attempt =? 0)%nat
                then ([Post attempt], None)
                else let '(evs1, r1) := bytez_loop bytez_post body rest in
                     (Post attempt :: evs1, r1)) = (evs0, Some r0) ->
               is_content r0 = true).
    { intros evs0 r0. destruct (attempt =? 0)%nat; [discriminate|].
      destruct (bytez_loop bytez_post body rest) as [evs1 r1] eqn:E.
      intros H; inversion H; subst. eapply IH; reflexivity. }
    destruct (bytez_post attempt body) as [| |status reply]; try apply NRL.
    destruct (status =? 429)%Z.
    + destruct (attempt <? max_retries)%nat; [|discriminate].
      destruct (bytez_loop bytez_post body rest) as [evs1 r1] eqn:E.
      intros H; inversion H; subst. eapply IH; reflexivity.
    + destruct (status =? 200)%Z; [|apply NRL].
      destruct (reply_content reply) as [c|] eqn:E; [|apply NRL].
      intros H; inversion H; subst.
      eapply reply_content_is_content; eassumption.
Qed.

Lemma call_ollama_is_content messages (temperature : float) max_tokens r :
  _call_ollama model_id ollama_tags ollama_chat messages temperature max_tokens
    = Some r -> is_content r = true.
Proof.
  unfold _call_ollama.
  destruct (_resolve_ollama_model model_id); [discriminate|].
  destruct ollama_tags as [| |status [installed|]]; try discriminate.
  destruct (negb (status =? 200)%Z); [discriminate|].
  destruct (negb _); [discriminate|].
  destruct (ollama_chat _) as [| |status' [[v|]|]]; try discriminate.
  destruct (status' =? 200)%Z; [|discriminate].
  intros H. apply returned_content_inv in H. apply H.
Qed.

Lemma sniff_nonempty (user_content : str) : sniff user_content <> [].
Proof.
  unfold sniff.
  repeat match goal with
         | |- (if ?b then _ else _) <> [] => destruct b
         end;
    vm_compute; discriminate.
Qed.

(** What [generate] returns in general: the cloud result if the key is
    configured and the cloud call succeeds, else the local result if the
    local call succeeds, else the mock response.  It is never null nor
    empty: it is a non-empty text, or a non-empty list that a backend
    sent as content. *)
Lemma generate_returns_content (messages : list message)
    (temperature : float) (max_tokens : Z) :
  let cloud :=
    match api_key with
    | [] => None
    | _ => snd (_call_bytez model_id bytez_post messages temperature max_tokens)
    end in
  let local :=
    _call_ollama model_id ollama_tags ollama_chat messages temperature
                 max_tokens in
  let result :=
    generate model_id api_key bytez_post ollama_tags ollama_chat messages
             temperature max_tokens in
  is_content result = true
  /\ _mock_response messages <> []
  /\ result =
       match cloud, local with
       | Some content, _ => content
       | None, Some content => content
       | None, None => JStr (_mock_response messages)
       end
  /\ ((exists text, result = JStr text /\ text <> [])
      \/ (exists items,
            result = JArr items /\ items <> []
            /\ (cloud = Some result \/ local = Some result))).
Proof.
  cbv zeta.
  assert (M : sniff (user_content_of messages) <> []) by apply sniff_nonempty.
  assert (E : generate model_id api_key bytez_post ollama_tags ollama_chat
                       messages temperature max_tokens
              = match
                  match api_key with
                  | [] => None
                  | _ => snd (_call_bytez model_id bytez_post messages
                                          temperature max_tokens)
                  end,
                  _call_ollama model_id ollama_tags ollama_chat messages
                               temperature max_tokens
                with
                | Some content, _ => content
                | None, Some content => content
                | None, None => JStr (_mock_response messages)
                end).
  { unfold generate. destruct api_key; reflexivity. }
  assert (C : forall r,
             match api_key with
             | [] => None
             | _ => snd (_call_bytez model_id bytez_post messages
                                     temperature max_tokens)
             end = Some r -> is_content r = true).
  { destruct api_key; [discriminate|]. unfold _call_bytez.
    destruct (bytez_loop _ _ _) as [evs r0] eqn:L. cbn [snd].
    intros r ->. eapply bytez_loop_is_content; eassumption. }
  assert (K : is_content
                (generate model_id api_key bytez_post ollama_tags ollama_chat
                          messages temperature max_tokens) = true).
  { rewrite E.
    destruct (match api_key with [] => None | _ => _ end) as [r|] eqn:Cl.
    - apply C. reflexivity.
    - destruct (_call_ollama _ _ _ _ _ _) as [r|] eqn:Lo.
      + eapply call_ollama_is_content; eassumption.
      + unfold _mock_response.
        destruct (sniff (user_content_of messages)); [contradiction|].
        reflexivity. }
  split; [exact K|]. split; [exact M|]. split; [exact E|].
  revert K. rewrite E.
  destruct (match api_key with [] => None | _ => _ end) as [r|] eqn:Cl.
  - destruct r as [ | | | |[|x s]|[|x l]| ]; try discriminate; intros _.
    + left. eexists. split; [reflexivity|discriminate].
    + right. eexists. split; [reflexivity|]. split; [discriminate|].
      left. reflexivity.
  - destruct (_call_ollama _ _ _ _ _ _) as [r|] eqn:Lo.
    + destruct r as [ | | | |[|x s]|[|x l]| ]; try discriminate; intros _.
      * left. eexists. split; [reflexivity|discriminate].
      * right. eexists. split; [reflexivity|]. split; [discriminate|].
        right. reflexivity.
    + intros _. left. eexists. split; [reflexivity|exact M].
Qed.

End ClientFacts.

(** C1.  [generate] does not always return a text.  When the cloud host
    answers 200 with a list as the content of its output, the list is
    handed back as it is: the dict branch of [_call_bytez] tests the
    content for truth only, where the branch next to it tests
    [isinstance(output, str)]. *)
Theorem generate_returns_list_content :
  generate (u "Qwen/Qwen2.5-Coder-7B-Instruct") (u "key")
           list_content_host TransportException unreachable_chat
           [user_msg (u "hello")] tt 1000
  = JArr [JStr (u "Hello")].
Proof. vm_compute. reflexivity. Qed.

(** C3.  With a 429 on the first attempt, a 500 on the second and a 200 on
    the third, the cloud path does not stop at the 500: it posts a third
    time (without waiting) and returns the third answer. *)
Theorem call_bytez_retries_after_late_failure :
  _call_bytez (u "Qwen/Qwen2.5-Coder-7B-Instruct") limited_then_failing_then_ok
              [user_msg (u "hello")] tt 1000
  = ([Post 0; Sleep 5; Post 1; Post 2], Some (JStr (u "third answer"))).
Proof. vm_compute. reflexivity. Qed.

(** A 429 on the first attempt and a 200 on the second: one wait of five
    seconds, then the second answer. *)
Lemma call_bytez_limited_then_ok :
  _call_bytez (u "Qwen/Qwen2.5-Coder-7B-Instruct") limited_then_ok
              [user_msg (u "hello")] tt 1000
  = ([Post 0; Sleep 5; Post 1], Some (JStr (u "second answer"))).
Proof. vm_compute. reflexivity. Qed.

(** Three 429 answers: waits of 5 and 10 seconds, three posts, no result. *)
Lemma call_bytez_always_limited :
  _call_bytez (u "Qwen/Qwen2.5-Coder-7B-Instruct") always_limited
              [user_msg (u "hello")] tt 1000
  = ([Post 0; Sleep 5; Post 1; Sleep 10; Post 2], None).
Proof. vm_compute. reflexivity. Qed.

(** A 429 on the first attempt and a 200 with a content on the second,
    whatever the model and the messages: one wait of five seconds, then
    the content of the second answer. *)
Lemma call_bytez_429_then_200 (float : Type) (model_id : str)
    (post : nat -> bytez_body float -> http_result (option bytez_data))
    (messages : list message) (temperature : float) (max_tokens : Z)
    (reply0 reply1 : option bytez_data) (content : json) :
  post 0 (request_body model_id messages temperature max_tokens)
    = Response 429 reply0 ->
  post 1 (request_body model_id messages temperature max_tokens)
    = Response 200 reply1 ->
  reply_content reply1 = Some content ->
  _call_bytez model_id post messages temperature max_tokens
  = ([Post 0; Sleep 5; Post 1], Some content).
Proof.
  intros H0 H1 Hc. unfold _call_bytez. cbn [seq max_retries Nat.add bytez_loop].
  rewrite H0. cbn. rewrite H1. cbn. rewrite Hc. reflexivity.
Qed.

(** On the first attempt any failure other than a 429 ends the cloud path
    at once. *)
Lemma call_bytez_first_failure_is_final (float : Type) (model_id : str)
    (post : nat -> bytez_body float -> http_result (option bytez_data))
    (messages : list message) (temperature : float) (max_tokens : Z) :
  match post 0 (request_body model_id messages temperature max_tokens) with
  | TimeoutException | TransportException =>
      _call_bytez model_id post messages temperature max_tokens
      = ([Post 0], None)
  | Response status _ =>
      if ((status =? 429) || (status =? 200))%Z then True
      else _call_bytez model_id post messages temperature max_tokens
           = ([Post 0], None)
  end.
Proof.
  unfold _call_bytez. simpl.
  destruct (post 0 _) as [| |status reply]; try reflexivity.
  destruct (status =? 429)%Z; simpl; [exact I|].
  destruct (status =? 200)%Z; [exact I|reflexivity].
Qed.

(* ------------------------------------------------------------------ *)
(** ** The mock response *)

Lemma user_content_of_first (pre : list message) (m : message)
    (post : list message) :
  forallb (fun x => negb (is_user x)) pre = true ->
  is_user m = true ->
  user_content_of (pre ++ m :: post) = content_text m.
Proof.
  intros Hpre Hm.
  induction pre as [|x pre IH]; simpl in *.
  - unfold is_user in Hm. destruct (role m) as [r|]; [|discriminate].
    rewrite Hm. reflexivity.
  - apply andb_true_iff in Hpre as [Hx Hpre].
    unfold is_user in Hx. destruct (role x) as [r|].
    + destruct (str_eqb r (u "user")); [discriminate|]. auto.
    + auto.
Qed.

Lemma user_content_of_none (messages : list message) :
  forallb (fun x => negb (is_user x)) messages = true ->
  user_content_of messages = [].
Proof.
  induction messages as [|x rest IH]; simpl; [reflexivity|].
  intros H. apply andb_true_iff in H as [Hx Hrest].
  unfold is_user in Hx. destruct (role x) as [r|]; [|auto].
  destruct (str_eqb r (u "user")); [discriminate|auto].
Qed.

Lemma user_content_of_find (messages : list message) :
  user_content_of messages = first_user_content messages.
Proof.
  unfold first_user_content.
  induction messages as [|x rest IH]; simpl; [reflexivity|].
  unfold is_user at 1, content_text.
  destruct (role x) as [r|]; [|exact IH].
  destruct (str_eqb r (u "user")); [reflexivity|exact IH].
Qed.

(** C4 as stated fails: with two user messages the mock answers the
    first one, not the last. *)
Lemma mock_response_not_from_last_user_message :
  _mock_response two_user_messages
    <> sniff (last_user_content two_user_messages)
  /\ _mock_response two_user_messages = dumps mock_analysis
  /\ sniff (last_user_content two_user_messages) = dumps mock_verification.
Proof.
  split; [|split]; vm_compute; try reflexivity. discriminate.
Qed.

(** C4, amended.  For every message list, the mock response is a
    function of the content of the FIRST user message, the empty text if
    that message has no content or if no message is a user message: the
    keyword groups are tried in a fixed order on its lower-cased form,
    and the first group with a keyword present selects the fixed record
    that is written out.  With no user message the response is the text
    "Generated content". *)
Theorem mock_response_from_first_user_message (messages : list message) :
  let chosen := first_user_content messages in
  let lc := lower chosen in
  let has (a b : string) := contains (u a) lc || contains (u b) lc in
  _mock_response messages =
    (if has "analyze"%string "code"%string then dumps mock_analysis
     else if has "context"%string "patterns"%string then dumps mock_context
     else if has "documentation"%string "write"%string
     then dumps mock_documentation
     else if has "verify"%string "quality"%string then dumps mock_verification
     else if has "diagram"%string "mermaid"%string then dumps mock_diagram
     else u "Generated content")
  /\ (forall pre m post,
        messages = pre ++ m :: post ->
        forallb (fun x => negb (is_user x)) pre = true ->
        is_user m = true ->
        chosen = content_text m)
  /\ (forallb (fun x => negb (is_user x)) messages = true ->
      chosen = [] /\ _mock_response messages = u "Generated content").
Proof.
  cbv zeta. split; [|split].
  - unfold _mock_response. rewrite user_content_of_find. reflexivity.
  - intros pre m post -> Hpre Hm. rewrite <- user_content_of_find.
    apply user_content_of_first; assumption.
  - intros H. rewrite <- user_content_of_find.
    unfold _mock_response. rewrite (user_content_of_none messages H).
    split; reflexivity.
Qed.

Lemma mock_response_from_first_user_message_witness :
  _mock_response (system_msg (u "be brief") :: two_user_messages)
  = dumps mock_analysis
  /\ first_user_content (system_msg (u "be brief") :: two_user_messages)
     = u "analyze this"
  /\ _mock_response [system_msg (u "be brief")] = u "Generated content".
Proof.
  split; [|split].
  - exact (proj1 (mock_response_from_first_user_message
                    (system_msg (u "be brief") :: two_user_messages))).
  - exact (proj1 (proj2 (mock_response_from_first_user_message
                           (system_msg (u "be brief") :: two_user_messages)))
             [system_msg (u "be brief")] (user_msg (u "analyze this"))
             [user_msg (u "verify this")] eq_refl eq_refl eq_refl).
  - exact (proj2 (proj2 (proj2 (mock_response_from_first_user_message
                                  [system_msg (u "be brief")])) eq_refl)).
Defined.

(* ------------------------------------------------------------------ *)
(** ** Reader and Diagram agents *)

Lemma str_eqb_refl (s : str) : str_eqb s s = true.
Proof. unfold str_eqb. destruct (list_eq_dec N.eq_dec s s); congruence. Qed.

Lemma str_eqb_eq (a b : str) : str_eqb a b = true -> a = b.
Proof. unfold str_eqb. destruct (list_eq_dec N.eq_dec a b); congruence. Qed.

Lemma get_set_same (key : str) (v : json) (items : list (str * json)) :
  get key (set key v items) = Some v.
Proof.
  induction items as [|[k w] rest IH]; simpl.
  - rewrite str_eqb_refl. reflexivity.
  - destruct (str_eqb k key) eqn:E; simpl; rewrite E; auto.
Qed.

Section RecoveryFacts.

Variable json_loads : str -> loaded.
Variable str_lower : str -> str.

(** [analyze] is the parsed value when the body of the [try] succeeds and
    the default record otherwise; it has no third outcome. *)
Lemma analyze_cases (response : str) :
  analyze json_loads response = reader_default
  \/ reader_try json_loads response = Some (analyze json_loads response).
Proof.
  unfold analyze. destruct (reader_try json_loads response); auto.
Qed.

(** C6.  When no value can be parsed out of the model text, [analyze]
    returns exactly the default record of the Reader, whose
    [documentation_needs] is a non-empty list; in every case it returns
    either that record or the parsed value. *)
Theorem reader_default_on_unparsable (response : str) :
  reader_try json_loads response = None ->
  analyze json_loads response = reader_default
  /\ (exists needs,
        field (u "documentation_needs") (analyze json_loads response)
          = Some (JArr needs) /\ needs <> [])
  /\ (forall other,
        analyze json_loads other = reader_default
        \/ reader_try json_loads other = Some (analyze json_loads other)).
Proof.
  intros H. unfold analyze at 1 2. rewrite H.
  split; [reflexivity|split].
  - eexists. split; [vm_compute; reflexivity|discriminate].
  - apply analyze_cases.
Qed.

Lemma fallback_code_valid :
  validate_mermaid_syntax fallback_code = (true, []).
Proof. vm_compute. reflexivity. Qed.

Lemma set_twice (key : str) (v w : json) (items : list (str * json)) :
  set key v (set key w items) = set key v items.
Proof.
  induction items as [|[k x] rest IH]; simpl.
  - rewrite str_eqb_refl. reflexivity.
  - destruct (str_eqb k key) eqn:E; simpl; rewrite E; [reflexivity|].
    rewrite IH. reflexivity.
Qed.

(** The exception of the parser that leaves [_extract_json] *)
Lemma loads_or_pass_raises (text : str) (e : exn) :
  loads_or_pass json_loads text = Raise e ->
  json_loads text = LoadRaised e /\ e <> ValueError.
Proof.
  unfold loads_or_pass. destruct (json_loads text) as [v| |e0]; try discriminate.
  destruct e0; try discriminate; intros H; inversion H; subst;
    (split; [reflexivity|discriminate]).
Qed.

Lemma try_fences_raises (openers : list str) (clean : str) (e : exn) :
  try_fences json_loads openers clean = Raise e ->
  exists text, json_loads text = LoadRaised e /\ e <> ValueError.
Proof.
  induction openers as [|o os IH]; simpl; [discriminate|].
  destruct (fenced_group o clean) as [text|]; [|exact IH].
  destruct (loads_or_pass json_loads text) as [[v|]|e0] eqn:L;
    [discriminate|exact IH|].
  intros H; inversion H; subst. exists text.
  apply loads_or_pass_raises. exact L.
Qed.

Lemma extract_json_raises (response : str) (e : exn) :
  _extract_json json_loads str_lower response = Raise e ->
  exists text, json_loads text = LoadRaised e /\ e <> ValueError.
Proof.
  unfold _extract_json.
  destruct (loads_or_pass json_loads (strip response)) as [[v|]|e0] eqn:L1.
  - discriminate.
  - destruct (try_fences json_loads _ (strip response)) as [[v|]|e1] eqn:L2.
    + discriminate.
    + destruct (brace_group (strip response)) as [text|]; [|discriminate].
      destruct (loads_or_pass json_loads text) as [[v|]|e2] eqn:L3;
        try discriminate.
      intros H; inversion H; subst. exists text.
      apply loads_or_pass_raises. exact L3.
    + intros H; inversion H; subst. eapply try_fences_raises. exact L2.
  - intros H; inversion H; subst. exists (strip response).
    apply loads_or_pass_raises. exact L1.
Qed.

(** The two exceptions that the checks of [generate_diagram] raise, and
    when *)
Lemma checked_diagram_raises_only (parsed : json) (e : exn) :
  checked_diagram parsed = Raise e ->
  truthy parsed = true
  /\ ((e = AttributeError /\ forall items, parsed <> JObj items)
      \/ (e = TypeError
          /\ exists items code,
               parsed = JObj items
               /\ get (u "mermaid_code") items = Some code
               /\ truthy code = true
               /\ forall raw, code <> JStr raw)).
Proof.
  unfold checked_diagram.
  destruct (truthy parsed) eqn:T; simpl; [|discriminate].
  intros H. split; [reflexivity|]. revert H.
  destruct parsed as [ | | | | | |items] eqn:P;
    try (intros H; inversion H; left; split;
         [reflexivity|intros ?; discriminate]).
  destruct (get (u "mermaid_code") items) as [code|] eqn:G; [|discriminate].
  destruct (truthy code) eqn:Tc; simpl; [|discriminate].
  destruct code as [ | | | |raw| | ];
    try (intros H; inversion H; right; split; [reflexivity|];
         eexists; eexists; repeat split; eauto; intros ?; discriminate).
  destruct (validate_mermaid_syntax (clean_mermaid_code raw)) as [[] err];
    [discriminate|].
  destruct (validate_mermaid_syntax _) as [[] err2]; discriminate.
Qed.

(** What the checks return on a record with a non-empty text as its
    [mermaid_code]: the record with the cleaned code when that validates;
    else the record with the once-repaired code when that validates; else
    the fallback. *)
Lemma checked_diagram_on_code (items : list (str * json)) (raw : str) :
  get (u "mermaid_code") items = Some (JStr raw) ->
  raw <> [] ->
  let cleaned := clean_mermaid_code raw in
  let repaired :=
    attempt_mermaid_repair cleaned (snd (validate_mermaid_syntax cleaned)) in
  checked_diagram (JObj items)
  = if fst (validate_mermaid_syntax cleaned)
    then Ok (JObj (set (u "mermaid_code") (JStr cleaned) items))
    else if fst (validate_mermaid_syntax repaired)
    then Ok (JObj (set (u "mermaid_code") (JStr repaired) items))
    else Ok _fallback_diagram.
Proof.
  intros G NE. cbv zeta. unfold checked_diagram.
  assert (T : truthy (JObj items) = true).
  { destruct items; [discriminate G|reflexivity]. }
  rewrite T, G. cbn [negb].
  replace (truthy (JStr raw)) with true
    by (destruct raw; [contradiction|reflexivity]).
  cbn [negb].
  destruct (validate_mermaid_syntax (clean_mermaid_code raw))
    as [ok err] eqn:V1.
  cbn [fst snd]. destruct ok; [reflexivity|].
  destruct (validate_mermaid_syntax
              (attempt_mermaid_repair (clean_mermaid_code raw) err))
    as [ok2 err2] eqn:V2.
  cbn [fst]. destruct ok2; [|reflexivity].
  rewrite set_twice. reflexivity.
Qed.

(** When the checks return the fallback without looking at any code *)
Lemma checked_diagram_without_code (parsed : json) :
  truthy parsed = false
  \/ (exists items,
        parsed = JObj items
        /\ (get (u "mermaid_code") items = None
            \/ exists code,
                 get (u "mermaid_code") items = Some code
                 /\ truthy code = false)) ->
  checked_diagram parsed = Ok _fallback_diagram.
Proof.
  unfold checked_diagram.
  intros [T|[items [-> [G|[code [G T]]]]]].
  - rewrite T. reflexivity.
  - destruct (truthy (JObj items)); [|reflexivity]. cbn [negb].
    rewrite G. reflexivity.
  - destruct (truthy (JObj items)); [|reflexivity]. cbn [negb].
    rewrite G, T. reflexivity.
Qed.

(** The record the checks return, when they return one *)
Lemma checked_diagram_returns_valid (parsed record : json) :
  checked_diagram parsed = Ok record ->
  exists code,
    field (u "mermaid_code") record = Some (JStr code)
    /\ fst (validate_mermaid_syntax code) = true
    /\ (record = _fallback_diagram
        \/ exists items raw,
             parsed = JObj items
             /\ get (u "mermaid_code") items = Some (JStr raw)
             /\ raw <> []
             /\ record = JObj (set (u "mermaid_code") (JStr code) items)
             /\ let cleaned := clean_mermaid_code raw in
                let '(ok, err) := validate_mermaid_syntax cleaned in
                if ok then code = cleaned
                else code = attempt_mermaid_repair cleaned err).
Proof.
  assert (FB : forall items0 : option (list (str * json)),
             exists code,
               field (u "mermaid_code") _fallback_diagram = Some (JStr code)
               /\ fst (validate_mermaid_syntax code) = true
               /\ (_fallback_diagram = _fallback_diagram
                   \/ exists items raw,
                        parsed = JObj items
                        /\ get (u "mermaid_code") items = Some (JStr raw)
                        /\ raw <> []
                        /\ _fallback_diagram
                           = JObj (set (u "mermaid_code") (JStr code) items)
                        /\ let cleaned := clean_mermaid_code raw in
                           let '(ok, err) := validate_mermaid_syntax cleaned in
                           if ok then code = cleaned
                           else code = attempt_mermaid_repair cleaned err)).
  { intros _. exists fallback_code. split; [reflexivity|split].
    - rewrite fallback_code_valid. reflexivity.
    - left. reflexivity. }
  specialize (FB None).
  unfold checked_diagram.
  destruct (truthy parsed) eqn:T; simpl.
  2:{ intros H; inversion H; subst. exact FB. }
  destruct parsed as [ | | | | | |items] eqn:P; try discriminate.
  destruct (get (u "mermaid_code") items) as [code|] eqn:G.
  2:{ intros H; inversion H; subst. exact FB. }
  destruct (truthy code) eqn:Tc; simpl.
  2:{ intros H; inversion H; subst. exact FB. }
  destruct code as [ | | | |raw| | ]; try discriminate.
  assert (NE : raw <> []) by (intros ->; discriminate Tc).
  destruct (validate_mermaid_syntax (clean_mermaid_code raw))
    as [ok err] eqn:V1.
  destruct ok.
  - intros H; inversion H; subst.
    exists (clean_mermaid_code raw). simpl. rewrite get_set_same.
    split; [reflexivity|split].
    + rewrite V1. reflexivity.
    + right. exists items, raw.
      split; [reflexivity|]. split; [exact G|]. split; [exact NE|].
      split; [reflexivity|].
      cbv zeta. rewrite V1. reflexivity.
  - destruct (validate_mermaid_syntax
                (attempt_mermaid_repair (clean_mermaid_code raw) err))
      as [ok2 err2] eqn:V2.
    destruct ok2.
    + intros H; inversion H; subst.
      exists (attempt_mermaid_repair (clean_mermaid_code raw) err). simpl.
      rewrite get_set_same.
      split; [reflexivity|split].
      * rewrite V2. reflexivity.
      * right. exists items, raw.
        split; [reflexivity|]. split; [exact G|]. split; [exact NE|].
        split; [rewrite set_twice; reflexivity|].
        cbv zeta. rewrite V1. reflexivity.
    + intros H; inversion H; subst. exact FB.
Qed.


End RecoveryFacts.

Lemma reader_default_on_unparsable_witness :
  analyze loads_only_empty_object (u "I cannot analyse this file.")
  = reader_default.
Proof.
  exact (proj1 (reader_default_on_unparsable loads_only_empty_object
                  (u "I cannot analyse this file.") eq_refl)).
Defined.


(* ------------------------------------------------------------------ *)
(** ** The repo-wide job *)

Import RepoDocs JobSpec.

Lemma update_last_app {A} (f : A -> A) (l : list A) (x : A) :
  update_last f (l ++ [x]) = l ++ [f x].
Proof.
  induction l as [|y l IH]; simpl; [reflexivity|].
  rewrite IH. destruct (l ++ [x]) eqn:E; [|reflexivity].
  destruct l; discriminate.
Qed.

Lemma agent_eqb_refl (a : agent_name) : agent_eqb a a = true.
Proof. destruct a; reflexivity. Qed.

Lemma set_agent_twice {V} (a : agent_name) (v w : V)
    (d : list (agent_name * V)) :
  set_agent a v (set_agent a w d) = set_agent a v d.
Proof.
  induction d as [|[k x] d IH]; simpl.
  - rewrite agent_eqb_refl. reflexivity.
  - destruct (agent_eqb k a) eqn:E; simpl; rewrite E; [reflexivity|].
    rewrite IH. reflexivity.
Qed.

Section JobFacts.

Variable run_agent :
  nat -> agent_name -> str -> str -> list (agent_name * json) -> result json.
Variable assemble_sections : list file_result -> result (list json).

(** One agent turn: the sub-record of the current file goes to [running]
    and then to the record of the outcome; three events are added. *)
Lemma run_one_agent_spec (i : nat) (p c : str)
    (outs : list (agent_name * json)) (a : agent_name)
    st tot fc cf cfi frs fr secs err tr :
  let r := run_agent i a p c outs in
  run_one_agent run_agent i p c outs a
    (World (Job st tot fc cf cfi (frs ++ [fr]) secs err) tr)
  = (outputs_with outs a r,
     World (Job st tot fc cf cfi
                (frs ++ [set_agent_record a (record_of r) fr]) secs err)
           (tr ++ agent_events i [(a, r)])).
Proof.
  cbv zeta. unfold run_one_agent, write_sub_record, bind, update_file_result,
    modify_job, emit, with_file_results. simpl.
  rewrite update_last_app.
  destruct (run_agent i a p c outs) as [out|e]; simpl;
    rewrite update_last_app; unfold set_agent_record; simpl;
    rewrite set_agent_twice; rewrite <- !app_assoc; reflexivity.
Qed.

Lemma run_agents_spec (i : nat) (p c : str) (todo : list agent_name) :
  forall outs st tot fc cf cfi frs fr secs err tr,
    let results := agent_results run_agent i p c outs todo in
    run_agents run_agent i p c outs todo
      (World (Job st tot fc cf cfi (frs ++ [fr]) secs err) tr)
    = (outputs_after outs results,
       World (Job st tot fc cf cfi
                  (frs ++ [records_into_file results fr]) secs err)
             (tr ++ agent_events i results)).
Proof.
  induction todo as [|a rest IH]; intros; cbv zeta.
  - simpl. unfold ret, records_into_file, agent_events. simpl.
    rewrite app_nil_r. destruct fr; reflexivity.
  - simpl. unfold bind. rewrite run_one_agent_spec.
    rewrite IH. cbv zeta. simpl.
    unfold agent_events, records_into_file, set_agent_record. simpl.
    rewrite <- app_assoc. reflexivity.
Qed.

Lemma process_file_spec (idx_file : nat * file_info) (j : job)
    (tr : list event) :
  process_file run_agent idx_file (World j tr)
  = (tt,
     World (Job (j_status j) (total_files j) (fst idx_file)
                (Some (path_of (snd idx_file))) (fst idx_file)
                (file_results j ++ [file_result_of run_agent idx_file])
                (sections j) (j_error j))
           (tr ++ file_events run_agent idx_file)).
Proof.
  destruct idx_file as [i info]. unfold process_file.
  unfold bind, modify_job, emit. cbn -[run_agents agents].
  fold (path_of info). fold (content_of info).
  rewrite run_agents_spec. cbv zeta.
  unfold update_file_result, modify_job, with_file_results.
  cbn -[agent_results agents].
  rewrite update_last_app. unfold file_events, file_result_of, file_outcomes.
  cbn -[agent_results agents]. rewrite <- app_assoc. reflexivity.
Qed.

Lemma for_each_files_spec (items : list (nat * file_info)) :
  forall (j : job) (tr : list event),
  exists fc cf cfi,
    for_each items (process_file run_agent) (World j tr)
    = (tt,
       World (Job (j_status j) (total_files j) fc cf cfi
                  (file_results j ++ List.map (file_result_of run_agent) items)
                  (sections j) (j_error j))
             (tr ++ flat_map (file_events run_agent) items)).
Proof.
  induction items as [|x items IH]; intros j tr.
  - exists (files_completed j), (current_file j), (current_file_index j).
    simpl. unfold ret. rewrite !app_nil_r. destruct j; reflexivity.
  - simpl. unfold bind. rewrite process_file_spec.
    destruct (IH (Job (j_status j) (total_files j) (fst x)
                      (Some (path_of (snd x))) (fst x)
                      (file_results j ++ [file_result_of run_agent x])
                      (sections j) (j_error j))
                 (tr ++ file_events run_agent x)) as [fc [cf [cfi E]]].
    exists fc, cf, cfi. rewrite E. simpl.
    rewrite <- !app_assoc. reflexivity.
Qed.

(** The whole background task in closed form *)
Lemma process_repo_documentation_spec (files : list file_info) (j : job)
    (tr : list event) :
  exists cf cfi secs,
    snd (process_repo_documentation run_agent assemble_sections files
           (World j tr))
    = World (Job job_completed (length files) (length files) cf cfi
                 (file_results j
                    ++ List.map (file_result_of run_agent) (enumerate files))
                 (Some secs) (j_error j))
            (tr ++ flat_map (file_events run_agent) (enumerate files)
                ++ [Synthesizing; JobProgress job_completed]).
Proof.
  unfold process_repo_documentation.
  unfold bind at 1. unfold modify_job at 1. simpl.
  unfold bind at 1.
  destruct (for_each_files_spec (enumerate files)
              (Job job_processing (length files) (files_completed j)
                   (current_file j) (current_file_index j) (file_results j)
                   (sections j) (j_error j)) tr) as [fc [cf [cfi E]]].
  rewrite E. simpl.
  unfold bind, emit, modify_job. simpl.
  eexists cf, cfi, _. rewrite <- !app_assoc. reflexivity.
Qed.


Lemma last_record_app (before : list event) :
  forall last after,
    last_record last (before ++ after)
    = last_record (last_record last before) after.
Proof.
  induction before as [|x before IH]; intros last after; [reflexivity|].
  destruct x; cbn [app last_record]; apply IH.
Qed.

Lemma sequenced_split (before : list event) :
  forall last e after,
    sequenced last (before ++ e :: after) = true ->
    may_happen (last_record last before) e = true.
Proof.
  induction before as [|x before IH]; intros last e after H.
  - cbn [app sequenced] in H. apply andb_true_iff in H as [H _]. exact H.
  - cbn [app sequenced] in H. apply andb_true_iff in H as [_ H].
    apply IH in H. destruct x; exact H.
Qed.

(** The sub-record last written was written at some point, and no
    sub-record was written after it. *)
Lemma last_record_inv (before : list event) :
  forall last i a st,
    last_record last before = Some (i, a, st) ->
    (last = Some (i, a, st)
     /\ forallb (fun e => negb (is_sub_record e)) before = true)
    \/ exists earlier later,
         before = earlier ++ SubRecord i a st :: later
         /\ forallb (fun e => negb (is_sub_record e)) later = true.
Proof.
  induction before as [|x before IH]; intros last i a st H.
  - left. split; [exact H|reflexivity].
  - destruct x as [j c s| | | | | ]; cbn [last_record] in H;
      apply IH in H; destruct H as [[E F]|[earlier [later [E F]]]].
    + right. exists [], before. inversion E; subst. split; [reflexivity|exact F].
    + right. exists (SubRecord j c s :: earlier), later.
      rewrite E. split; [reflexivity|exact F].
    + left. split; [exact E|exact F].
    + right. eexists (_ :: earlier), later. rewrite E.
      split; [reflexivity|exact F].
    + left. split; [exact E|exact F].
    + right. eexists (_ :: earlier), later. rewrite E.
      split; [reflexivity|exact F].
    + left. split; [exact E|exact F].
    + right. eexists (_ :: earlier), later. rewrite E.
      split; [reflexivity|exact F].
    + left. split; [exact E|exact F].
    + right. eexists (_ :: earlier), later. rewrite E.
      split; [reflexivity|exact F].
    + left. split; [exact E|exact F].
    + right. eexists (_ :: earlier), later. rewrite E.
      split; [reflexivity|exact F].
Qed.

Lemma last_is_inv (last : option (nat * agent_name * agent_status))
    (i : nat) (a : agent_name) (wanted : agent_status -> bool) :
  last_is last i a wanted = true ->
  exists st, last = Some (i, a, st) /\ wanted st = true.
Proof.
  unfold last_is. destruct last as [[[j c] st]|]; [|discriminate].
  intros H. apply andb_true_iff in H as [H W].
  apply andb_true_iff in H as [J C]. apply Nat.eqb_eq in J. subst j.
  assert (c = a) by (destruct c, a; try discriminate; reflexivity). subst c.
  exists st. auto.
Qed.

Lemma last_is_same (i : nat) (a : agent_name) (st : agent_status)
    (wanted : agent_status -> bool) :
  last_is (Some (i, a, st)) i a wanted = wanted st.
Proof.
  unfold last_is. rewrite Nat.eqb_refl, agent_eqb_refl. reflexivity.
Qed.

(** The five events of one agent, when its sub-record may be started *)
Lemma sequenced_agent_block (i : nat) (a : agent_name) (r : result json)
    (rest : list event) (last : option (nat * agent_name * agent_status)) :
  may_happen last (SubRecord i a running) = true ->
  sequenced (Some (i, a, status (record_of r))) rest = true ->
  sequenced last (agent_events i [(a, r)] ++ rest) = true.
Proof.
  intros S R. unfold agent_events.
  cbn [flat_map app fst snd sequenced last_record].
  rewrite S. cbn [andb may_happen].
  rewrite last_is_same. cbn [is_running andb].
  destruct r as [out|e]; cbn [record_of status] in R |- *;
    cbn [may_happen andb]; exact R.
Qed.

Lemma sequenced_file_block (x : nat * file_info) (tail : list event) :
  (forall last, at_rest last = true -> sequenced last tail = true) ->
  forall last,
    at_rest last = true ->
    sequenced last (file_events run_agent x ++ tail) = true.
Proof.
  intros H last R. destruct x as [i info].
  unfold file_events, file_outcomes. cbn [fst snd].
  generalize (path_of info) (content_of info). intros p c.
  unfold agents. cbn [agent_results].
  change (FileProgress i :: ?l) with ([FileProgress i] ++ l).
  cbn [app sequenced may_happen andb last_record].
  assert (T : forall r : result json, terminal (status (record_of r)) = true)
    by (intros [out|e]; reflexivity).
  repeat match goal with
         | |- sequenced _ (agent_events _ ((?a, ?r) :: ?rs) ++ _) = true =>
             change (agent_events i ((a, r) :: rs))
               with (agent_events i [(a, r)] ++ agent_events i rs);
             rewrite <- app_assoc;
             apply sequenced_agent_block;
             [ cbn [may_happen previous_agent];
               rewrite ?last_is_same; first [exact R | apply T] | ]
         end.
  cbn [agent_events flat_map app]. apply H. cbn [at_rest]. apply T.
Qed.

Lemma sequenced_files (items : list (nat * file_info)) (tail : list event) :
  (forall last, at_rest last = true -> sequenced last tail = true) ->
  forall last,
    at_rest last = true ->
    sequenced last (flat_map (file_events run_agent) items ++ tail) = true.
Proof.
  intros H. induction items as [|x items IH]; intros last R; cbn [flat_map].
  - apply H. exact R.
  - rewrite <- app_assoc. apply sequenced_file_block; assumption.
Qed.

Lemma runs_of_files (items : list (nat * file_info)) :
  filter is_run (flat_map (file_events run_agent) items)
  = flat_map (fun i => List.map (RunAgent i) agents) (List.map fst items).
Proof.
  induction items as [|[i info] items IH]; [reflexivity|].
  cbn [flat_map List.map]. rewrite filter_app, IH. reflexivity.
Qed.

Lemma enumerate_indices {A} (l : list A) :
  List.map fst (enumerate l) = seq 0 (length l).
Proof.
  unfold enumerate. generalize 0.
  induction l as [|x l IH]; intros n; simpl; [reflexivity|].
  rewrite IH. reflexivity.
Qed.

Lemma statuses_file_result_of (x : nat * file_info) :
  statuses (file_result_of run_agent x)
  = List.map (fun ar => (fst ar, status (record_of (snd ar))))
             (file_outcomes run_agent x).
Proof. destruct x as [i info]. reflexivity. Qed.

Lemma record_of_terminal (r : result json) :
  status (record_of r) = completed \/ status (record_of r) = error.
Proof. destruct r; [left|right]; reflexivity. Qed.

(** The file result a finished file leaves: all five sub-records, in the
    order of the agents, none of them still [running] *)
Lemma file_result_of_shape (x : nat * file_info) :
  fr_status (file_result_of run_agent x) = file_completed
  /\ List.map fst (statuses (file_result_of run_agent x)) = agents
  /\ Forall (fun st => st = completed \/ st = error)
            (List.map snd (statuses (file_result_of run_agent x))).
Proof.
  split; [reflexivity|]. rewrite statuses_file_result_of.
  destruct x as [i info]. unfold file_outcomes.
  cbn [fst snd agents agent_results List.map].
  split; [reflexivity|].
  repeat (apply Forall_cons; [apply record_of_terminal|]). apply Forall_nil.
Qed.


End JobFacts.


Lemma path_of_file_result_of
    (run_agent : nat -> agent_name -> str -> str ->
                 list (agent_name * json) -> result json)
    (items : list (nat * file_info)) :
  List.map fr_path (List.map (file_result_of run_agent) items)
  = List.map path_of (List.map snd items).
Proof.
  induction items as [|x items IH]; [reflexivity|].
  cbn [List.map]. rewrite IH. reflexivity.
Qed.

Lemma enumerate_items {A} (l : list A) : List.map snd (enumerate l) = l.
Proof.
  unfold enumerate. generalize 0.
  induction l as [|x l IH]; intros n; simpl; [reflexivity|].
  rewrite IH. reflexivity.
Qed.

Import RepoEndpoint.

Lemma firstn_firstn_app {A} (n : nat) (x y : list A) :
  firstn n (firstn n x ++ y) = firstn n (x ++ y).
Proof.
  destruct (Nat.le_gt_cases n (length x)) as [L|L].
  - rewrite (firstn_app n x y).
    replace (n - length x) with 0 by lia. cbn [firstn]. rewrite app_nil_r.
    rewrite firstn_app. rewrite length_firstn.
    replace (n - Nat.min n (length x)) with 0 by lia.
    cbn [firstn]. rewrite app_nil_r.
    rewrite firstn_firstn, Nat.min_id. reflexivity.
  - rewrite (firstn_all2 x) by lia. reflexivity.
Qed.

(** One file adds its code file, if it is processable and fewer than
    [MAX_FILES] are held. *)
Lemma visit_file_files (components : list str) (acc : DocService.repo_data)
    (f : DocService.file_entry) :
  length (DocService.files acc) <= 50 ->
  DocService.files (DocService.visit_file components acc f)
  = firstn 50 (DocService.files acc
                 ++ match processable components f with
                    | Some c => [c]
                    | None => []
                    end).
Proof.
  intros L. unfold DocService.visit_file, processable. cbv zeta.
  assert (Same : firstn 50 (DocService.files acc ++ [])
                 = DocService.files acc).
  { rewrite app_nil_r. apply firstn_all2. exact L. }
  destruct (DocService.member (lower (DocService.entry_name f))
              DocService.metadata_filenames).
  { destruct (DocService.read_text f); symmetry; exact Same. }
  destruct (DocService.is_test_dir components); cbn [andb].
  { destruct (DocService.member _ DocService.code_extensions).
    - destruct (DocService.entry_size f); symmetry; exact Same.
    - cbn [negb]. symmetry. exact Same. }
  destruct (DocService.member _ DocService.code_extensions); cbn [negb];
    [|symmetry; exact Same].
  unfold DocService.MAX_FILES.
  destruct (50 <=? length (DocService.files acc)) eqn:C.
  - apply Nat.leb_le in C.
    destruct (DocService.read_text f); [|symmetry; exact Same].
    rewrite firstn_app. replace (50 - length (DocService.files acc)) with 0
      by lia.
    rewrite firstn_O, app_nil_r. symmetry. apply firstn_all2. exact L.
  - apply Nat.leb_gt in C.
    destruct (DocService.read_text f); [|symmetry; exact Same].
    cbn [DocService.files]. symmetry. apply firstn_all2.
    rewrite length_app. cbn. lia.
Qed.

Lemma visit_files_files (components : list str)
    (filenames : list DocService.file_entry) :
  forall acc,
    length (DocService.files acc) <= 50 ->
    DocService.files
      (fold_left (DocService.visit_file components) filenames acc)
    = firstn 50
        (DocService.files acc
           ++ flat_map (fun f => match processable components f with
                                 | Some c => [c]
                                 | None => []
                                 end) filenames).
Proof.
  induction filenames as [|f rest IH]; intros acc L.
  - cbn [fold_left flat_map]. rewrite app_nil_r. symmetry.
    apply firstn_all2. exact L.
  - cbn [fold_left flat_map]. rewrite IH.
    + rewrite (visit_file_files components acc f L).
      rewrite firstn_firstn_app, <- app_assoc. reflexivity.
    + rewrite (visit_file_files components acc f L).
      rewrite length_firstn. lia.
Qed.

(** The walk collects the first [MAX_FILES] processable files. *)
Lemma walk_files :
  forall (d : DocService.directory) (components : list str)
         (acc : DocService.repo_data),
    length (DocService.files acc) <= 50 ->
    DocService.files (DocService.walk components d acc)
    = firstn 50 (DocService.files acc ++ processable_files components d).
Proof.
  fix IH 1. intros [filenames dirs] components acc L.
  cbn [DocService.walk processable_files].
  pose proof (visit_files_files components filenames acc L) as V.
  assert (LV : length (DocService.files
                         (fold_left (DocService.visit_file components)
                                    filenames acc)) <= 50).
  { rewrite V, length_firstn. lia. }
  revert V LV.
  generalize (fold_left (DocService.visit_file components) filenames acc).
  generalize (flat_map (fun f => match processable components f with
                                 | Some c => [c]
                                 | None => []
                                 end) filenames).
  intros here acc' V LV.
  rewrite app_assoc, <- firstn_firstn_app, <- V.
  clear V L acc here filenames. revert acc' LV.
  induction dirs as [|[dname subdir] rest IHd]; intros acc L.
  - cbn [fold_left flat_map]. rewrite app_nil_r. symmetry.
    apply firstn_all2. exact L.
  - cbn [fold_left flat_map].
    destruct (DocService.member dname DocService.skip_dirs).
    + cbn [app]. apply IHd. exact L.
    + rewrite IHd.
      * rewrite (IH subdir (components ++ [dname]) acc L).
        rewrite firstn_firstn_app, <- app_assoc. reflexivity.
      * rewrite (IH subdir (components ++ [dname]) acc L).
        rewrite length_firstn. lia.
Qed.

Lemma map_firstn {A B} (f : A -> B) (n : nat) (l : list A) :
  List.map f (firstn n l) = firstn n (List.map f l).
Proof.
  revert n. induction l as [|x l IH]; intros [|n]; cbn; try reflexivity.
  rewrite IH. reflexivity.
Qed.

(** C10.  When the clone of the repository holds more than 50
    processable files, the fetch keeps the first 50 that the walk meets
    and reads no other; the endpoint hands exactly these on, registers
    and reports a job of 50 files, and the background task produces
    exactly one file result for each of those 50, in order, and none for
    the others. *)
Theorem repo_job_keeps_first_fifty
    (run_agent : nat -> agent_name -> str -> str ->
                 list (agent_name * json) -> result json)
    (assemble_sections : list file_result -> result (list json))
    (clone : str -> str -> DocService.clone_outcome)
    (repo_url owner repo_name : str) (top : DocService.directory) :
  valid_github_url repo_url = true ->
  DocService.github_repo_of repo_url = Some (owner, repo_name) ->
  clone owner repo_name = DocService.Cloned top ->
  let found := List.map as_file_info (processable_files [] top) in
  50 < length found ->
  exists data j resp w,
    DocService.fetch_github_repo_contents repo_url clone = inr data
    /\ DocService.files data = firstn 50 (processable_files [] top)
    /\ start_repo_documentation clone repo_url (Ok tt)
       = inr (j, firstn 50 found, resp)
    /\ total_files j = 50
    /\ resp_total_files resp = 50
    /\ run_repo_job run_agent assemble_sections clone repo_url (Ok tt)
       = inr (resp, w)
    /\ total_files (the_job w) = 50
    /\ file_results (the_job w)
       = List.map (file_result_of run_agent) (enumerate (firstn 50 found))
    /\ List.map fr_path (file_results (the_job w))
       = List.map path_of (firstn 50 found).
Proof.
  intros Hurl Hrepo Hclone. cbv zeta. intros Hlen.
  set (found := List.map as_file_info (processable_files [] top)) in *.
  assert (F : DocService.fetch_github_repo_contents repo_url clone
              = inr (DocService.walk [] top (DocService.RepoData [] [] []))).
  { unfold DocService.fetch_github_repo_contents.
    rewrite Hrepo, Hclone. reflexivity. }
  assert (W : DocService.files
                (DocService.walk [] top (DocService.RepoData [] [] []))
              = firstn 50 (processable_files [] top)).
  { rewrite walk_files by (cbn; lia). reflexivity. }
  assert (L50 : length (firstn 50 found) = 50).
  { rewrite length_firstn. lia. }
  assert (S : start_repo_documentation clone repo_url (Ok tt)
              = inr (new_job 50, firstn 50 found,
                     StartResponse job_starting 50)).
  { unfold start_repo_documentation.
    destruct repo_url as [|ch url]; [discriminate Hurl|].
    rewrite Hurl. cbn [negb]. rewrite F, W, map_firstn. fold found.
    destruct (firstn 50 found) as [|f fs] eqn:K; [discriminate L50|].
    unfold limit_files, MAX_FILES. rewrite L50.
    change (50 <? 50) with false. cbv iota. rewrite L50. reflexivity. }
  destruct (process_repo_documentation_spec run_agent assemble_sections
              (firstn 50 found) (new_job 50) []) as [cf [cfi [secs E]]].
  exists (DocService.walk [] top (DocService.RepoData [] [] [])),
         (new_job 50), (StartResponse job_starting 50).
  eexists. split; [exact F|]. split; [exact W|]. split; [exact S|].
  split; [reflexivity|]. split; [reflexivity|].
  split.
  { unfold run_repo_job. rewrite S. reflexivity. }
  rewrite E. cbn [the_job total_files file_results new_job app].
  split; [exact L50|]. split; [reflexivity|].
  rewrite path_of_file_result_of, enumerate_items. reflexivity.
Qed.

Lemma repo_job_keeps_first_fifty_witness :
  exists j resp,
    start_repo_documentation clone_of_large_repository
                             (u "https://github.com/owner/project") (Ok tt)
      = inr (j,
             firstn 50 (List.map as_file_info
                          (processable_files [] large_repository)),
             resp)
    /\ total_files j = 50
    /\ resp_total_files resp = 50.
Proof.
  destruct (@repo_job_keeps_first_fifty writer_fails_on_second_file
              no_sections clone_of_large_repository
              (u "https://github.com/owner/project") (u "owner")
              (u "project") large_repository
              eq_refl eq_refl eq_refl
              (proj1 (Nat.ltb_lt 50
                        (length (List.map as_file_info
                                   (processable_files [] large_repository))))
                     eq_refl))
    as [data [j [resp [w [_ [_ [H1 [H2 [H3 _]]]]]]]]].
  exists j, resp. repeat split; assumption.
Defined.

(* ------------------------------------------------------------------ *)
(** ** The diagram syntax engine *)

(** C9.  On the two-line text whose second line ends in a dangling arrow,
    validation fails (no diagram type on the first line) and repair
    prepends the header and drops the dangling line. *)
Theorem dangling_example_validate_and_repair :
  fst (validate_mermaid_syntax dangling_example) = false
  /\ snd (validate_mermaid_syntax dangling_example)
     = u "Unrecognized diagram type in first line: 'B --> C'"
  /\ attempt_mermaid_repair dangling_example
       (snd (validate_mermaid_syntax dangling_example))
     = u "flowchart TD" ++ [nl] ++ u "B --> C".
Proof. repeat split; vm_compute; reflexivity. Qed.

(** C7 as stated fails: repairing twice differs from repairing once, and
    a text that validates is changed by repair. *)
Lemma repair_not_idempotent :
  attempt_mermaid_repair
    (attempt_mermaid_repair bracket_after_arrow (u "render failure"))
    (u "render failure")
  <> attempt_mermaid_repair bracket_after_arrow (u "render failure")
  /\ fst (validate_mermaid_syntax valid_with_dangling_arrow) = true
  /\ attempt_mermaid_repair valid_with_dangling_arrow (u "render failure")
     <> valid_with_dangling_arrow.
Proof.
  split; [|split]; vm_compute; try reflexivity; discriminate.
Qed.

(** C8 as stated fails: a text that opens with two fences keeps one after
    the first cleaning and loses it in the second. *)
Lemma clean_not_idempotent :
  clean_mermaid_code doubly_fenced = fence ++ [nl] ++ u "A"
  /\ clean_mermaid_code (clean_mermaid_code doubly_fenced) = u "A"
  /\ clean_mermaid_code (clean_mermaid_code doubly_fenced)
     <> clean_mermaid_code doubly_fenced.
Proof.
  split; [|split]; vm_compute; try reflexivity; discriminate.
Qed.

Unset Implicit Arguments.

(** *** Lines of a text *)

Lemma split_nl_cons (c : char) (s : str) :
  split [nl] (c :: s)
  = if (nl =? c)%N then [] :: split [nl] s else cons_head c (split [nl] s).
Proof.
  unfold split. cbn [split_go startswith].
  rewrite andb_true_r. reflexivity.
Qed.

Lemma split_nl_nonempty (s : str) : split [nl] s <> [].
Proof.
  induction s as [|c s IH]; [discriminate|].
  rewrite split_nl_cons. destruct (nl =? c)%N; [discriminate|].
  destruct (split [nl] s); [contradiction|discriminate].
Qed.

Lemma join_nl_cons (l : str) (ls : list str) :
  ls <> [] -> join [nl] (l :: ls) = l ++ nl :: join [nl] ls.
Proof. destruct ls; [contradiction|reflexivity]. Qed.

Lemma join_split (s : str) : join [nl] (split [nl] s) = s.
Proof.
  induction s as [|c s IH]; [reflexivity|].
  rewrite split_nl_cons. destruct (nl =? c)%N eqn:E.
  - apply N.eqb_eq in E. subst c.
    rewrite join_nl_cons by apply split_nl_nonempty.
    rewrite IH. reflexivity.
  - pose proof (split_nl_nonempty s) as NE.
    destruct (split [nl] s) as [|l ls]; [contradiction|].
    cbn [cons_head]. destruct ls as [|l' ls].
    + simpl in *. rewrite IH. reflexivity.
    + rewrite join_nl_cons by discriminate.
      rewrite join_nl_cons in IH by discriminate.
      rewrite <- IH. reflexivity.
Qed.

Lemma split_lines_no_nl (s : str) : Forall no_nl (split [nl] s).
Proof.
  induction s as [|c s IH]; [repeat constructor|].
  rewrite split_nl_cons. destruct (nl =? c)%N eqn:E.
  - constructor; [constructor|exact IH].
  - apply N.eqb_neq in E.
    destruct (split [nl] s) as [|l ls]; cbn [cons_head].
    + repeat constructor. congruence.
    + inversion IH; subst. constructor; [|assumption].
      constructor; [congruence|assumption].
Qed.

Lemma split_no_nl (l : str) : no_nl l -> split [nl] l = [l].
Proof.
  induction 1 as [|c l Hc Hl IH]; [reflexivity|].
  rewrite split_nl_cons. destruct (nl =? c)%N eqn:E.
  - apply N.eqb_eq in E. congruence.
  - rewrite IH. reflexivity.
Qed.

Lemma split_app_nl (a b : str) :
  no_nl a -> split [nl] (a ++ nl :: b) = a :: split [nl] b.
Proof.
  induction 1 as [|c l Hc Hl IH]; simpl.
  - rewrite split_nl_cons. rewrite N.eqb_refl. reflexivity.
  - rewrite split_nl_cons. destruct (nl =? c)%N eqn:E.
    + apply N.eqb_eq in E. congruence.
    + rewrite IH. reflexivity.
Qed.

Lemma split_join (ls : list str) :
  ls <> [] -> Forall no_nl ls -> split [nl] (join [nl] ls) = ls.
Proof.
  induction ls as [|l ls IH]; [contradiction|].
  intros _ H. inversion H as [|? ? Hl Hls]; subst.
  destruct ls as [|l' ls].
  - simpl. apply split_no_nl. exact Hl.
  - rewrite join_nl_cons by discriminate.
    rewrite split_app_nl by exact Hl.
    rewrite IH; [reflexivity|discriminate|exact Hls].
Qed.

(** *** White space at the ends *)

Lemma drop_while_decompose (p : char -> bool) (s : str) :
  exists pre, s = pre ++ drop_while p s /\ forallb p pre = true.
Proof.
  induction s as [|c s [pre [E F]]]; simpl.
  - exists []. split; reflexivity.
  - destruct (p c) eqn:P.
    + exists (c :: pre). simpl. rewrite P, F. split; [f_equal; exact E|reflexivity].
    + exists []. split; reflexivity.
Qed.

Lemma lstrip_starts_clean (s : str) : starts_clean (lstrip s) = true.
Proof.
  unfold lstrip. induction s as [|c s IH]; simpl; [reflexivity|].
  destruct (isspace c) eqn:E; [exact IH|]. simpl. rewrite E. reflexivity.
Qed.

Lemma lstrip_fix (s : str) : starts_clean s = true -> lstrip s = s.
Proof.
  destruct s as [|c s]; [reflexivity|]. unfold lstrip. simpl.
  destruct (isspace c); [discriminate|reflexivity].
Qed.

Lemma rstrip_ends_clean (s : str) : ends_clean (rstrip s) = true.
Proof.
  unfold ends_clean, rstrip. rewrite rev_involutive.
  apply lstrip_starts_clean.
Qed.

Lemma rstrip_fix (s : str) : ends_clean s = true -> rstrip s = s.
Proof.
  unfold ends_clean, rstrip. intros H.
  fold (lstrip (rev s)). rewrite lstrip_fix by exact H.
  apply rev_involutive.
Qed.

Lemma rstrip_idem (s : str) : rstrip (rstrip s) = rstrip s.
Proof. apply rstrip_fix, rstrip_ends_clean. Qed.

Lemma lstrip_suffix (s : str) :
  exists pre, s = pre ++ lstrip s /\ forallb isspace pre = true.
Proof. apply drop_while_decompose. Qed.

Lemma rstrip_prefix (s : str) :
  exists suf, s = rstrip s ++ suf /\ forallb isspace suf = true.
Proof.
  destruct (drop_while_decompose isspace (rev s)) as [pre [E F]].
  exists (rev pre). unfold rstrip. split.
  - rewrite <- rev_app_distr, <- E, rev_involutive. reflexivity.
  - rewrite forallb_forall in *. intros x Hx. apply F.
    apply in_rev. exact Hx.
Qed.

Lemma starts_clean_app (t suf : str) :
  t <> [] -> starts_clean (t ++ suf) = starts_clean t.
Proof. destruct t; [contradiction|reflexivity]. Qed.

Lemma ends_clean_app (pre t : str) :
  t <> [] -> ends_clean (pre ++ t) = ends_clean t.
Proof.
  intros H. unfold ends_clean. rewrite rev_app_distr.
  apply starts_clean_app. intros E. apply H.
  rewrite <- (rev_involutive t), E. reflexivity.
Qed.

Lemma ends_clean_lstrip (l : str) :
  ends_clean l = true -> ends_clean (lstrip l) = true.
Proof.
  intros H. destruct (lstrip l) eqn:E; [reflexivity|].
  destruct (lstrip_suffix l) as [pre [D _]]. rewrite E in D.
  rewrite D in H. rewrite ends_clean_app in H by discriminate. exact H.
Qed.

Lemma starts_clean_rstrip (t : str) :
  starts_clean t = true -> starts_clean (rstrip t) = true.
Proof.
  intros H. destruct (rstrip t) eqn:E; [reflexivity|].
  destruct (rstrip_prefix t) as [suf [D _]]. rewrite E in D.
  rewrite D in H. rewrite starts_clean_app in H by discriminate. exact H.
Qed.

Lemma strip_starts_clean (s : str) : starts_clean (strip s) = true.
Proof. apply starts_clean_rstrip, lstrip_starts_clean. Qed.

Lemma strip_ends_clean (s : str) : ends_clean (strip s) = true.
Proof. apply rstrip_ends_clean. Qed.

Lemma strip_fix (s : str) :
  starts_clean s = true -> ends_clean s = true -> strip s = s.
Proof.
  intros H1 H2. unfold strip. rewrite lstrip_fix by exact H1.
  apply rstrip_fix. exact H2.
Qed.

Lemma strip_idem (s : str) : strip (strip s) = strip s.
Proof. apply strip_fix; [apply strip_starts_clean|apply strip_ends_clean]. Qed.

(** *** The lines of a stripped text *)

Lemma isspace_nl : isspace nl = true.
Proof. reflexivity. Qed.

Lemma join_snoc (ms : list str) (m : str) :
  ms <> [] -> join [nl] (ms ++ [m]) = join [nl] ms ++ nl :: m.
Proof.
  induction ms as [|x ms IH]; [contradiction|]. intros _.
  destruct ms as [|y ms].
  - reflexivity.
  - change ((x :: y :: ms) ++ [m]) with (x :: ((y :: ms) ++ [m])).
    rewrite join_nl_cons by (destruct ms; discriminate).
    rewrite IH by discriminate.
    rewrite (join_nl_cons x (y :: ms)) by discriminate.
    rewrite <- app_assoc. reflexivity.
Qed.

Lemma rev_join (ls : list str) :
  rev (join [nl] ls) = join [nl] (rev (List.map (@rev char) ls)).
Proof.
  induction ls as [|l ls IH]; [reflexivity|].
  destruct ls as [|l' ls].
  - reflexivity.
  - rewrite join_nl_cons by discriminate.
    rewrite rev_app_distr. cbn [rev]. rewrite IH.
    cbn [List.map rev]. rewrite <- app_assoc. cbn [app].
    symmetry. apply join_snoc.
    intros E. apply app_eq_nil in E as [_ E]. discriminate E.
Qed.

Lemma split_rev (s : str) :
  split [nl] (rev s) = rev (List.map (@rev char) (split [nl] s)).
Proof.
  rewrite <- (join_split s) at 1. rewrite rev_join.
  apply split_join.
  - intros E. apply (split_nl_nonempty s).
    destruct (split [nl] s); [reflexivity|].
    cbn [List.map rev] in E. apply app_eq_nil in E as [_ E]. discriminate E.
  - apply Forall_rev. apply Forall_map.
    eapply Forall_impl; [|apply split_lines_no_nl].
    intros l. unfold no_nl. apply Forall_rev.
Qed.

Section LinesOfStrip.

Variable Q : str -> Prop.
Hypothesis Q_nil : Q [].

Lemma lines_lstrip_gen (keep : forall l, Q l -> Q (lstrip l)) (s : str) :
  Q (lstrip (hd [] (split [nl] s))) ->
  Forall Q (tl (split [nl] s)) ->
  Forall Q (split [nl] (lstrip s)).
Proof.
  induction s as [|c s IH]; intros H1 H2.
  - repeat constructor. exact Q_nil.
  - rewrite split_nl_cons in H1, H2.
    unfold lstrip at 1. cbn [drop_while].
    destruct (isspace c) eqn:Sp.
    + fold (lstrip s). destruct (nl =? c)%N eqn:E.
      * cbn [hd tl] in H1, H2. apply IH.
        -- pose proof (split_nl_nonempty s).
           destruct (split [nl] s); [contradiction|].
           inversion H2; subst. cbn [hd]. auto.
        -- destruct (split [nl] s); [constructor|].
           inversion H2; subst. assumption.
      * pose proof (split_nl_nonempty s).
        destruct (split [nl] s) as [|l0 ls]; [contradiction|].
        cbn [cons_head hd tl] in H1, H2.
        apply IH; cbn [hd tl]; [|exact H2].
        unfold lstrip in H1 |- *. cbn [drop_while] in H1.
        rewrite Sp in H1. exact H1.
    + rewrite split_nl_cons.
      destruct (nl =? c)%N eqn:E.
      * apply N.eqb_eq in E. subst c. discriminate Sp.
      * pose proof (split_nl_nonempty s).
        destruct (split [nl] s) as [|l0 ls]; [contradiction|].
        cbn [cons_head hd tl] in H1, H2 |- *.
        constructor; [|exact H2].
        unfold lstrip in H1. cbn [drop_while] in H1.
        rewrite Sp in H1. exact H1.
Qed.

Lemma lines_lstrip (keep : forall l, Q l -> Q (lstrip l)) (s : str) :
  Forall Q (split [nl] s) -> Forall Q (split [nl] (lstrip s)).
Proof.
  intros H. pose proof (split_nl_nonempty s).
  destruct (split [nl] s) as [|l0 ls] eqn:E; [contradiction|].
  inversion H; subst.
  apply lines_lstrip_gen; rewrite ?E; cbn [hd tl]; auto.
Qed.

End LinesOfStrip.

Lemma lines_rstrip (Q : str -> Prop) (s : str) :
  Q [] ->
  (forall l, Q l -> Q (rstrip l)) ->
  Forall Q (split [nl] s) -> Forall Q (split [nl] (rstrip s)).
Proof.
  intros Q_nil keep H. unfold rstrip. fold (lstrip (rev s)).
  rewrite split_rev. apply Forall_rev. apply Forall_map.
  apply (lines_lstrip (fun l => Q (rev l))).
  - exact Q_nil.
  - intros l Hl. apply keep in Hl. unfold rstrip in Hl.
    rewrite rev_involutive in Hl. exact Hl.
  - rewrite split_rev. apply Forall_rev. apply Forall_map.
    eapply Forall_impl; [|exact H].
    intros l Hl. cbv beta. rewrite rev_involutive. exact Hl.
Qed.

Lemma lines_strip (Q : str -> Prop) (s : str) :
  Q [] ->
  (forall l, Q l -> Q (lstrip l)) ->
  (forall l, Q l -> Q (rstrip l)) ->
  Forall Q (split [nl] s) -> Forall Q (split [nl] (strip s)).
Proof.
  intros. unfold strip. apply lines_rstrip; auto. apply lines_lstrip; auto.
Qed.

(** *** Dangling arrows *)

Lemma startswith_app (q a b : str) :
  startswith q a = true -> startswith q (a ++ b) = true.
Proof.
  revert a. induction q as [|x q IH]; intros a H; [reflexivity|].
  destruct a as [|y a]; [discriminate|]. simpl in *.
  apply andb_true_iff in H as [H1 H2]. rewrite H1. simpl. apply IH. exact H2.
Qed.

Lemma endswith_app (p pre t : str) :
  endswith p t = true -> endswith p (pre ++ t) = true.
Proof.
  unfold endswith. intros H. rewrite rev_app_distr.
  apply startswith_app. exact H.
Qed.

Lemma drop_while_app (p : char -> bool) (x y : str) :
  drop_while p x <> [] -> drop_while p (x ++ y) = drop_while p x ++ y.
Proof.
  induction x as [|c x IH]; simpl; [contradiction|].
  destruct (p c); [exact IH|reflexivity].
Qed.

Lemma rstrip_app (a b : str) :
  rstrip b <> [] -> rstrip (a ++ b) = a ++ rstrip b.
Proof.
  unfold rstrip. intros H. rewrite rev_app_distr.
  rewrite drop_while_app.
  - rewrite rev_app_distr, rev_involutive. reflexivity.
  - intros E. apply H. rewrite E. reflexivity.
Qed.

Lemma dangling_arrow_rstrip (l : str) :
  dangling_arrow (rstrip l) = dangling_arrow l.
Proof.
  unfold dangling_arrow, search_at_end. rewrite !rstrip_idem. reflexivity.
Qed.

Lemma dangling_arrow_app (pre l : str) :
  dangling_arrow l = true -> dangling_arrow (pre ++ l) = true.
Proof.
  unfold dangling_arrow, search_at_end. rewrite !rstrip_idem.
  intros H.
  assert (NE : rstrip l <> []).
  { intros E. rewrite E in H. discriminate H. }
  rewrite (rstrip_app pre l NE).
  repeat (apply orb_true_iff in H; destruct H as [H|H]);
    rewrite (endswith_app _ pre _ H); rewrite ?orb_true_r; reflexivity.
Qed.

Lemma no_dangling_lstrip (l : str) : no_dangling l -> no_dangling (lstrip l).
Proof.
  unfold no_dangling. intros H.
  destruct (dangling_arrow (lstrip l)) eqn:E; [|reflexivity].
  destruct (lstrip_suffix l) as [pre [D _]].
  rewrite D in H. rewrite (dangling_arrow_app pre _ E) in H. discriminate H.
Qed.

Lemma no_dangling_rstrip (l : str) : no_dangling l -> no_dangling (rstrip l).
Proof. unfold no_dangling. rewrite dangling_arrow_rstrip. auto. Qed.

(** *** Repair on text that needs none *)

Lemma filter_all_true {A} (f : A -> bool) (l : list A) :
  forallb f l = true -> filter f l = l.
Proof.
  induction l as [|x l IH]; simpl; [reflexivity|].
  intros H. apply andb_true_iff in H as [H1 H2].
  rewrite H1, IH by exact H2. reflexivity.
Qed.

Lemma trim_unbalanced_balanced (open_b close_b : str) (lines : list str) :
  (count open_b (join [nl] lines) =? count close_b (join [nl] lines)) = true ->
  trim_unbalanced open_b close_b lines = lines.
Proof.
  intros H. unfold trim_unbalanced.
  assert (T : trim_unbalanced_rev open_b close_b (rev lines) = rev lines).
  { destruct (rev lines) as [|a [|b rl]] eqn:E; try reflexivity.
    cbn [trim_unbalanced_rev]. rewrite <- E, rev_involutive, H. reflexivity. }
  rewrite T. apply rev_involutive.
Qed.

Lemma validate_true_inv (code : str) :
  fst (validate_mermaid_syntax code) = true ->
  code <> []
  /\ keyword_found (lower (strip (hd [] (split [nl] (strip code))))) = true
  /\ Forall (fun oc => (count (fst oc) code =? count (snd oc) code) = true)
            repair_pairs.
Proof.
  unfold validate_mermaid_syntax.
  destruct code as [|c code]; [discriminate|].
  destruct (strip (c :: code)) eqn:S; [discriminate|].
  destruct (keyword_found _) eqn:K; cbn [negb]; [|discriminate].
  intros H. split; [discriminate|]. split; [reflexivity|].
  unfold bracket_pairs, check_brackets in H.
  repeat match type of H with
         | context [negb (?a =? ?b)] =>
             let E := fresh "E" in destruct (a =? b) eqn:E; cbn [negb] in H;
             [|discriminate H]
         end.
  repeat constructor; assumption.
Qed.

Lemma repair_noop (code reason : str) :
  fst (validate_mermaid_syntax code) = true ->
  strip code = code ->
  all_lines_keep code = true ->
  attempt_mermaid_repair code reason = code.
Proof.
  intros V S D.
  apply validate_true_inv in V as [NE [K B]].
  unfold attempt_mermaid_repair.
  destruct code as [|c code]; [contradiction|].
  rewrite S in *. rewrite K. cbn [negb].
  inversion B as [|? ? B1 B']; subst. inversion B' as [|? ? B2 B'']; subst.
  inversion B'' as [|? ? B3 _]; subst. cbn [fst snd] in B1, B2, B3.
  cbn [fold_left repair_pairs].
  rewrite (trim_unbalanced_balanced (u "(") (u ")"))
    by (rewrite join_split; exact B1).
  rewrite (trim_unbalanced_balanced (u "[") (u "]"))
    by (rewrite join_split; exact B2).
  rewrite (trim_unbalanced_balanced (u "{") (u "}"))
    by (rewrite join_split; exact B3).
  rewrite join_split.
  unfold all_lines_keep in D. rewrite (filter_all_true _ _ D).
  rewrite join_split. exact S.
Qed.

Lemma repair_output_clean (code reason : str) :
  strip (attempt_mermaid_repair code reason)
    = attempt_mermaid_repair code reason
  /\ all_lines_keep (attempt_mermaid_repair code reason) = true.
Proof.
  unfold attempt_mermaid_repair.
  destruct code as [|c code]; [split; reflexivity|].
  split; [apply strip_idem|].
  match goal with
  | |- all_lines_keep (strip (join [nl] (filter ?f ?ls))) = true =>
      set (f0 := f); set (kept := filter f ls);
      assert (K : Forall no_dangling kept);
      [|assert (N : Forall no_nl kept)]
  end.
  - apply Forall_forall. intros l Hl. apply filter_In in Hl as [_ Hl].
    unfold no_dangling. destruct (dangling_arrow l); [discriminate|reflexivity].
  - apply Forall_forall. intros l Hl. apply filter_In in Hl as [Hl _].
    revert l Hl. apply Forall_forall. apply split_lines_no_nl.
  - assert (F : Forall no_dangling (split [nl] (strip (join [nl] kept)))).
    { apply lines_strip.
      - reflexivity.
      - apply no_dangling_lstrip.
      - apply no_dangling_rstrip.
      - destruct kept as [|k ks] eqn:E.
        + repeat constructor.
        + rewrite split_join; [exact K|discriminate|exact N]. }
    unfold all_lines_keep. apply forallb_forall. intros l Hl.
    rewrite Forall_forall in F. rewrite (F l Hl). reflexivity.
Qed.

(** *** Characters kept by the string operations *)

Section Kept.

Variable P : char -> Prop.

Lemma Forall_replace_go (pat rep : str) (s : str) :
  Forall P rep -> Forall P s ->
  forall k, Forall P (replace_go pat rep k s).
Proof.
  intros Hr. induction 1 as [|c s Hc Hs IH]; intros k; simpl.
  - constructor.
  - destruct k; [|apply IH].
    destruct (startswith pat (c :: s)).
    + apply Forall_app. split; [exact Hr|apply IH].
    + constructor; [exact Hc|apply IH].
Qed.

Lemma Forall_split_nl (s : str) :
  Forall P s -> Forall (Forall P) (split [nl] s).
Proof.
  induction 1 as [|c s Hc Hs IH].
  - repeat constructor.
  - rewrite split_nl_cons. destruct (nl =? c)%N.
    + constructor; [constructor|exact IH].
    + destruct (split [nl] s) as [|l ls]; cbn [cons_head].
      * repeat constructor. exact Hc.
      * inversion IH; subst. constructor; [|assumption].
        constructor; assumption.
Qed.

Lemma Forall_join_nl (ls : list str) :
  P nl -> Forall (Forall P) ls -> Forall P (join [nl] ls).
Proof.
  intros Hn. induction 1 as [|l ls Hl Hls IH]; [constructor|].
  destruct ls as [|l' ls]; [exact Hl|].
  rewrite join_nl_cons by discriminate.
  apply Forall_app. split; [exact Hl|]. constructor; assumption.
Qed.

Lemma Forall_drop_while (f : char -> bool) (s : str) :
  Forall P s -> Forall P (drop_while f s).
Proof.
  induction 1 as [|c s Hc Hs IH]; simpl; [constructor|].
  destruct (f c); [exact IH|]. constructor; assumption.
Qed.

Lemma Forall_lstrip (s : str) : Forall P s -> Forall P (lstrip s).
Proof. apply Forall_drop_while. Qed.

Lemma Forall_rstrip (s : str) : Forall P s -> Forall P (rstrip s).
Proof.
  intros H. unfold rstrip. apply Forall_rev, Forall_drop_while, Forall_rev.
  exact H.
Qed.

Lemma Forall_strip (s : str) : Forall P s -> Forall P (strip s).
Proof. intros H. apply Forall_rstrip, Forall_lstrip. exact H. Qed.

(** The second half of step 6, from the text with its line endings
    already normalised *)
Lemma Forall_tidy_lines (s : str) :
  P nl -> Forall P s ->
  Forall P (strip (join [nl] (List.map rstrip (split [nl] s)))).
Proof.
  intros Hn H. apply Forall_strip, Forall_join_nl; [exact Hn|].
  apply Forall_map. eapply Forall_impl; [|apply Forall_split_nl; exact H].
  apply Forall_rstrip.
Qed.

Lemma Forall_normalise_lines (s : str) :
  P nl -> Forall P s -> Forall P (normalise_lines s).
Proof.
  intros Hn H. unfold normalise_lines. apply Forall_tidy_lines; [exact Hn|].
  unfold replace.
  apply Forall_replace_go; [repeat constructor; exact Hn|].
  apply Forall_replace_go; [repeat constructor; exact Hn|exact H].
Qed.

End Kept.

Lemma replace_absent (h : char) (pat rep s : str) :
  Forall (fun c => c <> h) s -> replace (h :: pat) rep s = s.
Proof.
  unfold replace. induction 1 as [|c s Hc Hs IH]; [reflexivity|].
  cbn [replace_go startswith].
  destruct (h =? c)%N eqn:E.
  - apply N.eqb_eq in E. congruence.
  - cbn [andb]. rewrite IH. reflexivity.
Qed.

Lemma replace_cr_gone (s : str) :
  Forall (fun c => c <> cr) (replace [cr] [nl] s).
Proof.
  unfold replace. induction s as [|c s IH]; [constructor|].
  cbn [replace_go startswith length Nat.sub].
  rewrite andb_true_r. destruct (cr =? c)%N eqn:E.
  - constructor; [discriminate|exact IH].
  - apply N.eqb_neq in E. constructor; [congruence|exact IH].
Qed.

Lemma normalise_lines_no_cr (s : str) :
  Forall (fun c => c <> cr) (normalise_lines s).
Proof.
  unfold normalise_lines. apply Forall_tidy_lines; [discriminate|].
  apply replace_cr_gone.
Qed.

Lemma map_fix {A} (f : A -> A) (l : list A) :
  Forall (fun x => f x = x) l -> List.map f l = l.
Proof. induction 1 as [|x l Hx Hl IH]; simpl; congruence. Qed.

Lemma tidy_lines_ends_clean (s : str) :
  Forall (fun l => ends_clean l = true)
         (split [nl] (strip (join [nl] (List.map rstrip (split [nl] s))))).
Proof.
  apply lines_strip.
  - reflexivity.
  - apply ends_clean_lstrip.
  - intros l _. apply rstrip_ends_clean.
  - rewrite split_join.
    + apply Forall_map. apply Forall_forall. intros l _.
      apply rstrip_ends_clean.
    + pose proof (split_nl_nonempty s).
      destruct (split [nl] s); [contradiction|discriminate].
    + apply Forall_map. eapply Forall_impl; [|apply split_lines_no_nl].
      intros l. unfold no_nl. apply Forall_rstrip.
Qed.

Lemma normalise_lines_idem (s : str) :
  normalise_lines (normalise_lines s) = normalise_lines s.
Proof.
  pose proof (normalise_lines_no_cr s) as NC.
  pose proof (tidy_lines_ends_clean
                (replace [cr] [nl] (replace [cr; nl] [nl] s))) as EC.
  fold (normalise_lines s) in EC.
  set (y := normalise_lines s) in *.
  unfold normalise_lines at 1.
  rewrite (replace_absent cr [nl] [nl] y NC).
  rewrite (replace_absent cr [] [nl] y NC).
  rewrite map_fix.
  - rewrite join_split. unfold y, normalise_lines. apply strip_idem.
  - eapply Forall_impl; [|exact EC]. intros l. apply rstrip_fix.
Qed.

(** *** Cleaning text that has nothing to un-escape *)

Lemma plain_text_Forall (s : str) :
  plain_text s = true <-> Forall is_plain s.
Proof.
  unfold plain_text. rewrite forallb_forall, Forall_forall.
  split; intros H c Hc; specialize (H c Hc); unfold plain_char, is_plain in *.
  - apply negb_true_iff in H. apply orb_false_iff in H as [H H3].
    apply orb_false_iff in H as [H1 H2].
    apply N.eqb_neq in H1, H2, H3. auto.
  - destruct H as [H1 [H2 H3]]. apply N.eqb_neq in H1, H2, H3.
    rewrite H1, H2, H3. reflexivity.
Qed.

Lemma strip_open_fence_plain (s : str) :
  Forall is_plain s -> strip_open_fence s = s.
Proof.
  intros H. unfold strip_open_fence.
  destruct s as [|c s]; [reflexivity|].
  inversion H as [|? ? [_ [Hc _]] _]; subst.
  cbn [fence startswith]. destruct (backtick =? c)%N eqn:E; [|reflexivity].
  apply N.eqb_eq in E. congruence.
Qed.

Lemma endswith_fence_plain (t : str) :
  Forall is_plain t -> endswith fence t = false.
Proof.
  intros H. unfold endswith. apply Forall_rev in H.
  destruct (rev t) as [|c r]; [reflexivity|].
  inversion H as [|? ? [_ [Hc _]] _]; subst.
  cbn [fence rev app startswith].
  destruct (backtick =? c)%N eqn:E; [|reflexivity].
  apply N.eqb_eq in E. congruence.
Qed.

Lemma strip_close_fence_plain (s : str) :
  Forall is_plain s -> strip_close_fence s = s.
Proof.
  intros H. unfold strip_close_fence.
  rewrite endswith_fence_plain; [reflexivity|].
  apply Forall_rstrip. exact H.
Qed.

Lemma unicode_escape_head (c : char) (s : str) :
  c <> backslash -> unicode_escape (c :: s) = None.
Proof.
  intros H. unfold unicode_escape.
  destruct s as [|l [|h1 [|h2 [|h3 [|h4 r]]]]]; try reflexivity.
  destruct (c =? backslash)%N eqn:E; [|reflexivity].
  apply N.eqb_eq in E. contradiction.
Qed.

Lemma decode_unicode_plain (s : str) :
  Forall is_plain s -> decode_unicode s = s.
Proof.
  unfold decode_unicode. induction 1 as [|c s [Hc _] Hs IH]; [reflexivity|].
  cbn [decode_unicode_go]. rewrite unicode_escape_head by exact Hc.
  rewrite IH. reflexivity.
Qed.

Lemma lstrip_chars_plain (s : str) :
  Forall is_plain s -> lstrip_chars [bom] s = s.
Proof.
  intros H. destruct s as [|c s]; [reflexivity|].
  inversion H as [|? ? [_ [_ Hc]] _]; subst.
  unfold lstrip_chars. cbn [drop_while existsb].
  destruct (c =? bom)%N eqn:E; [|reflexivity].
  apply N.eqb_eq in E. contradiction.
Qed.

Lemma clean_plain (s : str) :
  Forall is_plain s -> clean_mermaid_code s = normalise_lines s.
Proof.
  intros H. unfold clean_mermaid_code.
  destruct s as [|c s]; [reflexivity|].
  assert (NB : Forall (fun x => x <> backslash) (c :: s)).
  { eapply Forall_impl; [|exact H]. intros x [Hx _]. exact Hx. }
  rewrite (strip_open_fence_plain _ H), (strip_close_fence_plain _ H).
  do 6 rewrite (replace_absent backslash _ _ (c :: s) NB).
  rewrite (decode_unicode_plain _ H), (lstrip_chars_plain _ H).
  reflexivity.
Qed.

Lemma normalise_lines_plain (s : str) :
  Forall is_plain s -> Forall is_plain (normalise_lines s).
Proof.
  apply Forall_normalise_lines. repeat split; discriminate.
Qed.

(** C8, amended.  On a text with no backslash, no backtick and no
    byte-order mark, cleaning twice gives what cleaning once gives. *)
Theorem clean_idempotent_on_plain_text (raw_code : str) :
  plain_text raw_code = true ->
  clean_mermaid_code (clean_mermaid_code raw_code)
  = clean_mermaid_code raw_code.
Proof.
  intros H. apply plain_text_Forall in H.
  rewrite (clean_plain _ H).
  rewrite (clean_plain _ (normalise_lines_plain _ H)).
  apply normalise_lines_idem.
Qed.

Lemma clean_idempotent_on_plain_text_witness :
  clean_mermaid_code (clean_mermaid_code trailing_blanks)
  = clean_mermaid_code trailing_blanks.
Proof. exact (clean_idempotent_on_plain_text trailing_blanks eq_refl). Defined.

(** C7, amended.  When the once-repaired text validates, repairing it
    again changes nothing; and repair is a no-op on every text that
    validates, has no white space at either end and has no line ending in
    a dangling arrow.  The reason passed to repair plays no part. *)
Theorem repair_twice_when_repaired_validates (code reason reason' : str) :
  fst (validate_mermaid_syntax (attempt_mermaid_repair code reason)) = true ->
  attempt_mermaid_repair (attempt_mermaid_repair code reason) reason'
  = attempt_mermaid_repair code reason
  /\ (forall valid_code,
        fst (validate_mermaid_syntax valid_code) = true ->
        strip valid_code = valid_code ->
        all_lines_keep valid_code = true ->
        attempt_mermaid_repair valid_code reason' = valid_code).
Proof.
  intros V. split.
  - destruct (repair_output_clean code reason) as [S K].
    apply repair_noop; assumption.
  - intros valid_code. apply repair_noop.
Qed.

Lemma repair_twice_when_repaired_validates_witness :
  attempt_mermaid_repair
    (attempt_mermaid_repair dangling_example (u "no diagram type"))
    (u "render failure")
  = attempt_mermaid_repair dangling_example (u "no diagram type").
Proof.
  exact (proj1 (repair_twice_when_repaired_validates dangling_example
                  (u "no diagram type") (u "render failure") eq_refl)).
Defined.

(* ================================================================== *)
(** * Further properties of the code around the claims *)

Import Py Mermaid Json Inference Agents TextSpec Doubles.
Import Observations Examples.

(* ------------------------------------------------------------------ *)
(** ** Further properties of the diagram text utilities *)

(** X1.  Whatever it is given, [clean_mermaid_code] returns text with no
    carriage return, no white space at either end, and no line that ends
    in white space. *)
Theorem clean_output_is_tidy (raw_code : str) :
  let cleaned := clean_mermaid_code raw_code in
  Forall (fun c => c <> cr) cleaned
  /\ strip cleaned = cleaned
  /\ Forall (fun line => rstrip line = line) (split [nl] cleaned).
Proof.
  cbv zeta. unfold clean_mermaid_code.
  destruct raw_code as [|c raw]; [repeat split; repeat constructor|].
  match goal with
  | |- context [normalise_lines ?z] => generalize z
  end.
  intros z. split; [apply normalise_lines_no_cr|]. split.
  - unfold normalise_lines. apply strip_idem.
  - eapply Forall_impl; [|apply tidy_lines_ends_clean]. apply rstrip_fix.
Qed.

Lemma strip_all_space (s : str) : forallb isspace s = true -> strip s = [].
Proof.
  intros H. unfold strip.
  assert (L : lstrip s = []).
  { unfold lstrip. induction s as [|c s IH]; [reflexivity|].
    simpl in *. apply andb_true_iff in H as [H1 H2]. rewrite H1. auto. }
  rewrite L. reflexivity.
Qed.

Lemma isspace_is_plain (c : char) : isspace c = true -> is_plain c.
Proof.
  intros H. repeat split; intros ->; vm_compute in H; discriminate H.
Qed.

(** X2.  Text made of white space only (the empty text included) is
    rejected by validation with the message "Empty diagram code", cleans
    to the empty text, and is repaired to the bare header "flowchart TD",
    except the empty text, which repair returns as it is. *)
Theorem blank_text_edge_cases (code reason : str) :
  forallb isspace code = true ->
  validate_mermaid_syntax code = (false, u "Empty diagram code")
  /\ clean_mermaid_code code = []
  /\ attempt_mermaid_repair code reason
     = match code with [] => [] | _ => u "flowchart TD" end.
Proof.
  intros H. pose proof (strip_all_space code H) as S.
  split; [|split].
  - unfold validate_mermaid_syntax. destruct code; [reflexivity|].
    rewrite S. reflexivity.
  - assert (P : Forall is_plain code).
    { apply Forall_forall. intros c Hc. apply isspace_is_plain.
      rewrite forallb_forall in H. auto. }
    rewrite (clean_plain _ P).
    assert (A : Forall (fun c => isspace c = true) (normalise_lines code)).
    { apply Forall_normalise_lines; [reflexivity|].
      apply Forall_forall. rewrite forallb_forall in H. exact H. }
    assert (E : strip (normalise_lines code) = normalise_lines code).
    { unfold normalise_lines. apply strip_idem. }
    rewrite <- E. apply strip_all_space. apply forallb_forall.
    rewrite Forall_forall in A. exact A.
  - unfold attempt_mermaid_repair. destruct code as [|c code]; [reflexivity|].
    rewrite S. vm_compute. reflexivity.
Qed.

Lemma blank_text_edge_cases_witness :
  validate_mermaid_syntax blank_code = (false, u "Empty diagram code")
  /\ clean_mermaid_code blank_code = []
  /\ attempt_mermaid_repair blank_code (u "Empty diagram code")
     = u "flowchart TD".
Proof.
  exact (blank_text_edge_cases blank_code (u "Empty diagram code") eq_refl).
Defined.

(** X3.  Whatever it is given, [attempt_mermaid_repair] returns text with
    no white space at either end and with no line that ends in a dangling
    arrow. *)
Theorem repair_output_is_tidy (code reason : str) :
  let repaired := attempt_mermaid_repair code reason in
  strip repaired = repaired
  /\ Forall (fun line => dangling_arrow line = false) (split [nl] repaired).
Proof.
  cbv zeta. destruct (repair_output_clean code reason) as [S K].
  split; [exact S|].
  unfold all_lines_keep in K. rewrite forallb_forall in K.
  apply Forall_forall. intros l Hl. specialize (K l Hl).
  destruct (dangling_arrow l); [discriminate K|reflexivity].
Qed.

Lemma count_char_cons (c x : char) (s : str) :
  count [c] (x :: s) = (if (c =? x)%N then 1 else 0) + count [c] s.
Proof.
  unfold count. cbn [count_go startswith length Nat.sub].
  rewrite andb_true_r. destruct (c =? x)%N; reflexivity.
Qed.

Lemma count_char_app (c : char) (a b : str) :
  count [c] (a ++ b) = count [c] a + count [c] b.
Proof.
  induction a as [|x a IH]; [reflexivity|].
  cbn [app]. rewrite !count_char_cons, IH. lia.
Qed.

Lemma balanced_header (code : str) :
  balanced code = true -> balanced (u "flowchart TD" ++ nl :: code) = true.
Proof.
  unfold balanced, repair_pairs. cbn [forallb fst snd].
  change (u "(") with [40%N]. change (u ")") with [41%N].
  change (u "[") with [91%N]. change (u "]") with [93%N].
  change (u "{") with [123%N]. change (u "}") with [125%N].
  rewrite !count_char_app, !count_char_cons.
  intros H. exact H.
Qed.

Lemma balanced_inv (code : str) :
  balanced code = true ->
  (count (u "(") code =? count (u ")") code) = true
  /\ (count (u "[") code =? count (u "]") code) = true
  /\ (count (u "{") code =? count (u "}") code) = true.
Proof.
  unfold balanced, repair_pairs. cbn [forallb fst snd].
  rewrite !andb_true_iff. tauto.
Qed.

Lemma validate_accepts (code : str) :
  code <> [] -> strip code = code ->
  keyword_found (lower (strip (hd [] (split [nl] code)))) = true ->
  balanced code = true ->
  validate_mermaid_syntax code = (true, []).
Proof.
  intros NE S K B. apply balanced_inv in B as [B1 [B2 B3]].
  unfold validate_mermaid_syntax.
  destruct code as [|c code]; [contradiction|].
  rewrite S. rewrite K. cbn [negb].
  unfold check_brackets, bracket_pairs. rewrite B1, B2, B3. reflexivity.
Qed.

(** X4.  On non-empty text without white space at either end, whose
    first line names no diagram type, whose brackets are balanced and
    which has no dangling arrow, repair only puts the line "flowchart TD"
    in front, and the result passes validation. *)
Theorem repair_adds_missing_header (code reason : str) :
  code <> [] ->
  strip code = code ->
  keyword_found (lower (strip (hd [] (split [nl] code)))) = false ->
  balanced code = true ->
  all_lines_keep code = true ->
  attempt_mermaid_repair code reason = u "flowchart TD" ++ nl :: code
  /\ validate_mermaid_syntax (u "flowchart TD" ++ nl :: code) = (true, []).
Proof.
  intros NE S K B D.
  assert (SC : starts_clean code = true /\ ends_clean code = true).
  { rewrite <- S. split; [apply strip_starts_clean|apply strip_ends_clean]. }
  destruct SC as [SC EC].
  set (fixed := u "flowchart TD" ++ nl :: code).
  assert (SF : strip fixed = fixed).
  { apply strip_fix; [reflexivity|].
    unfold fixed. rewrite ends_clean_app by discriminate.
    change (nl :: code) with ([nl] ++ code).
    rewrite ends_clean_app by exact NE. exact EC. }
  assert (LF : split [nl] fixed = u "flowchart TD" :: split [nl] code).
  { unfold fixed. apply split_app_nl. repeat constructor; discriminate. }
  assert (JF : join [nl] (u "flowchart TD" :: split [nl] code) = fixed).
  { rewrite join_nl_cons by apply split_nl_nonempty. rewrite join_split.
    reflexivity. }
  pose proof (balanced_header code B) as BF. fold fixed in BF.
  split.
  - unfold attempt_mermaid_repair.
    destruct code as [|c code]; [contradiction|].
    rewrite S, K. cbn [negb fold_left repair_pairs].
    apply balanced_inv in BF as [B1 [B2 B3]].
    rewrite (trim_unbalanced_balanced (u "(") (u ")"))
      by (rewrite JF; exact B1).
    rewrite (trim_unbalanced_balanced (u "[") (u "]"))
      by (rewrite JF; exact B2).
    rewrite (trim_unbalanced_balanced (u "{") (u "}"))
      by (rewrite JF; exact B3).
    rewrite JF, LF. cbn [filter].
    replace (dangling_arrow (u "flowchart TD")) with false
      by (vm_compute; reflexivity).
    cbn [negb]. unfold all_lines_keep in D.
    rewrite (filter_all_true _ _ D). rewrite JF. exact SF.
  - apply validate_accepts; try assumption.
    + discriminate.
    + rewrite LF. reflexivity.
Qed.

Lemma repair_adds_missing_header_witness :
  attempt_mermaid_repair headless_diagram (u "no diagram type")
  = u "flowchart TD" ++ nl :: headless_diagram
  /\ validate_mermaid_syntax (u "flowchart TD" ++ nl :: headless_diagram)
     = (true, []).
Proof.
  apply (repair_adds_missing_header headless_diagram (u "no diagram type"));
    [discriminate | reflexivity | reflexivity | reflexivity | reflexivity].
Defined.

(** X5.  [validate_mermaid_syntax] returns an empty message exactly when
    it accepts the text: every rejection comes with a reason. *)
Theorem validate_message_empty_iff_valid (code : str) :
  fst (validate_mermaid_syntax code) = true
  <-> snd (validate_mermaid_syntax code) = [].
Proof.
  unfold validate_mermaid_syntax.
  destruct code as [|c code]; [split; discriminate|].
  destruct (strip (c :: code)) as [|c' s']; [split; discriminate|].
  destruct (negb (keyword_found _)); [split; discriminate|].
  unfold check_brackets, bracket_pairs.
  repeat match goal with
         | |- context [negb (?a =? ?b)] =>
             destruct (a =? b); cbn [negb]; [|split; discriminate]
         end.
  split; reflexivity.
Qed.

Lemma take_app_exact (a b : str) (n : nat) :
  n = length a -> take n (a ++ b) = a.
Proof.
  intros ->. unfold take. rewrite firstn_app, Nat.sub_diag, firstn_all.
  cbn [firstn]. apply app_nil_r.
Qed.

Lemma strip_close_fence_after (body : str) :
  body <> [] ->
  strip_close_fence (body ++ nl :: fence) = body.
Proof.
  intros NE. unfold strip_close_fence.
  assert (E : body ++ nl :: fence = (body ++ [nl]) ++ fence).
  { rewrite <- app_assoc. reflexivity. }
  rewrite E.
  assert (R : rstrip ((body ++ [nl]) ++ fence) = (body ++ [nl]) ++ fence).
  { apply rstrip_fix. rewrite ends_clean_app by discriminate. reflexivity. }
  rewrite R. rewrite (endswith_app fence (body ++ [nl]) fence) by reflexivity.
  rewrite (take_app_exact (body ++ [nl]) fence).
  2:{ rewrite !length_app. cbn [length fence]. lia. }
  rewrite (endswith_app [nl] body [nl]) by reflexivity.
  apply take_app_exact. rewrite length_app. cbn [length]. lia.
Qed.

Lemma clean_nonempty (raw_code : str) :
  raw_code <> [] ->
  clean_mermaid_code raw_code
  = normalise_lines
      (lstrip_chars [bom]
         (decode_unicode
            (replace [backslash; dquote] [dquote]
               (replace [backslash; 116%N] (u "  ")
                  (replace [backslash; 110%N] [nl]
                     (replace [backslash; backslash; dquote] [dquote]
                        (replace [backslash; backslash; 116%N] (u "  ")
                           (replace [backslash; backslash; 110%N] [nl]
                              (strip_close_fence
                                 (strip_open_fence raw_code)))))))))).
Proof. destruct raw_code; [contradiction|reflexivity]. Qed.

(** X6.  A diagram wrapped in a Markdown fence, tagged "mermaid" or not,
    cleans to what its body alone cleans to, for a body without
    backslash, backtick or byte-order mark that does not start with white
    space. *)
Theorem clean_unwraps_fenced_diagram (tagged : bool) (body : str) :
  plain_text body = true ->
  starts_clean body = true ->
  let lang := if tagged then u "mermaid" else [] in
  clean_mermaid_code (fence ++ lang ++ nl :: body ++ nl :: fence)
  = clean_mermaid_code body.
Proof.
  intros P SC. cbv zeta. apply plain_text_Forall in P.
  rewrite clean_nonempty by (destruct tagged; discriminate).
  match goal with
  | |- context [strip_open_fence ?x] =>
      replace (strip_open_fence x) with (lstrip (body ++ nl :: fence))
        by (unfold strip_open_fence; destruct tagged; reflexivity)
  end.
  destruct body as [|b body].
  - vm_compute. reflexivity.
  - rewrite (lstrip_fix ((b :: body) ++ nl :: fence)) by exact SC.
    rewrite strip_close_fence_after by discriminate.
    assert (NB : Forall (fun x => x <> backslash) (b :: body)).
    { eapply Forall_impl; [|exact P]. intros x [Hx _]. exact Hx. }
    do 6 rewrite (replace_absent backslash _ _ (b :: body) NB).
    rewrite (decode_unicode_plain _ P), (lstrip_chars_plain _ P).
    rewrite (clean_plain _ P). reflexivity.
Qed.

Lemma clean_unwraps_fenced_diagram_witness :
  clean_mermaid_code
    (fence ++ u "mermaid" ++ nl :: small_diagram ++ nl :: fence)
  = clean_mermaid_code small_diagram.
Proof.
  exact (clean_unwraps_fenced_diagram true small_diagram eq_refl eq_refl).
Defined.

(* ------------------------------------------------------------------ *)
(** ** Further properties of the inference client *)

Lemma startswith_app_same (q rest : str) : startswith q (q ++ rest) = true.
Proof.
  induction q as [|x q IH]; [reflexivity|]. simpl. rewrite N.eqb_refl. exact IH.
Qed.

Lemma startswith_inv (q s : str) :
  startswith q s = true -> exists rest, s = q ++ rest.
Proof.
  revert s. induction q as [|x q IH]; intros s H.
  - exists s. reflexivity.
  - destruct s as [|y s]; [discriminate|]. simpl in H.
    apply andb_true_iff in H as [E H]. apply N.eqb_eq in E. subst y.
    destruct (IH s H) as [rest ->]. exists rest. reflexivity.
Qed.

Lemma contains_app_r (sub a t : str) :
  contains sub t = true -> contains sub (a ++ t) = true.
Proof.
  intros H. induction a as [|x a IH]; [exact H|].
  cbn [app contains]. rewrite IH. apply orb_true_r.
Qed.

Lemma contains_app_l (sub a b : str) :
  contains sub a = true -> contains sub (a ++ b) = true.
Proof.
  induction a as [|x a IH]; intros H.
  - destruct sub; [destruct b; reflexivity|discriminate].
  - cbn [app contains] in *. apply orb_true_iff in H as [H|H].
    + change (x :: a ++ b) with ((x :: a) ++ b).
      rewrite (startswith_app _ _ b H). reflexivity.
    + rewrite (IH H). apply orb_true_r.
Qed.

Lemma contains_self_prefix (sub rest : str) :
  contains sub (sub ++ rest) = true.
Proof.
  destruct (sub ++ rest) eqn:E; cbn [contains]; rewrite <- E;
    rewrite startswith_app_same; reflexivity.
Qed.

Lemma contains_weaken (p q s : str) :
  contains (p ++ q) s = true -> contains q s = true.
Proof.
  induction s as [|x s IH]; cbn [contains]; intros H.
  - rewrite orb_false_r in H. apply startswith_inv in H as [rest E].
    destruct p; [|discriminate]. destruct q; [reflexivity|discriminate].
  - apply orb_true_iff in H as [H|H].
    + apply startswith_inv in H as [rest E].
      change (startswith q (x :: s) || contains q s)
        with (contains q (x :: s)).
      rewrite E, <- app_assoc. apply contains_app_r, contains_self_prefix.
    + rewrite (IH H). apply orb_true_r.
Qed.

(** X7.  [_resolve_ollama_model] never answers "codellama:7b": a model
    id that contains "codellama" contains "llama", which is tried first.
    The local model is always one of the six other names. *)
Theorem resolve_ollama_model_never_codellama (model_id : str) :
  _resolve_ollama_model model_id <> u "codellama:7b"
  /\ In (_resolve_ollama_model model_id)
        [ u "qwen2.5-coder:7b"; u "llama3.2:3b"; u "deepseek-coder:6.7b";
          u "mistral:7b"; u "phi3:mini"; u "gemma2:2b" ].
Proof.
  unfold _resolve_ollama_model, ollama_mappings. cbn [find fst snd].
  destruct (contains (u "qwen") (lower model_id));
    [split; [discriminate|simpl; tauto]|].
  destruct (contains (u "llama") (lower model_id)) eqn:L;
    [split; [discriminate|simpl; tauto]|].
  destruct (contains (u "starcoder") (lower model_id));
    [split; [discriminate|simpl; tauto]|].
  destruct (contains (u "codellama") (lower model_id)) eqn:C.
  { apply (contains_weaken (u "code") (u "llama")) in C.
    rewrite L in C. discriminate C. }
  repeat match goal with
         | |- context [if contains ?k ?m then _ else _] =>
             destruct (contains k m); [split; [discriminate|simpl; tauto]|]
         end.
  split; [discriminate|simpl; tauto].
Qed.

(** X8.  Whatever the cloud host answers, [_call_bytez] does one of four
    things: one POST; a POST, 5 s of sleep and a second POST; the same
    followed by a third POST at once; or the same with 10 s of sleep
    before the third POST.  So it posts at most 3 times and sleeps at
    most 15 s. *)
Theorem call_bytez_traces (float : Type) (model_id : str)
    (post : nat -> bytez_body float -> http_result (option bytez_data))
    (messages : list message) (temperature : float) (max_tokens : Z) :
  let evs := fst (_call_bytez model_id post messages temperature max_tokens) in
  In evs [ [Post 0];
           [Post 0; Sleep 5; Post 1];
           [Post 0; Sleep 5; Post 1; Post 2];
           [Post 0; Sleep 5; Post 1; Sleep 10; Post 2] ]
  /\ posts evs <= 3
  /\ waited evs <= 15.
Proof.
  cbv zeta.
  assert (H : In (fst (_call_bytez model_id post messages temperature
                         max_tokens))
                 [ [Post 0];
                   [Post 0; Sleep 5; Post 1];
                   [Post 0; Sleep 5; Post 1; Post 2];
                   [Post 0; Sleep 5; Post 1; Sleep 10; Post 2] ]).
  { unfold _call_bytez.
    cbn [seq max_retries Nat.add bytez_loop Nat.eqb Nat.ltb Nat.leb Nat.mul].
    repeat match goal with
           | |- context [match post ?n ?b with _ => _ end] =>
               destruct (post n b) as [| |? ?]
           | |- context [(?s =? 429)%Z] => destruct (s =? 429)%Z
           | |- context [(?s =? 200)%Z] => destruct (s =? 200)%Z
           | |- context [match reply_content ?r with _ => _ end] =>
               destruct (reply_content r)
           end;
      cbn; tauto. }
  split; [exact H|].
  cbn [In] in H.
  destruct H as [H|[H|[H|[H|[]]]]]; rewrite <- H; cbn; lia.
Qed.

Lemma bytez_loop_result_origin (float : Type)
    (post : nat -> bytez_body float -> http_result (option bytez_data))
    (body : bytez_body float) (attempts : list nat) :
  forall evs (content : json),
    bytez_loop post body attempts = (evs, Some content) ->
    exists attempt reply,
      In attempt attempts
      /\ post attempt body = Response 200 reply
      /\ reply_content reply = Some content.
Proof.
  induction attempts as [|attempt rest IH]; intros evs content; simpl.
  - discriminate.
  - assert (NRL : forall evs0,
               (if (attempt =? 0)%nat
                then ([Post attempt], None)
                else let '(evs1, r1) := bytez_loop post body rest in
                     (Post attempt :: evs1, r1)) = (evs0, Some content) ->
               exists a reply,
                 (attempt = a \/ In a rest)
                 /\ post a body = Response 200 reply
                 /\ reply_content reply = Some content).
    { intros evs0. destruct (attempt =? 0)%nat; [discriminate|].
      destruct (bytez_loop post body rest) as [evs1 r1] eqn:E.
      intros H; inversion H; subst.
      destruct (IH _ _ eq_refl) as [a [reply [Ha Hr]]].
      exists a, reply. tauto. }
    destruct (post attempt body) as [| |status reply] eqn:P; try apply NRL.
    destruct (status =? 429)%Z eqn:S429.
    + destruct (attempt <? max_retries)%nat; [|discriminate].
      destruct (bytez_loop post body rest) as [evs1 r1] eqn:E.
      intros H; inversion H; subst.
      destruct (IH _ _ eq_refl) as [a [reply' [Ha Hr]]].
      exists a, reply'. tauto.
    + destruct (status =? 200)%Z eqn:S200; [|apply NRL].
      destruct (reply_content reply) as [c|] eqn:E; [|apply NRL].
      intros H; inversion H; subst.
      apply Z.eqb_eq in S200. subst status.
      exists attempt, reply. tauto.
Qed.

(** X9.  A value returned by [_call_bytez] is a non-empty text or a
    non-empty list (a text it returns is never empty) and is the content
    of a reply with status 200 that the host gave to one of the three
    attempts, for the request body built from the messages. *)
Theorem call_bytez_result_origin (float : Type) (model_id : str)
    (post : nat -> bytez_body float -> http_result (option bytez_data))
    (messages : list message) (temperature : float) (max_tokens : Z)
    (content : json) :
  snd (_call_bytez model_id post messages temperature max_tokens)
    = Some content ->
  is_content content = true
  /\ (forall text, content = JStr text -> text <> [])
  /\ exists attempt reply,
       attempt <= 2
       /\ post attempt (request_body model_id messages temperature max_tokens)
          = Response 200 reply
       /\ reply_content reply = Some content.
Proof.
  unfold _call_bytez.
  destruct (bytez_loop post _ _) as [evs r] eqn:E. cbn [snd]. intros ->.
  assert (K : is_content content = true)
    by (eapply bytez_loop_is_content; exact E).
  split; [exact K|]. split.
  - intros text -> ->. discriminate K.
  - apply bytez_loop_result_origin in E as [a [reply [Ha Hr]]].
    exists a, reply. split; [|exact Hr].
    cbn in Ha. lia.
Qed.

Lemma call_bytez_result_origin_witness :
  is_content (JStr (u "second answer")) = true
  /\ (forall text, JStr (u "second answer") = JStr text -> text <> [])
  /\ exists attempt reply,
       attempt <= 2
       /\ limited_then_ok attempt
            (request_body (u "Qwen/Qwen2.5-Coder-0.5B-Instruct")
                          [user_msg (u "hello")] tt 1000)
          = Response 200 reply
       /\ reply_content reply = Some (JStr (u "second answer")).
Proof.
  exact (call_bytez_result_origin unit (u "Qwen/Qwen2.5-Coder-0.5B-Instruct")
           limited_then_ok [user_msg (u "hello")] tt 1000
           (JStr (u "second answer")) eq_refl).
Defined.

(** X10.  [_call_ollama] returns a value only if the tags request was
    answered with status 200, the name of some installed model contains
    the resolved model name, and the chat request for that model was
    answered with status 200 and that value as content, which is a
    non-empty text or a non-empty list (a text it returns is never
    empty). *)
Theorem call_ollama_success_conditions (float : Type) (model_id : str)
    (ollama_tags : http_result (option (list str)))
    (ollama_chat : ollama_request float -> http_result (option (option json)))
    (messages : list message) (temperature : float) (max_tokens : Z)
    (content : json) :
  _call_ollama model_id ollama_tags ollama_chat messages temperature max_tokens
    = Some content ->
  is_content content = true
  /\ (forall text, content = JStr text -> text <> [])
  /\ exists installed,
       ollama_tags = Response 200 (Some installed)
       /\ (exists name,
             In name installed
             /\ contains (_resolve_ollama_model model_id) name = true)
       /\ ollama_chat (OllamaRequest (_resolve_ollama_model model_id) messages
                                     max_tokens temperature)
          = Response 200 (Some (Some content)).
Proof.
  intros H.
  assert (K : is_content content = true)
    by (eapply call_ollama_is_content; exact H).
  split; [exact K|]. split; [intros text -> ->; discriminate K|].
  revert H. unfold _call_ollama.
  set (m := _resolve_ollama_model model_id).
  destruct m as [|m0 ms] eqn:M; [discriminate|]. rewrite <- M.
  destruct ollama_tags as [| |status [installed|]]; try discriminate.
  destruct (status =? 200)%Z eqn:S; cbn [negb]; [|discriminate].
  apply Z.eqb_eq in S. subst status.
  destruct (existsb (str_eqb m) installed || existsb (contains m) installed)
    eqn:A; cbn [negb]; [|discriminate].
  destruct (ollama_chat _) as [| |status' [[v|]|]] eqn:C;
    try discriminate.
  destruct (status' =? 200)%Z eqn:S'; [|discriminate].
  apply Z.eqb_eq in S'. subst status'.
  intros H. apply returned_content_inv in H. destruct H as [-> _].
  exists installed. split; [reflexivity|]. split; [|reflexivity].
  apply orb_true_iff in A as [A|A]; apply existsb_exists in A as [name [I E]];
    exists name; split; try exact I.
  - apply str_eqb_eq in E. subst name.
    rewrite <- (app_nil_r m) at 2. apply contains_self_prefix.
  - exact E.
Qed.

Lemma call_ollama_success_conditions_witness :
  is_content (JStr (u "local answer")) = true
  /\ (forall text, JStr (u "local answer") = JStr text -> text <> [])
  /\ exists installed,
       one_model_installed = Response 200 (Some installed)
       /\ (exists name,
             In name installed
             /\ contains (_resolve_ollama_model (u "meta-llama/Llama-3.2"))
                         name = true)
       /\ local_model_answers
            (OllamaRequest (_resolve_ollama_model (u "meta-llama/Llama-3.2"))
                           [user_msg (u "hello")] 1000 tt)
          = Response 200 (Some (Some (JStr (u "local answer")))).
Proof.
  exact (call_ollama_success_conditions unit (u "meta-llama/Llama-3.2")
           one_model_installed local_model_answers [user_msg (u "hello")]
           tt 1000 (JStr (u "local answer")) eq_refl).
Defined.

(* ------------------------------------------------------------------ *)
(** ** The agents without a backend *)

Import AgentCalls.

Lemma lower_app (a b : str) : lower (a ++ b) = lower a ++ lower b.
Proof. unfold lower. apply flat_map_app. Qed.

Lemma sniff_analysis (user_content : str) :
  contains (u "analyze") (lower user_content)
  || contains (u "code") (lower user_content) = true ->
  sniff user_content = dumps mock_analysis.
Proof. intros H. unfold sniff. rewrite H. reflexivity. Qed.

Lemma mock_response_of_agent_prompts
    (source_code language style : str)
    (code_analysis context documentation : json) :
  _mock_response (reader_messages source_code language) = dumps mock_analysis
  /\ _mock_response (searcher_messages code_analysis language)
     = dumps mock_analysis
  /\ _mock_response (writer_messages source_code context language style)
     = dumps mock_analysis
  /\ _mock_response (verifier_messages source_code documentation)
     = dumps mock_analysis.
Proof.
  unfold _mock_response, reader_messages, searcher_messages, writer_messages,
    verifier_messages.
  cbn [user_content_of system_msg user_msg role content].
  change (str_eqb (u "system") (u "user")) with false.
  change (str_eqb (u "user") (u "user")) with true.
  cbv iota.
  split; [|split; [|split]]; apply sniff_analysis; rewrite !lower_app;
    apply orb_true_iff.
  - left. apply contains_app_l. reflexivity.
  - right. apply contains_app_r, contains_app_r, contains_app_l. reflexivity.
  - right. apply contains_app_r, contains_app_r, contains_app_l. reflexivity.
  - right. apply contains_app_r, contains_app_r, contains_app_l. reflexivity.
Qed.

(** X11.  The prompts of the Reader, the Searcher, the Writer and the
    Verifier all contain "analyze" or "code" in their user message, so the
    mock answers each of them with the analysis skeleton, whatever the
    source, the language, the style and the records passed in. *)
Theorem mock_answers_analysis_to_four_agents
    (source_code language style : str)
    (code_analysis context documentation : json) :
  _mock_response (reader_messages source_code language) = dumps mock_analysis
  /\ _mock_response (searcher_messages code_analysis language)
     = dumps mock_analysis
  /\ _mock_response (writer_messages source_code context language style)
     = dumps mock_analysis
  /\ _mock_response (verifier_messages source_code documentation)
     = dumps mock_analysis.
Proof.
  exact (mock_response_of_agent_prompts source_code language style
           code_analysis context documentation).
Qed.

Section Offline.

Variable float : Type.
Variable default_temperature : float.
Variable bytez_post :
  nat -> bytez_body float -> http_result (option bytez_data).
Variable ollama_chat :
  ollama_request float -> http_result (option (option json)).
Variable json_loads : str -> loaded.

Lemma offline_generate (model_id : str) (messages : list message)
    (max_tokens : Z) :
  agent_generate default_temperature [] bytez_post TransportException
                 ollama_chat model_id messages max_tokens
  = JStr (_mock_response messages).
Proof.
  unfold agent_generate, generate, _call_ollama.
  destruct (_resolve_ollama_model model_id); reflexivity.
Qed.

Lemma try_on_analysis_skeleton :
  json_loads (dumps mock_analysis) = Loaded mock_analysis ->
  searcher_try json_loads (JStr (dumps mock_analysis)) = Some mock_analysis
  /\ verifier_try json_loads (JStr (dumps mock_analysis))
     = Some mock_analysis.
Proof.
  intros H. unfold searcher_try, verifier_try.
  replace (strip (dumps mock_analysis)) with (dumps mock_analysis)
    by (vm_compute; reflexivity).
  replace (contains (fence ++ u "json") (dumps mock_analysis)) with false
    by (vm_compute; reflexivity).
  replace (contains fence (dumps mock_analysis)) with false
    by (vm_compute; reflexivity).
  rewrite H. split; reflexivity.
Qed.

(** X12.  With no cloud key and no local host, and a JSON parser that
    reads the analysis skeleton back, [search] and [verify] both return
    the analysis skeleton: the result of [search] has no "patterns" and
    the result of [verify] has no "quality_score". *)
Theorem offline_searcher_and_verifier_return_analysis
    (source_code language : str) (code_analysis documentation : json) :
  json_loads (dumps mock_analysis) = Loaded mock_analysis ->
  let search_result :=
    search default_temperature [] bytez_post TransportException ollama_chat
           json_loads code_analysis language in
  let verify_result :=
    verify default_temperature [] bytez_post TransportException ollama_chat
           json_loads source_code documentation in
  search_result = mock_analysis
  /\ field (u "patterns") search_result = None
  /\ verify_result = mock_analysis
  /\ field (u "quality_score") verify_result = None.
Proof.
  intros H. cbv zeta. unfold search, verify. rewrite !offline_generate.
  destruct (mock_response_of_agent_prompts source_code language []
              code_analysis JNull documentation) as [_ [S [_ V]]].
  rewrite S, V.
  destruct (try_on_analysis_skeleton H) as [TS TV]. rewrite TS, TV.
  repeat split; reflexivity.
Qed.

End Offline.

Lemma offline_searcher_and_verifier_return_analysis_witness :
  search tt [] limited_then_ok TransportException unreachable_chat
         loads_analysis_skeleton reader_default (u "python")
  = mock_analysis.
Proof.
  exact (proj1 (offline_searcher_and_verifier_return_analysis
                  unit tt limited_then_ok unreachable_chat
                  loads_analysis_skeleton (u "x = 1") (u "python")
                  reader_default JNull eq_refl)).
Defined.

(* ------------------------------------------------------------------ *)
(** ** The orchestrator *)

Import RepoDocs JobSpec.

Lemma agent_results_cons
    (f : nat -> agent_name -> str -> str -> list (agent_name * json)
         -> result json)
    (i : nat) (p c : str) (outs : list (agent_name * json))
    (a : agent_name) (rest : list agent_name) :
  agent_results f i p c outs (a :: rest)
  = (a, f i a p c outs)
      :: agent_results f i p c (outputs_with outs a (f i a p c outs)) rest.
Proof. reflexivity. Qed.

Section OrchestratedJob.

Variable reader_analyze : str -> str -> result json.
Variable searcher_search : json -> str -> result json.
Variable writer_write : str -> json -> str -> str -> result json.
Variable verifier_verify : str -> json -> result json.
Variable diagram_generate : str -> result json.
Variables repo_url branch : str.

Lemma dispatch_eq (i : nat) (a : agent_name) (p c : str)
    (outs : list (agent_name * json)) :
  (Orchestrator.run_agent_of_job reader_analyze searcher_search writer_write
     verifier_verify diagram_generate repo_url branch) i a p c outs
  = match a with
    | reader => reader_analyze c (Orchestrator.language_of p)
    | searcher =>
        searcher_search
          (Orchestrator.py_or
             (Orchestrator.get_or_none (u "reader")
                (Orchestrator.keyed_by_name outs))
             (Orchestrator.py_or
                (Orchestrator.get_or_none (u "context")
                   (Orchestrator.keyed_by_name outs))
                (JObj [(u "documentation_needs",
                        JArr [JStr (u "docstring")])])))
          (Orchestrator.language_of p)
    | writer =>
        writer_write c
          (Orchestrator.py_or
             (Orchestrator.get_or_none (u "searcher")
                (Orchestrator.keyed_by_name outs))
             (Orchestrator.py_or
                (Orchestrator.get_or_none (u "analyzer")
                   (Orchestrator.keyed_by_name outs))
                (JObj [])))
          (Orchestrator.language_of p) (u "google")
    | verifier =>
        verifier_verify c
          (Orchestrator.py_or
             (Orchestrator.get_or_none (u "writer")
                (Orchestrator.keyed_by_name outs))
             (Orchestrator.py_or
                (Orchestrator.get_or_none (u "generator")
                   (Orchestrator.keyed_by_name outs))
                (JObj [])))
    | diagram => diagram_generate c
    end.
Proof. destruct a; reflexivity. Qed.

Ltac agent_step :=
  rewrite agent_results_cons, dispatch_eq; cbv iota;
  cbn [outputs_with set_agent agent_eqb];
  repeat match goal with
         | |- context [Orchestrator.get_or_none ?k ?d] =>
             let v := eval vm_compute in (Orchestrator.get_or_none k d) in
             replace (Orchestrator.get_or_none k d) with v
               by (vm_compute; reflexivity)
         end;
  unfold Orchestrator.py_or, Orchestrator.output_or;
  try change (truthy JNull) with false; cbv iota;
  repeat match goal with
         | |- context [if truthy ?v then _ else _] => destruct (truthy v)
         end.

Lemma orchestrated_results (i : nat) (p c : str) :
  let language := Orchestrator.language_of p in
  let r1 := reader_analyze c language in
  let r2 := searcher_search
              (Orchestrator.output_or r1
                 (JObj [(u "documentation_needs",
                         JArr [JStr (u "docstring")])]))
              language in
  let r3 := writer_write c (Orchestrator.output_or r2 (JObj [])) language
              (u "google") in
  let r4 := verifier_verify c (Orchestrator.output_or r3 (JObj [])) in
  let r5 := diagram_generate c in
  agent_results
    (Orchestrator.run_agent_of_job reader_analyze searcher_search
       writer_write verifier_verify diagram_generate repo_url branch)
    i p c [] agents
  = [ (reader, r1); (searcher, r2); (writer, r3); (verifier, r4);
      (diagram, r5) ].
Proof.
  cbv zeta. unfold agents.
  agent_step.
  destruct (reader_analyze c (Orchestrator.language_of p)) as [v1|e1];
    agent_step;
    match goal with
    | |- context [searcher_search ?x ?y] =>
        destruct (searcher_search x y) as [v2|e2]
    end;
    agent_step;
    match goal with
    | |- context [writer_write ?x ?y ?z ?w] =>
        destruct (writer_write x y z w) as [v3|e3]
    end;
    agent_step;
    match goal with
    | |- context [verifier_verify ?x ?y] =>
        destruct (verifier_verify x y) as [v4|e4]
    end;
    agent_step; reflexivity.
Qed.

(** X14.  In the repository job run through [orchestrator.run_agent],
    the Reader gets the file content and the language of the file path;
    the Searcher gets the Reader's output, the Writer the Searcher's and
    the Verifier the Writer's, or the fixed default when that agent
    raised or returned a falsy output; the Diagram agent gets the file
    content only.  The five sub-records of the file are the outcomes of
    these calls. *)
Theorem job_feeds_each_agent_the_output_before (i : nat) (info : file_info)
    (j : job) (tr : list event) :
  let p := path_of info in
  let c := content_of info in
  let language := Orchestrator.language_of p in
  let r1 := reader_analyze c language in
  let r2 := searcher_search
              (Orchestrator.output_or r1
                 (JObj [(u "documentation_needs",
                         JArr [JStr (u "docstring")])]))
              language in
  let r3 := writer_write c (Orchestrator.output_or r2 (JObj [])) language
              (u "google") in
  let r4 := verifier_verify c (Orchestrator.output_or r3 (JObj [])) in
  let r5 := diagram_generate c in
  exists doc,
    file_results
      (the_job
         (snd (process_file
                 (Orchestrator.run_agent_of_job reader_analyze searcher_search
                    writer_write verifier_verify diagram_generate repo_url
                    branch)
                 (i, info) (World j tr))))
    = file_results j
      ++ [FileResult p c file_completed
            [ (reader, record_of r1); (searcher, record_of r2);
              (writer, record_of r3); (verifier, record_of r4);
              (diagram, record_of r5) ] doc].
Proof.
  cbv zeta. rewrite process_file_spec. cbn [snd the_job file_results].
  eexists. f_equal. unfold file_result_of, file_outcomes.
  cbn [fst snd]. rewrite orchestrated_results.
  reflexivity.
Qed.

End OrchestratedJob.

Section PipelineFacts.

Variable reader_analyze : str -> str -> result json.
Variable searcher_search : json -> str -> result json.
Variable writer_write : str -> json -> str -> str -> result json.
Variable verifier_verify : str -> json -> result json.
Variable diagram_generate : str -> result json.

Ltac settle1 f :=
  try match goal with
      | |- context [f ?a] => destruct (f a) as [?|?]; cbv beta iota zeta
      end.
Ltac settle2 f :=
  try match goal with
      | |- context [f ?a ?b] => destruct (f a b) as [?|?]; cbv beta iota zeta
      end.
Ltac settle4 f :=
  try match goal with
      | |- context [f ?a ?b ?c ?d] =>
          destruct (f a b c d) as [?|?]; cbv beta iota zeta
      end.

Ltac outcome_with n :=
  exists n; vm_compute;
  split; [lia|];
  split; [reflexivity|];
  split;
  [ first [ left; reflexivity | right; split; [lia | reflexivity] ]
  | first [ left; repeat split; solve [reflexivity | discriminate]
          | right; repeat split; solve [reflexivity | discriminate] ] ].


End PipelineFacts.


Lemma rfind_from_absent (ch : char) (s : str) :
  forallb (not_char ch) s = true ->
  forall i, Orchestrator.rfind_from ch i s = None.
Proof.
  induction s as [|x s IH]; intros H i; [reflexivity|].
  simpl in H. unfold not_char in H at 1. apply andb_true_iff in H.
  destruct H as [Hx Hs].
  simpl. rewrite (IH Hs). apply negb_true_iff in Hx. rewrite Hx. reflexivity.
Qed.

Lemma rfind_from_app (ch : char) (a : str) :
  forall i b,
    Orchestrator.rfind_from ch i (a ++ b)
    = match Orchestrator.rfind_from ch (i + length a) b with
      | Some j => Some j
      | None => Orchestrator.rfind_from ch i a
      end.
Proof.
  induction a as [|x a IH]; intros i b.
  - simpl. rewrite Nat.add_0_r.
    destruct (Orchestrator.rfind_from ch i b); reflexivity.
  - simpl. rewrite IH. replace (S i + length a) with (i + S (length a)) by lia.
    destruct (Orchestrator.rfind_from ch (i + S (length a)) b); reflexivity.
Qed.

Lemma rfind_from_bound (ch : char) (s : str) :
  forall i j, Orchestrator.rfind_from ch i s = Some j ->
              i <= j < i + length s.
Proof.
  induction s as [|x s IH]; intros i j H; [discriminate|].
  simpl in H. destruct (Orchestrator.rfind_from ch (S i) s) eqn:E.
  - injection H as <-. apply IH in E. simpl. lia.
  - destruct (x =? ch)%N; [|discriminate]. injection H as <-. simpl. lia.
Qed.

Lemma lookup_empty_extension :
  Orchestrator.lookup [] Orchestrator._EXT_TO_LANG (u "python") = u "python".
Proof. reflexivity. Qed.

(** X16.  The language of a path that ends in [stem.ext], where [stem]
    has a character other than a dot and neither [stem] nor [ext] has a
    slash or [ext] a dot, is looked up from the lower-cased extension
    alone, whatever comes before. *)
Theorem language_of_extension (dir stem ext : str) :
  existsb (not_char Orchestrator.dot) stem = true ->
  forallb (not_char Orchestrator.slash) stem = true ->
  forallb (not_char Orchestrator.dot) ext = true ->
  forallb (not_char Orchestrator.slash) ext = true ->
  Orchestrator.language_of (dir ++ stem ++ Orchestrator.dot :: ext)
  = Orchestrator.lookup (lower (Orchestrator.dot :: ext))
      Orchestrator._EXT_TO_LANG (u "python").
Proof.
  intros Hstem Sstem Dext Sext.
  assert (EXT : Orchestrator.splitext_ext
                  (dir ++ stem ++ Orchestrator.dot :: ext)
                = Orchestrator.dot :: ext).
  { unfold Orchestrator.splitext_ext.
    replace (dir ++ stem ++ Orchestrator.dot :: ext)
      with ((dir ++ stem) ++ Orchestrator.dot :: ext)
      by (rewrite <- app_assoc; reflexivity).
    rewrite (rfind_from_app Orchestrator.dot (dir ++ stem)).
    cbn [Orchestrator.rfind_from].
    rewrite (rfind_from_absent Orchestrator.dot ext Dext).
    rewrite N.eqb_refl. cbn [Nat.add].
    rewrite <- app_assoc.
    rewrite (rfind_from_app Orchestrator.slash dir).
    rewrite (rfind_from_absent Orchestrator.slash
               (stem ++ Orchestrator.dot :: ext)).
    2:{ rewrite forallb_app. rewrite Sstem. simpl. exact Sext. }
    assert (B : (match Orchestrator.rfind_from Orchestrator.slash 0 dir with
                 | Some sepIndex => S sepIndex
                 | None => 0
                 end) <= length dir).
    { destruct (Orchestrator.rfind_from Orchestrator.slash 0 dir) eqn:R;
        [apply rfind_from_bound in R|]; lia. }
    set (f := match Orchestrator.rfind_from Orchestrator.slash 0 dir with
              | Some sepIndex => S sepIndex
              | None => 0
              end) in *.
    rewrite length_app.
    replace (f <=? length dir + length stem) with true
      by (symmetry; apply Nat.leb_le; lia).
    rewrite skipn_app.
    replace (f - length dir) with 0 by lia. cbn [skipn].
    rewrite firstn_app.
    rewrite length_skipn.
    replace (length dir + length stem - f - (length dir - f))
      with (length stem) by lia.
    rewrite firstn_app. rewrite firstn_all.
    rewrite !existsb_app.
    change (fun ch : N => negb (ch =? Orchestrator.dot)%N)
      with (not_char Orchestrator.dot).
    rewrite Hstem.
    rewrite orb_true_r. cbn [orb].
    rewrite app_assoc.
    replace (length dir + length stem) with (length (dir ++ stem) + 0)
      by (rewrite length_app; lia).
    rewrite skipn_app. rewrite skipn_all2 by lia.
    replace (length (dir ++ stem) + 0 - length (dir ++ stem)) with 0 by lia.
    reflexivity. }
  unfold Orchestrator.language_of. rewrite EXT.
  destruct (dir ++ stem ++ Orchestrator.dot :: ext) eqn:P; [|reflexivity].
  destruct dir; [destruct stem|]; discriminate.
Qed.

Lemma language_of_extension_witness :
  Orchestrator.language_of (u "src/" ++ u "App" ++ Orchestrator.dot :: u "TSX")
  = u "typescript".
Proof.
  exact (language_of_extension (u "src/") (u "App") (u "TSX")
           eq_refl eq_refl eq_refl eq_refl).
Defined.

Lemma only_dots_prefix (dots : str) :
  forallb (is_char Orchestrator.dot) dots = true ->
  forall k, existsb (not_char Orchestrator.dot) (firstn k dots) = false.
Proof.
  induction dots as [|x dots IH]; intros H k.
  - destruct k; reflexivity.
  - simpl in H. apply andb_true_iff in H. destruct H as [Hx Hd].
    destruct k; [reflexivity|]. simpl. rewrite (IH Hd).
    unfold not_char. unfold is_char in Hx. rewrite Hx. reflexivity.
Qed.

Lemma only_dots_no_slash (dots : str) :
  forallb (is_char Orchestrator.dot) dots = true ->
  forallb (not_char Orchestrator.slash) dots = true.
Proof.
  induction dots as [|x dots IH]; intros H; [reflexivity|].
  simpl in H. apply andb_true_iff in H. destruct H as [Hx Hd].
  simpl. rewrite (IH Hd). unfold is_char in Hx. apply N.eqb_eq in Hx.
  subst x. reflexivity.
Qed.

Lemma splitext_without_extension (pre dots name : str) :
  forallb (is_char Orchestrator.dot) dots = true ->
  forallb (not_char Orchestrator.dot) name = true ->
  match Orchestrator.rfind_from Orchestrator.slash 0 (pre ++ dots ++ name) with
  | Some sepIndex => S sepIndex
  | None => 0
  end = length pre ->
  Orchestrator.splitext_ext (pre ++ dots ++ name) = [].
Proof.
  intros Hdots Dname F. unfold Orchestrator.splitext_ext. rewrite F.
  replace (Orchestrator.rfind_from Orchestrator.dot 0 (pre ++ dots ++ name))
    with (Orchestrator.rfind_from Orchestrator.dot 0 (pre ++ dots)).
  2:{ rewrite (app_assoc pre dots name).
      rewrite (rfind_from_app Orchestrator.dot (pre ++ dots)).
      rewrite (rfind_from_absent Orchestrator.dot name Dname). reflexivity. }
  destruct (Orchestrator.rfind_from Orchestrator.dot 0 (pre ++ dots))
    as [d|] eqn:R; [|reflexivity].
  apply rfind_from_bound in R. rewrite length_app in R.
  destruct (length pre <=? d) eqn:L; [|reflexivity].
  apply Nat.leb_le in L.
  rewrite skipn_app. rewrite skipn_all. rewrite Nat.sub_diag. cbn [skipn app].
  rewrite firstn_app.
  replace (d - length pre - length dots) with 0 by lia.
  cbn [firstn]. rewrite app_nil_r.
  change (fun ch : N => negb (ch =? Orchestrator.dot)%N)
    with (not_char Orchestrator.dot).
  rewrite (only_dots_prefix dots Hdots). reflexivity.
Qed.

(** X17.  A file whose name is a run of dots followed by characters
    other than dot and slash (no extension, or a hidden file such as
    ".gitignore" or ".py") is taken to be Python, in any directory. *)
Theorem language_of_without_extension (dir dots name : str) :
  forallb (is_char Orchestrator.dot) dots = true ->
  forallb (not_char Orchestrator.dot) name = true ->
  forallb (not_char Orchestrator.slash) name = true ->
  Orchestrator.language_of (dots ++ name) = u "python"
  /\ Orchestrator.language_of (dir ++ Orchestrator.slash :: dots ++ name)
     = u "python".
Proof.
  intros Hdots Dname Sname.
  assert (NS : forallb (not_char Orchestrator.slash) (dots ++ name) = true).
  { rewrite forallb_app, (only_dots_no_slash dots Hdots). exact Sname. }
  split; unfold Orchestrator.language_of.
  - change (dots ++ name) with ([] ++ dots ++ name).
    rewrite (splitext_without_extension [] dots name Hdots Dname).
    + destruct ([] ++ dots ++ name); reflexivity.
    + cbn [app]. rewrite (rfind_from_absent Orchestrator.slash _ NS).
      reflexivity.
  - replace (dir ++ Orchestrator.slash :: dots ++ name)
      with ((dir ++ [Orchestrator.slash]) ++ dots ++ name)
      by (rewrite <- app_assoc; reflexivity).
    rewrite (splitext_without_extension (dir ++ [Orchestrator.slash])
               dots name Hdots Dname).
    + destruct ((dir ++ [Orchestrator.slash]) ++ dots ++ name); reflexivity.
    + rewrite <- app_assoc. cbn [app].
      rewrite (rfind_from_app Orchestrator.slash dir).
      cbn [Orchestrator.rfind_from].
      rewrite (rfind_from_absent Orchestrator.slash _ NS).
      rewrite N.eqb_refl. rewrite length_app. cbn. lia.
Qed.

Lemma language_of_without_extension_witness :
  Orchestrator.language_of (u ".gitignore") = u "python"
  /\ Orchestrator.language_of (u "docs/.gitignore") = u "python".
Proof.
  exact (language_of_without_extension (u "docs") (u ".") (u "gitignore")
           eq_refl eq_refl eq_refl).
Defined.

(* ------------------------------------------------------------------ *)
(** ** The connection manager *)

Import Connections.

Lemma str_eqb_neq (a b : str) : a <> b -> str_eqb a b = false.
Proof.
  intros N. destruct (str_eqb a b) eqn:E; [|reflexivity].
  apply str_eqb_eq in E. contradiction.
Qed.

Lemma lookup_remove_same {V} (key : str) (d : list (str * V)) :
  lookup key (remove key d) = None.
Proof.
  induction d as [|[k v] d IH]; [reflexivity|].
  unfold remove in *. cbn [filter fst].
  destruct (str_eqb k key) eqn:E; cbn [negb]; [exact IH|].
  cbn [lookup]. rewrite E. exact IH.
Qed.

Lemma lookup_remove_other {V} (key other : str) (d : list (str * V)) :
  other <> key -> lookup other (remove key d) = lookup other d.
Proof.
  intros N. induction d as [|[k v] d IH]; [reflexivity|].
  unfold remove in *. cbn [filter fst].
  destruct (str_eqb k key) eqn:E; cbn [negb].
  - cbn [lookup]. apply str_eqb_eq in E. subst k.
    rewrite (str_eqb_neq key other) by congruence. exact IH.
  - cbn [lookup]. rewrite IH. reflexivity.
Qed.

Lemma discard_spec (x y : str) (s : list str) :
  In y (discard x s) <-> In y s /\ y <> x.
Proof.
  unfold discard. rewrite filter_In. split; intros [H1 H2]; split; auto.
  - intros ->. rewrite str_eqb_refl in H2. discriminate.
  - rewrite str_eqb_neq by exact H2. reflexivity.
Qed.

(** X18.  After [disconnect] the client is not connected and belongs to
    no subscriber set, no subscriber set is empty, and every set is the
    one before without the client; the other connections and the other
    subscribers are kept. *)
Theorem disconnect_forgets_client (m : manager) (client_id : str) :
  let m' := disconnect m client_id in
  is_active m' client_id = false
  /\ (forall other, other <> client_id ->
        lookup other (active_connections m')
        = lookup other (active_connections m))
  /\ (forall job_id subs,
        In (job_id, subs) (job_subscribers m') ->
        subs <> [] /\ ~ In client_id subs
        /\ exists before, In (job_id, before) (job_subscribers m)
                          /\ subs = discard client_id before)
  /\ (forall job_id before other,
        In (job_id, before) (job_subscribers m) ->
        In other before -> other <> client_id ->
        exists subs, In (job_id, subs) (job_subscribers m')
                     /\ In other subs).
Proof.
  cbv zeta. split; [|split; [|split]].
  - unfold is_active, disconnect. cbn [active_connections].
    rewrite lookup_remove_same. reflexivity.
  - intros other N. apply lookup_remove_other. exact N.
  - intros job_id subs H. unfold disconnect in H. cbn [job_subscribers] in H.
    apply in_flat_map in H. destruct H as [[j before] [Hin H]].
    cbn [fst snd] in H.
    destruct (discard client_id before) as [|x rest] eqn:D; [contradiction|].
    destruct H as [H|[]]. injection H as <- <-.
    split; [discriminate|]. split.
    + rewrite <- D. intros C. apply discard_spec in C. destruct C as [_ C].
      apply C. reflexivity.
    + exists before. split; [exact Hin|]. symmetry. exact D.
  - intros job_id before other Hin Hother N.
    exists (discard client_id before). split.
    + unfold disconnect. cbn [job_subscribers]. apply in_flat_map.
      exists (job_id, before). split; [exact Hin|]. cbn [fst snd].
      assert (I : In other (discard client_id before))
        by (apply discard_spec; split; assumption).
      destruct (discard client_id before); [destruct I|]. left. reflexivity.
    + apply discard_spec. split; assumption.
Qed.

Section SendingFacts.

Variable send_json : nat -> websocket -> list (str * json) -> bool.
Variable list_of_set : list str -> list str.
Hypothesis list_of_set_enumerates :
  forall s, Permutation (list_of_set s) s.

Lemma is_active_disconnect_other (m : manager) (c other : str) :
  other <> c -> is_active (disconnect m c) other = is_active m other.
Proof.
  intros N. unfold is_active, disconnect. cbn [active_connections].
  rewrite lookup_remove_other by exact N. reflexivity.
Qed.

Lemma fold_send_to (data : list (str * json)) (l : list str) :
  NoDup l ->
  forall w : world,
  exists ds,
    fold_left (send_to send_json data) l w
    = (fold_left disconnect (failed ds) (fst w), snd w ++ ds)
    /\ List.map to_client ds = filter (is_active (fst w)) l
    /\ Forall (fun d => lookup (to_client d) (active_connections (fst w))
                        = Some (through d)
                        /\ payload d = data) ds.
Proof.
  induction 1 as [|c l Hc Hl IH]; intros [m tr].
  - exists []. cbn. rewrite app_nil_r. auto.
  - cbn [fold_left fst snd filter]. unfold send_to at 2. cbn [fst snd].
    unfold is_active at 1.
    destruct (lookup c (active_connections m)) as [ws|] eqn:L.
    + cbv zeta.
      destruct (send_json (length tr) ws data) eqn:S.
      * destruct (IH (m, tr ++ [Delivery c ws data true])) as [ds [E [M F]]].
        exists (Delivery c ws data true :: ds). cbn [fst snd] in *.
        rewrite E. rewrite <- app_assoc. split; [reflexivity|].
        split; [cbn; rewrite M; reflexivity|].
        constructor; [cbn; auto|exact F].
      * destruct (IH (disconnect m c, tr ++ [Delivery c ws data false]))
          as [ds [E [M F]]].
        exists (Delivery c ws data false :: ds). cbn [fst snd] in *.
        rewrite E. rewrite <- app_assoc. split; [reflexivity|].
        assert (A : forall x, In x l ->
                      is_active (disconnect m c) x = is_active m x).
        { intros x Hx. apply is_active_disconnect_other. intros ->.
          contradiction. }
        rewrite (filter_ext_in _ _ l A) in M.
        split; [cbn; rewrite M; reflexivity|].
        constructor; [cbn; auto|].
        rewrite Forall_forall in *. intros d Hd.
        destruct (F d Hd) as [F1 F2]. split; [|exact F2].
        rewrite <- F1. symmetry. apply lookup_remove_other.
        assert (I : In (to_client d) (List.map to_client ds))
          by (apply in_map; exact Hd).
        rewrite M in I. apply filter_In in I. destruct I as [I _].
        intros Q. rewrite Q in I. contradiction.
    + destruct (IH (m, tr)) as [ds [E [M F]]]. exists ds. auto.
Qed.

Lemma broadcast_to_job_deliveries
    (m : manager) (tr : list delivery) (job_id : str)
    (data : list (str * json)) :
  well_formed m ->
  exists ds,
    broadcast_to_job send_json list_of_set (JStr job_id) data (m, tr)
    = Ok (fold_left disconnect (failed ds) m, tr ++ ds)
    /\ List.map to_client ds
       = filter (is_active m) (list_of_set (subscribers m job_id))
    /\ Forall (fun d => lookup (to_client d) (active_connections m)
                        = Some (through d)
                        /\ payload d = data) ds.
Proof.
  intros [_ [K W]].
  assert (ND : NoDup (list_of_set (subscribers m job_id))).
  { apply (Permutation_NoDup (Permutation_sym (list_of_set_enumerates _))).
    unfold subscribers.
    destruct (lookup job_id (job_subscribers m)) as [s|] eqn:L;
      [|constructor].
    clear K. induction (job_subscribers m) as [|[k v] d IH];
      [discriminate|].
    cbn [lookup] in L. inversion W; subst.
    destruct (str_eqb k job_id); [injection L as <-; assumption|auto]. }
  destruct (fold_send_to data _ ND (m, tr)) as [ds [E [M F]]].
  exists ds. unfold broadcast_to_job. cbn [fst snd] in *. rewrite E. auto.
Qed.



End SendingFacts.

Lemma three_subscribers_well_formed : well_formed three_subscribers.
Proof.
  unfold well_formed. vm_compute.
  split; [|split].
  - repeat (apply NoDup_cons; [cbn [In]; intuition discriminate|]).
    apply NoDup_nil.
  - repeat (apply NoDup_cons; [cbn [In]; intuition discriminate|]).
    apply NoDup_nil.
  - apply Forall_cons; [|apply Forall_nil].
    repeat (apply NoDup_cons; [cbn [In]; intuition discriminate|]).
    apply NoDup_nil.
Qed.

Lemma in_stored_order_enumerates (s : list str) :
  Permutation (in_stored_order s) s.
Proof. apply Permutation_refl. Qed.



Lemma assign_keys {V} (key : str) (v : V) (d : list (str * V)) :
  List.map fst (assign key v d) = List.map fst d
  \/ (~ In key (List.map fst d)
      /\ List.map fst (assign key v d) = List.map fst d ++ [key]).
Proof.
  induction d as [|[k w] d IH]; [right; split; [intros []|reflexivity]|].
  cbn [assign]. destruct (str_eqb k key) eqn:E; [left; reflexivity|].
  destruct IH as [IH|[N IH]]; cbn [List.map fst].
  - left. rewrite IH. reflexivity.
  - right. split.
    + intros [H|H]; [|contradiction]. subst k. rewrite str_eqb_refl in E.
      discriminate.
    + rewrite IH. reflexivity.
Qed.

Lemma assign_keys_nodup {V} (key : str) (v : V) (d : list (str * V)) :
  NoDup (List.map fst d) -> NoDup (List.map fst (assign key v d)).
Proof.
  intros H. destruct (assign_keys key v d) as [E|[N E]]; rewrite E;
    [exact H|].
  apply NoDup_app; [exact H|repeat constructor; intros []|].
  intros x Hx [Hy|[]]. subst x. contradiction.
Qed.

Lemma assign_forall {V} (P : str * V -> Prop) (key : str) (v : V)
    (d : list (str * V)) :
  (forall k, P (k, v)) -> Forall P d -> Forall P (assign key v d).
Proof.
  intros Pv H. induction H as [|[k w] d Hk Hd IH]; cbn [assign].
  - repeat constructor. apply Pv.
  - destruct (str_eqb k key); constructor; auto.
Qed.

Lemma add_nodup (x : str) (s : list str) : NoDup s -> NoDup (add x s).
Proof.
  intros H. unfold add. destruct (mem x s) eqn:M; [exact H|].
  apply NoDup_app; [exact H|repeat constructor; intros []|].
  intros y Hy [E|[]]. subst y.
  unfold mem in M. assert (T : existsb (str_eqb x) s = true).
  { apply existsb_exists. exists x. split; [exact Hy|apply str_eqb_refl]. }
  congruence.
Qed.

Lemma filter_keys_nodup {V} (f : str * V -> bool) (d : list (str * V)) :
  NoDup (List.map fst d) -> NoDup (List.map fst (filter f d)).
Proof.
  induction d as [|kv d IH]; intros H; [constructor|].
  cbn [List.map] in H. inversion H as [|? ? N H']; subst.
  cbn [filter]. destruct (f kv); [|auto].
  cbn [List.map]. constructor; [|auto].
  intros I. apply N. apply in_map_iff in I. destruct I as [y [E I]].
  apply filter_In in I. destruct I as [I _].
  rewrite <- E. apply in_map. exact I.
Qed.

Lemma disconnect_well_formed (m : manager) (client_id : str) :
  well_formed m -> well_formed (disconnect m client_id).
Proof.
  intros [A [K W]]. unfold well_formed, disconnect.
  cbn [active_connections job_subscribers].
  split; [apply filter_keys_nodup; exact A|].
  induction (job_subscribers m) as [|[j subs] d IH];
    [split; constructor|].
  cbn [List.map fst] in K. inversion K as [|? ? N K']; subst.
  inversion W as [|? ? Wj W']; subst. cbn [snd] in Wj.
  destruct (IH K' W') as [IK IW]. cbn [flat_map fst snd].
  assert (D : NoDup (discard client_id subs)) by (apply NoDup_filter; exact Wj).
  destruct (discard client_id subs) as [|x rest] eqn:E; [split; assumption|].
  cbn [app List.map fst]. split.
  - constructor; [|exact IK].
    intros I. apply N. apply in_map_iff in I. destruct I as [[j' s'] [Ej I]].
    cbn [fst] in Ej. subst j'. apply in_flat_map in I.
    destruct I as [[j2 s2] [I2 I3]]. cbn [fst snd] in I3.
    destruct (discard client_id s2); [contradiction|].
    destruct I3 as [I3|[]]. injection I3 as -> _.
    apply (in_map fst) in I2. exact I2.
  - constructor; [exact D|exact IW].
Qed.

Lemma subscribers_nodup (m : manager) (job_id : str) :
  well_formed m -> NoDup (subscribers m job_id).
Proof.
  intros [_ [_ W]]. unfold subscribers.
  destruct (lookup job_id (job_subscribers m)) as [s|] eqn:L; [|constructor].
  induction (job_subscribers m) as [|[k v] d IH]; [discriminate|].
  cbn [lookup] in L. inversion W; subst.
  destruct (str_eqb k job_id); [injection L as <-; assumption|auto].
Qed.

Lemma send_to_well_formed send_json (data : list (str * json)) (w : world)
    (client_id : str) :
  well_formed (fst w) -> well_formed (fst (send_to send_json data w client_id)).
Proof.
  intros H. unfold send_to.
  destruct (lookup client_id (active_connections (fst w))); [|exact H].
  cbv zeta. cbn [fst]. destruct (send_json _ _ _); [exact H|].
  apply disconnect_well_formed. exact H.
Qed.

Lemma broadcast_to_job_well_formed send_json list_of_set (job_id : json)
    (data : list (str * json)) (w w' : world) :
  well_formed (fst w) ->
  broadcast_to_job send_json list_of_set job_id data w = Ok w' ->
  well_formed (fst w').
Proof.
  intros H E. unfold broadcast_to_job in E.
  destruct job_id; try discriminate; try (injection E as <-; exact H).
  injection E as <-.
  generalize (list_of_set (subscribers (fst w) s)). intros l.
  revert w H. induction l as [|c l IH]; intros w H; [exact H|].
  cbn [fold_left]. apply IH. apply send_to_well_formed. exact H.
Qed.

(** The representation: a list stands for a dict or a set when it has no
    repeated keys or members, and the operations keep it so. *)
Lemma operations_keep_well_formed (m : manager) :
  well_formed m ->
  (forall ws client_id accepted,
     well_formed (connect m ws client_id accepted))
  /\ (forall client_id, well_formed (disconnect m client_id))
  /\ (forall client_id job_id,
        well_formed (subscribe_to_job m client_id job_id))
  /\ (forall send_json list_of_set data tr w',
        broadcast send_json list_of_set data (m, tr) = Ok w' ->
        well_formed (fst w'))
  /\ (forall send_json list_of_set client_id data tr w',
        send_progress send_json list_of_set client_id data (m, tr) = Ok w' ->
        well_formed (fst w')).
Proof.
  intros H. split; [|split; [|split; [|split]]].
  - intros ws c [|]; [|exact H]. destruct H as [A [K W]].
    unfold connect, well_formed. cbn [active_connections job_subscribers].
    split; [apply assign_keys_nodup; exact A|]. split; assumption.
  - intros c. apply disconnect_well_formed. exact H.
  - intros c j. pose proof (subscribers_nodup m j H) as S.
    destruct H as [A [K W]].
    unfold subscribe_to_job, well_formed.
    cbn [active_connections job_subscribers].
    split; [exact A|]. split; [apply assign_keys_nodup; exact K|].
    apply assign_forall; [|exact W]. intros k. cbn [snd].
    apply add_nodup. exact S.
  - intros send_json list_of_set data tr w' E. unfold broadcast in E.
    cbv zeta in E. destruct (truthy (job_id_of data)).
    + apply (broadcast_to_job_well_formed _ _ _ _ (m, tr) w' H E).
    + injection E as <-. exact H.
  - intros send_json list_of_set c data tr w' E. unfold send_progress in E.
    cbv zeta in E. destruct (truthy (job_id_of data)).
    + refine (broadcast_to_job_well_formed _ _ _ _ _ w' _ E).
      apply send_to_well_formed. exact H.
    + injection E as <-. apply send_to_well_formed. exact H.
Qed.

Lemma empty_well_formed : well_formed empty.
Proof. repeat split; constructor. Qed.

(* ------------------------------------------------------------------ *)
(** ** The rate limiter *)

Import RateLimit.

Section LimiterFacts.

Variable time : Type.
Variable recent : time -> time -> bool.

Lemma dispatch_within_limit (r : request) (now : time) (st : requests time) :
  within_limit st -> within_limit (snd (dispatch recent r now st)).
Proof.
  intros H. unfold dispatch. destruct (exempt (url_path r)); [exact H|].
  cbv zeta.
  set (stored := match lookup (client_id_of r) st with
                 | Some l => l
                 | None => []
                 end).
  assert (S : length stored <= rate_limit).
  { unfold stored. destruct (lookup (client_id_of r) st) as [l|] eqn:L;
      [|cbn; lia].
    clear stored. induction H as [|[k v] d Hk Hd IH]; [discriminate|].
    cbn [lookup] in L. destruct (str_eqb k (client_id_of r));
      [injection L as <-; exact Hk|auto]. }
  assert (K : length (filter (recent now) stored) <= rate_limit).
  { pose proof (filter_length_le (recent now) stored). lia. }
  assert (H1 : within_limit
                 (assign (client_id_of r) (filter (recent now) stored) st)).
  { apply assign_forall; [intros k; exact K|exact H]. }
  destruct (rate_limit <=? length (filter (recent now) stored)) eqn:Q;
    cbn [snd]; [exact H1|].
  apply Nat.leb_gt in Q.
  apply assign_forall; [|exact H1].
  intros k. cbn [snd]. rewrite length_app. cbn. lia.
Qed.

Lemma lookup_assign_same {V} (key : str) (v : V) (d : list (str * V)) :
  lookup key (assign key v d) = Some v.
Proof.
  induction d as [|[k w] d IH]; cbn [assign lookup].
  - rewrite str_eqb_refl. reflexivity.
  - destruct (str_eqb k key) eqn:E; cbn [lookup]; rewrite E;
      [reflexivity|exact IH].
Qed.

Lemma lookup_assign_other {V} (key other : str) (v : V)
    (d : list (str * V)) :
  other <> key -> lookup other (assign key v d) = lookup other d.
Proof.
  intros N. induction d as [|[k w] d IH]; cbn [assign lookup].
  - rewrite str_eqb_neq; [reflexivity|congruence].
  - destruct (str_eqb k key) eqn:E; cbn [lookup].
    + apply str_eqb_eq in E. subst k.
      rewrite str_eqb_neq; [reflexivity|congruence].
    + rewrite IH. reflexivity.
Qed.

Lemma serve_within_limit (arrivals : list (request * time)) :
  within_limit (snd (serve recent arrivals)).
Proof.
  unfold serve.
  assert (G : forall acc : list outcome * requests time,
             within_limit (snd acc) ->
             within_limit
               (snd (fold_left
                       (fun acc arrival =>
                          let '(o, st) :=
                            dispatch recent (fst arrival) (snd arrival)
                                     (snd acc) in
                          (fst acc ++ [o], st))
                       arrivals acc))).
  { induction arrivals as [|a rest IH]; intros acc H; [exact H|].
    cbn [fold_left]. apply IH.
    pose proof (dispatch_within_limit (fst a) (snd a) (snd acc) H) as D.
    destruct (dispatch recent (fst a) (snd a) (snd acc)). exact D. }
  apply G. constructor.
Qed.

(** X22.  Whatever requests arrive at whatever times, a new middleware
    never holds more than [rate_limit] clock readings for one client,
    because of what one request does: an exempt path is forwarded and
    leaves the store alone; any other request is rejected exactly when
    [rate_limit] or more of the client's stored readings are recent,
    and then the client keeps those recent readings and no more, the
    rejected request is not recorded; a forwarded request is recorded
    once, after the recent readings; the lists of the other clients are
    not touched. *)
Theorem rate_limiter_records_forwarded_requests_only :
  (forall arrivals : list (request * time),
     Forall (fun entry => length (snd entry) <= rate_limit)
            (snd (serve recent arrivals)))
  /\ (forall (r : request) (now : time) (st : requests time),
        exempt (url_path r) = true ->
        dispatch recent r now st = (Forwarded, st))
  /\ (forall (r : request) (now : time) (st : requests time),
        exempt (url_path r) = false ->
        let client_id := client_id_of r in
        let kept :=
          filter (recent now)
                 match lookup client_id st with Some l => l | None => [] end in
        (fst (dispatch recent r now st) = Rejected
         <-> rate_limit <= length kept)
        /\ (fst (dispatch recent r now st) = Rejected ->
            lookup client_id (snd (dispatch recent r now st)) = Some kept)
        /\ (fst (dispatch recent r now st) = Forwarded ->
            lookup client_id (snd (dispatch recent r now st))
            = Some (kept ++ [now]))
        /\ (forall other : str,
              other <> client_id ->
              lookup other (snd (dispatch recent r now st))
              = lookup other st)).
Proof.
  split; [exact serve_within_limit|]. split.
  - intros r now st E. unfold dispatch. rewrite E. reflexivity.
  - intros r now st E client_id kept. unfold dispatch. rewrite E.
    cbv zeta. fold client_id. fold kept.
    destruct (rate_limit <=? length kept) eqn:Q; cbn [fst snd].
    + apply Nat.leb_le in Q. split; [split; auto|].
      split; [intros _; apply lookup_assign_same|].
      split; [discriminate|].
      intros other N. apply lookup_assign_other. exact N.
    + apply Nat.leb_gt in Q. split; [split; [discriminate|lia]|].
      split; [discriminate|].
      split; [intros _; apply lookup_assign_same|].
      intros other N. rewrite !lookup_assign_other by exact N.
      reflexivity.
Qed.

(** X23.  Two requests whose bearer tokens agree on their first 13
    characters are limited as one client, whatever hosts they come
    from. *)
Theorem bearer_tokens_share_bucket_by_prefix
    (path token1 token2 : str) (host1 host2 : option str) (now : time)
    (st : requests time) :
  firstn 13 token1 = firstn 13 token2 ->
  dispatch recent (Request path (Some (u "Bearer " ++ token1)) host1) now st
  = dispatch recent (Request path (Some (u "Bearer " ++ token2)) host2) now st.
Proof.
  intros E. unfold dispatch. cbn [url_path].
  assert (C : forall token host,
             client_id_of (Request path (Some (u "Bearer " ++ token)) host)
             = firstn 13 token).
  { intros token host. unfold client_id_of. cbn [authorization].
    rewrite startswith_app_same. reflexivity. }
  rewrite !C, E. reflexivity.
Qed.



End LimiterFacts.

Lemma bearer_tokens_share_bucket_by_prefix_witness :
  dispatch recent_seconds
           (Request (u "/api/repo-docs/start")
                    (Some (u "Bearer " ++ u "eyJhbGciOiJIUzI1NiJ9.first"))
                    (Some (u "10.0.0.1")))
           100 []
  = dispatch recent_seconds
             (Request (u "/api/repo-docs/start")
                      (Some (u "Bearer " ++ u "eyJhbGciOiJIUzI1NiJ9.second"))
                      None)
             100 [].
Proof.
  exact (bearer_tokens_share_bucket_by_prefix nat recent_seconds
           (u "/api/repo-docs/start") (u "eyJhbGciOiJIUzI1NiJ9.first")
           (u "eyJhbGciOiJIUzI1NiJ9.second") (Some (u "10.0.0.1")) None
           100 [] eq_refl).
Defined.
